(** * host-db: reconciliation, checksum manifests, download and cache

    A shallow embedding of the parts of the repository that carry its
    invariants:

    - [scripts/prep.ts]              the discrepancy detector,
    - [lib/checksums.ts]             the checksum-manifest parser,
    - [scripts/repair-checksums.ts]  manifest repair and serialisation,
    - [packages/core/src/platform.ts], [download.ts], [cache.ts]
                                     platform detection, the download
                                     pipeline and the archive cache,
    - the generated [install.js]     the cache lookup of an installer.

    Conventions of the embedding.

    - A JavaScript string is a [string] of code units in the range 0..255
      where the code compares, joins or searches it.  The manifest line
      pattern tells code units above 255 apart, so the manifest round trip
      is modelled on UTF-16 code units ([Utf16]); on strings below 256 the
      two parsers agree.
    - A JavaScript object that the code iterates ([Object.entries],
      [Object.keys]) is the list of its own properties in iteration order,
      and [Js.get o k] is its own property [k].  A property read [o[k]]
      also reaches the members of [Object.prototype] ([Js.inherited]): a
      read whose value is tested for truth is modelled with them
      ([Prep.notEnabled]), a read whose value is used as an object is
      modelled for the names that are not inherited ([Prep.ownNames]).
    - A [Map<string,string>] and a [Record<string,string>] used as a
      dictionary are [gmap string string] (or [gmap text text] on code
      units).
    - Paths are those of [node:path] on a POSIX host ([Path]).
    - What the code obtains from the outside world (file contents, the
      network, the hash functions of [node:crypto]) is an explicit argument. *)

From stdpp Require Import gmap strings list sorting pretty.
From Stdlib Require Import Ascii.
From Stdlib Require String.


(** ** JavaScript string and object primitives *)

Module Js.

(** A value that either is returned or thrown. *)
Inductive outcome (A : Type) : Type :=
| Returns (a : A)
| Throws (e : string).
Arguments Returns {A} a.
Arguments Throws {A} e.

(** [s.includes(sub)] *)
Fixpoint includes (s sub : string) : bool :=
  String.prefix sub s ||
  match s with
  | "" => false
  | String _ s' => includes s' sub
  end.

(** The part of [s] before a final [suf], when [s] ends with [suf]. *)
Fixpoint strip_suffix (suf s : string) : option string :=
  if String.eqb s suf then Some ""
  else match s with
       | "" => None
       | String c s' => String c <$> strip_suffix suf s'
       end.

(** [s.endsWith(suf)] *)
Definition endsWith (s suf : string) : bool :=
  bool_decide (is_Some (strip_suffix suf s)).

(** [s.split(sep)] for a separator of one character. *)
Fixpoint split (sep : ascii) (s : string) : list string :=
  match s with
  | "" => [""]
  | String c s' =>
      if Ascii.eqb c sep then "" :: split sep s'
      else match split sep s' with
           | [] => [String c ""]
           | w :: ws => String c w :: ws
           end
  end.

(** [ls.join(sep)] *)
Definition join (sep : string) (ls : list string) : string :=
  String.concat sep ls.

(** Truthiness of a string: every string but the empty one. *)
Definition truthy (s : string) : bool := negb (String.eqb s "").

(** Template-literal rendering of a number. *)
Definition show (n : nat) : string := pretty n.

(** Template-literal rendering of a possibly undefined string. *)
Definition render (v : option string) : string :=
  match v with
  | Some s => s
  | None => "undefined"
  end.

(** Truthiness of a possibly undefined string. *)
Definition defined (v : option string) : option string :=
  match v with
  | Some s => if truthy s then Some s else None
  | None => None
  end.

(** Objects as ordered property lists. *)
Definition obj (V : Type) : Type := list (string * V).

Definition entries {V} (o : obj V) : list (string * V) := o.
Definition keys {V} (o : obj V) : list string := map fst o.

(** The own property of [o] named [k].  This is what [o[k]] reads unless
    [o] has no such property and [Object.prototype] has one, see
    [inherited]. *)
Fixpoint get {V} (o : obj V) (k : string) : option V :=
  match o with
  | [] => None
  | (k', v) :: o' => if String.eqb k' k then Some v else get o' k
  end.

(** [xs.includes(x)] on an array of strings. *)
Definition array_includes (xs : list string) (x : string) : bool :=
  existsb (String.eqb x) xs.

(** The properties of [Object.prototype]: eleven functions and the
    accessor [__proto__], which answers [Object.prototype] itself.  An
    object that [JSON.parse] built inherits them all. *)
Definition prototypeMembers : list string :=
  ["constructor"; "__defineGetter__"; "__defineSetter__"; "hasOwnProperty";
   "__lookupGetter__"; "__lookupSetter__"; "isPrototypeOf";
   "propertyIsEnumerable"; "toString"; "valueOf"; "__proto__";
   "toLocaleString"].

(** [o[k]] finds a value for [k] in an object that does not own [k]. *)
Definition inherited (k : string) : bool := array_includes prototypeMembers k.

(** [for (const x of xs) body], threading the mutated state. *)
Definition for_of {A S} (xs : list A) (body : A → S → S) (s : S) : S :=
  fold_left (λ acc x, body x acc) xs s.

End Js.

(** ** scripts/prep.ts: the discrepancy detector *)

Module Prep.
Import Js.

Inductive DiscrepancyType : Type :=
| missing_release | orphaned_release
| missing_version | orphaned_version
| missing_platform | orphaned_platform.

Record Discrepancy : Type := mkDiscrepancy {
  type : DiscrepancyType;
  database : string;
  version : option string;
  platform : option string;
  message : string
}.

Record DatabaseEntry : Type := mkDatabaseEntry {
  displayName : string;
  status : string;
  versions : obj bool;
  platforms : obj bool
}.

Record DatabasesJson : Type := mkDatabasesJson {
  databases : obj DatabaseEntry
}.

Record ReleasePlatform : Type := mkReleasePlatform {
  url : string;
  sha256 : string;
  size : N
}.

Record ReleaseVersion : Type := mkReleaseVersion {
  releaseTag : string;
  releasedAt : string;
  released_platforms : obj ReleasePlatform
}.

Record ReleasesJson : Type := mkReleasesJson {
  released_databases : obj (obj ReleaseVersion)
}.

(** [discrepancies.push(d)] *)
Definition push (d : Discrepancy) (ds : list Discrepancy) : list Discrepancy :=
  ds ++ [d].

(** The six records the detector pushes, with their messages. *)
Definition missingRelease (dbId : string) (n : nat) : Discrepancy :=
  mkDiscrepancy missing_release dbId None None
    ("Database '" +:+ dbId +:+ "' has " +:+ show n +:+
     " enabled version(s) but no releases").
Definition missingVersion (dbId version : string) : Discrepancy :=
  mkDiscrepancy missing_version dbId (Some version) None
    ("Version '" +:+ version +:+ "' is enabled but not released").
Definition missingPlatform (dbId version platform : string) : Discrepancy :=
  mkDiscrepancy missing_platform dbId (Some version) (Some platform)
    ("Platform '" +:+ platform +:+ "' is enabled but not released for " +:+
     dbId +:+ " " +:+ version).
Definition orphanedRelease (dbId : string) : Discrepancy :=
  mkDiscrepancy orphaned_release dbId None None
    ("Database '" +:+ dbId +:+
     "' is in releases.json but not in databases.json").
Definition orphanedVersion (dbId version : string) : Discrepancy :=
  mkDiscrepancy orphaned_version dbId (Some version) None
    ("Version '" +:+ version +:+ "' is released but not in databases.json").
Definition orphanedPlatform (dbId version platform : string) : Discrepancy :=
  mkDiscrepancy orphaned_platform dbId (Some version) (Some platform)
    ("Platform '" +:+ platform +:+
     "' is released but not enabled in databases.json").

(** [entry.status === 'in-progress' || entry.status === 'completed'] *)
Definition isActive (entry : DatabaseEntry) : bool :=
  String.eqb (status entry) "in-progress" || String.eqb (status entry) "completed".

(** [Object.entries(o).filter(([_, enabled]) => enabled).map(([k]) => k)] *)
Definition enabledKeys (o : obj bool) : list string :=
  map fst (filter (λ kv, Is_true (snd kv)) (entries o)).

(** [!o[k]] for an object of booleans, lines 200 and 212: the negation
    of the own flag when [o] owns [k]; false when [o] does not own [k] and
    inherits it, the inherited value being a function or an object; true
    when [o[k]] is [undefined]. *)
Definition notEnabled (o : obj bool) (k : string) : bool :=
  match get o k with
  | Some b => negb b
  | None => negb (inherited k)
  end.

(** Lines 132-184: the loop over the active databases.  The read of
    [databases.databases[dbId]] cannot miss, [dbId] being one of its keys;
    the branch for a miss leaves the list as it is.

    The reads of lines 155 and 160 (and of line 188 in the second loop)
    yield objects whose properties the code goes on to read.  They are
    modelled for the names that [Object.prototype] does not define: at an
    inherited name the code obtains a built-in function and reads
    properties of it.  [ownNames] is the condition that no such name
    occurs. *)
Definition desiredLoop (databases : DatabasesJson) (releases : ReleasesJson)
    (discrepancies : list Discrepancy) : list Discrepancy :=
  let activeDatabases :=
    map fst (filter (λ kv, Is_true (isActive (snd kv)))
                    (entries (Prep.databases databases))) in
  for_of activeDatabases (λ dbId discrepancies,
    match get (Prep.databases databases) dbId with
    | None => discrepancies
    | Some dbEntry =>
        let enabledVersions := enabledKeys (versions dbEntry) in
        let enabledPlatforms := enabledKeys (platforms dbEntry) in
        match get (released_databases releases) dbId with
        | None =>
            if 0 <? length enabledVersions
            then push (missingRelease dbId (length enabledVersions)) discrepancies
            else discrepancies
        | Some released =>
            for_of enabledVersions (λ version discrepancies,
              match get released version with
              | None => push (missingVersion dbId version) discrepancies
              | Some release =>
                  let releasedPlatforms := keys (released_platforms release) in
                  for_of enabledPlatforms (λ platform discrepancies,
                    if negb (array_includes releasedPlatforms platform)
                    then push (missingPlatform dbId version platform) discrepancies
                    else discrepancies) discrepancies
              end) discrepancies
        end
    end) discrepancies.

(** Lines 186-223: the loop over the released databases. *)
Definition releasedLoop (databases : DatabasesJson) (releases : ReleasesJson)
    (discrepancies : list Discrepancy) : list Discrepancy :=
  for_of (entries (released_databases releases)) (λ '(dbId, versions) discrepancies,
    match get (Prep.databases databases) dbId with
    | None => push (orphanedRelease dbId) discrepancies
    | Some dbEntry =>
        for_of (entries versions) (λ '(version, release) discrepancies,
          if notEnabled (Prep.versions dbEntry) version
          then push (orphanedVersion dbId version) discrepancies
          else
            for_of (keys (released_platforms release)) (λ platform discrepancies,
              if notEnabled (platforms dbEntry) platform
              then push (orphanedPlatform dbId version platform) discrepancies
              else discrepancies) discrepancies) discrepancies
    end) discrepancies.

(** The body of [findDiscrepancies] once both files are parsed. *)
Definition diffSnapshots (databases : DatabasesJson) (releases : ReleasesJson)
    : list Discrepancy :=
  let discrepancies := [] in
  let discrepancies := desiredLoop databases releases discrepancies in
  let discrepancies := releasedLoop databases releases discrepancies in
  discrepancies.

(** A state file on disk: absent, present with a content that
    [JSON.parse] rejects, or present with the content of a value of the
    expected type. *)
Inductive file (A : Type) : Type :=
| Absent
| Malformed
| Parsed (v : A).
Arguments Absent {A}.
Arguments Malformed {A}.
Arguments Parsed {A} v.

Definition existsSync {A} (f : file A) : bool :=
  match f with Absent => false | _ => true end.

(** [JSON.parse(readFileSync(path, 'utf-8'))] *)
Definition JSON_parse {A} (f : file A) : outcome A :=
  match f with
  | Parsed v => Returns v
  | Malformed => Throws "SyntaxError"
  | Absent => Throws "ENOENT"
  end.

(** [findDiscrepancies()], lines 119-226, on the two files it reads. *)
Definition findDiscrepancies (databasesFile : file DatabasesJson)
    (releasesFile : file ReleasesJson) : outcome (list Discrepancy) :=
  if negb (existsSync databasesFile) || negb (existsSync releasesFile)
  then Returns []
  else
    match JSON_parse databasesFile with
    | Throws e => Throws e
    | Returns databases =>
        match JSON_parse releasesFile with
        | Throws e => Throws e
        | Returns releases => Returns (diffSnapshots databases releases)
        end
    end.

(** *** The two loops without the mutation *)

(** What the first loop appends. *)
Definition desiredPass (databases : DatabasesJson) (releases : ReleasesJson)
    : list Discrepancy :=
  flat_map (λ '(dbId, dbEntry),
    let enabledVersions := enabledKeys (versions dbEntry) in
    let enabledPlatforms := enabledKeys (platforms dbEntry) in
    match get (released_databases releases) dbId, enabledVersions with
    | None, _ :: _ => [missingRelease dbId (length enabledVersions)]
    | released, _ =>
        flat_map (λ version,
          match released ≫= (λ r, get r version) with
          | None => [missingVersion dbId version]
          | Some release =>
              map (missingPlatform dbId version)
                  (filter (λ platform, platform ∉ keys (released_platforms release))
                          enabledPlatforms)
          end) enabledVersions
    end)
    (filter (λ kv, Is_true (isActive (snd kv))) (Prep.databases databases)).

(** What the second loop appends. *)
Definition releasedPass (databases : DatabasesJson) (releases : ReleasesJson)
    : list Discrepancy :=
  flat_map (λ '(dbId, versions),
    match get (Prep.databases databases) dbId with
    | None => [orphanedRelease dbId]
    | Some dbEntry =>
        flat_map (λ '(version, release),
          if notEnabled (Prep.versions dbEntry) version
          then [orphanedVersion dbId version]
          else map (orphanedPlatform dbId version)
                   (filter (λ platform,
                              notEnabled (platforms dbEntry) platform = true)
                           (keys (released_platforms release)))) versions
    end) (released_databases releases).

(** The property names the detector reads with [o[k]]: the names of the
    databases (lines 155 and 188), of the versions (lines 160 and 200) and
    of the released platforms (line 212). *)
Definition namesRead (databases : DatabasesJson) (releases : ReleasesJson)
    : list string :=
  keys (Prep.databases databases)
  ++ flat_map (λ '(_, dbEntry), keys (versions dbEntry)) (Prep.databases databases)
  ++ keys (released_databases releases)
  ++ flat_map (λ '(_, versions),
       keys versions
       ++ flat_map (λ '(_, release), keys (released_platforms release)) versions)
       (released_databases releases).

(** None of the names read is a name that [Object.prototype] defines. *)
Definition ownNames (databases : DatabasesJson) (releases : ReleasesJson)
    : bool :=
  forallb (λ k, negb (inherited k)) (namesRead databases releases).

(** *** The detector as the specification words it *)

(** A discrepancy as the specification has it: its type and the database,
    version and platform it is about. *)
Record Finding : Type := mkFinding {
  kind : DiscrepancyType;
  ofDatabase : string;
  ofVersion : option string;
  ofPlatform : option string
}.

Definition findingOf (d : Discrepancy) : Finding :=
  mkFinding (type d) (database d) (version d) (platform d).

(** The value a mapping gives a name. *)
Definition spec_at {V} (mapping : list (string * V)) (name : string) : option V :=
  (λ found, found.2.2) <$> list_find (λ kv, kv.1 = name) mapping.

(** The names a mapping of flags enables: those whose flag is [true]. *)
Definition spec_enabled (flags : list (string * bool)) : list string :=
  (filter (λ kv, kv.2 = true) flags).*1.

(** An active database: its status is in-progress or completed. *)
Definition spec_active (entry : DatabaseEntry) : Prop :=
  status entry = "in-progress" ∨ status entry = "completed".

(** The desired-side pass: for each active database, in order. *)
Definition spec_desiredPass (desired : DatabasesJson) (actual : ReleasesJson)
    : list Finding :=
  flat_map (λ '(db, entry),
    match spec_at (released_databases actual) db with
    | None =>
        match spec_enabled (versions entry) with
        | [] => []
        | _ :: _ => [mkFinding missing_release db None None]
        end
    | Some released =>
        flat_map (λ v,
          match spec_at released v with
          | None => [mkFinding missing_version db (Some v) None]
          | Some release =>
              (λ p, mkFinding missing_platform db (Some v) (Some p))
              <$> filter (λ p, p ∉ (released_platforms release).*1)
                         (spec_enabled (platforms entry))
          end) (spec_enabled (versions entry))
    end)
    (filter (λ kv, spec_active kv.2) (databases desired)).

(** The actual-side pass: for each released database, in order. *)
Definition spec_actualPass (desired : DatabasesJson) (actual : ReleasesJson)
    : list Finding :=
  flat_map (λ '(db, released),
    match spec_at (databases desired) db with
    | None => [mkFinding orphaned_release db None None]
    | Some entry =>
        flat_map (λ '(v, release),
          if decide (spec_at (versions entry) v = Some true)
          then (λ p, mkFinding orphaned_platform db (Some v) (Some p))
               <$> filter (λ p, spec_at (platforms entry) p ≠ Some true)
                          (released_platforms release).*1
          else [mkFinding orphaned_version db (Some v) None]) released
    end) (released_databases actual).

Definition computeDiscrepancies (desired : DatabasesJson) (actual : ReleasesJson)
    : list Finding :=
  spec_desiredPass desired actual ++ spec_actualPass desired actual.

(** Scenario A. *)
Definition scenarioA_desired : DatabasesJson :=
  mkDatabasesJson
    [("mysql", mkDatabaseEntry "MySQL" "in-progress"
                 [("8.4", true)]
                 [("linux-x64", true); ("win32-x64", true)])].
Definition scenarioA_actual : ReleasesJson := mkReleasesJson [].

(** A desired state with a version and a platform switched off, and the
    releases of its one enabled version. *)
Definition disabled_desired : DatabasesJson :=
  mkDatabasesJson
    [("mysql", mkDatabaseEntry "MySQL" "completed"
                 [("8.4", true); ("9.0", false)]
                 [("linux-x64", true); ("win32-x64", false)])].
Definition disabled_actual : ReleasesJson :=
  mkReleasesJson
    [("mysql", [("8.4", mkReleaseVersion "mysql-8.4" "2025-01-01"
                          [("darwin-arm64",
                            mkReleasePlatform "https://example.org/m.tar.gz"
                                              "ab" 1%N)])])].

(** Releases with a version named like a member of [Object.prototype],
    next to the version the desired state enables. *)
Definition inherited_desired : DatabasesJson :=
  mkDatabasesJson
    [("mysql", mkDatabaseEntry "MySQL" "completed"
                 [("8.4", true)] [("linux-x64", true)])].
Definition inherited_actual : ReleasesJson :=
  mkReleasesJson
    [("mysql",
      [("8.4", mkReleaseVersion "mysql-8.4" "2025-01-01"
                 [("linux-x64",
                   mkReleasePlatform "https://example.org/m.tar.gz" "ab" 1%N)]);
       ("constructor", mkReleaseVersion "mysql-constructor" "2025-01-02" [])])].

End Prep.

(** ** A backtracking matcher for the manifest line pattern *)

Module Regex.

(** One character class under a greedy quantifier [{lo,hi}]; [hi = None]
    is unbounded.  The patterns of the repository are sequences of such
    atoms between [^] and [$]. *)
Record atom : Type := mkAtom {
  cls : ascii → bool;
  lo : nat;
  hi : option nat
}.

Definition exactly (n : nat) (c : ascii → bool) : atom := mkAtom c n (Some n).
Definition plus (c : ascii → bool) : atom := mkAtom c 1 None.
Definition opt (c : ascii → bool) : atom := mkAtom c 0 (Some 1).

Definition in_range (a b c : ascii) : bool :=
  (N_of_ascii a <=? N_of_ascii c)%N && (N_of_ascii c <=? N_of_ascii b)%N.

(** [[a-f0-9]] *)
Definition hex (c : ascii) : bool :=
  in_range "a" "f" c || in_range "0" "9" c.

(** [\s] on code units below 256: tab, line feed, vertical tab, form
    feed, carriage return, space and the no-break space.  [Utf16.space]
    has the white space above 255 as well. *)
Definition space (c : ascii) : bool :=
  in_range "009" "013" c || Ascii.eqb c " " || Ascii.eqb c "160".

(** [\*] *)
Definition star (c : ascii) : bool := Ascii.eqb c "*".

(** [.] without the [s] flag, on code units below 256: anything but a
    line feed or a carriage return.  [Utf16.dot] has the two line
    terminators above 255 as well. *)
Definition dot (c : ascii) : bool :=
  negb (Ascii.eqb c "010" || Ascii.eqb c "013").

Fixpoint take (n : nat) (s : string) : string :=
  match n, s with
  | S n', String c s' => String c (take n' s')
  | _, _ => ""
  end.

Fixpoint drop (n : nat) (s : string) : string :=
  match n, s with
  | S n', String _ s' => drop n' s'
  | _, _ => s
  end.

(** Length of the longest prefix of [s] inside the class. *)
Fixpoint run (c : ascii → bool) (s : string) : nat :=
  match s with
  | String x s' => if c x then S (run c s') else 0
  | "" => 0
  end.

(** Every character of [s] is in the class. *)
Fixpoint all (c : ascii → bool) (s : string) : bool :=
  match s with
  | String x s' => c x && all c s'
  | "" => true
  end.

(** The first character of [s], if any, is in the class. *)
Definition head_in (c : ascii → bool) (s : string) : bool :=
  match s with
  | String x _ => c x
  | "" => false
  end.

Definition cap (hi : option nat) (k : nat) : nat :=
  match hi with
  | Some h => k `min` h
  | None => k
  end.

(** Greedy choice with backtracking: the longest repetition first, then
    one character less, down to the minimum. *)
Fixpoint backtrack {A} (try : nat → option A) (lo k : nat) : option A :=
  if k <? lo then None
  else match try k with
       | Some r => Some r
       | None =>
           match k with
           | 0 => None
           | S k' => backtrack try lo k'
           end
       end.

(** [^ a1 a2 ... an $] against [s]: the text each atom matched. *)
Fixpoint exec (r : list atom) (s : string) : option (list string) :=
  match r with
  | [] => if String.eqb s "" then Some [] else None
  | a :: r' =>
      backtrack (λ n, cons (take n s) <$> exec r' (drop n s))
                (lo a) (cap (hi a) (run (cls a) s))
  end.

End Regex.

(** ** lib/checksums.ts: the manifest parser *)

Module Checksums.
Import Js.

(** [/^([a-f0-9]{64})\s+\*?(.+)$/] *)
Definition linePattern : list Regex.atom :=
  [Regex.exactly 64 Regex.hex; Regex.plus Regex.space;
   Regex.opt Regex.star; Regex.plus Regex.dot].

(** [line.match(...)], as the pair [(match[1], match[2])]. *)
Definition matchLine (line : string) : option (string * string) :=
  match Regex.exec linePattern line with
  | Some [hash; _; _; filename] => Some (hash, filename)
  | _ => None
  end.

(** A digest as the manifest carries it: 64 lowercase hexadecimal digits. *)
Definition isDigest (d : string) : bool :=
  (String.length d =? 64) && Regex.all Regex.hex d.

(** A file name that a manifest line gives back unchanged: not empty, no
    line terminator inside, no white space and no [*] in front. *)
Definition readableName (f : string) : bool :=
  negb (String.eqb f "") && Regex.all Regex.dot f
  && negb (Regex.head_in Regex.space f) && negb (Regex.head_in Regex.star f).

(** A readable name that is not the one property name an object refuses. *)
Definition plainName (f : string) : bool :=
  readableName f && negb (String.eqb f "__proto__").

(** [checksums[k] = v] on a plain object: an assignment of a string to
    [__proto__] reaches the prototype setter, which ignores it. *)
Definition setProperty (k v : string) (o : gmap string string)
    : gmap string string :=
  if String.eqb k "__proto__" then o else <[k:=v]> o.

(** [parseChecksums(content)], lines 18-30. *)
Definition parseChecksums (content : string) : gmap string string :=
  for_of (split "010" content) (λ line checksums,
    match matchLine line with
    | Some (hash, filename) => setProperty filename hash checksums
    | None => checksums
    end) ∅.

End Checksums.

(** ** scripts/repair-checksums.ts: manifest repair *)

Module Repair.
Import Js.

Definition PLATFORMS : list string :=
  ["linux-x64"; "linux-arm64"; "darwin-x64"; "darwin-arm64"; "win32-x64"].

Record GitHubAsset : Type := mkAsset {
  name : string;
  browser_download_url : string;
  size : N
}.

Record GitHubRelease : Type := mkRelease {
  tag_name : string;
  published_at : string;
  assets : list GitHubAsset
}.

(** What the script reads from the network: the text of a release's
    [checksums.txt] ([None] when the response is not ok) and the SHA-256
    of the bytes behind a download URL (or the error of the transfer). *)
Record Remote : Type := mkRemote {
  manifestText : string → option string;
  remoteSha256 : string → outcome string
}.

(** [extractPlatform(filename)], lines 76-83. *)
Definition extractPlatform (filename : string) : option string :=
  find (λ platform, includes filename platform) PLATFORMS.

(** [fetchChecksums(tag)], lines 86-107. *)
Definition fetchChecksums (remote : Remote) (tag : string)
    : gmap string string :=
  match manifestText remote tag with
  | None => ∅
  | Some content =>
      for_of (split "010" content) (λ line checksums,
        match Checksums.matchLine line with
        | Some (hash, filename) => <[filename:=hash]> checksums
        | None => checksums
        end) ∅
  end.

(** [computeRemoteSha256(url)], lines 110-135. *)
Definition computeRemoteSha256 (remote : Remote) (url : string)
    : outcome string :=
  remoteSha256 remote url.

(** [[...checksums.keys()].sort()]: the default sort compares code units. *)
Definition sortedKeys (checksums : gmap string string) : list string :=
  merge_sort String.le (map fst (map_to_list checksums)).

(** The [lines] array built by [uploadChecksums], lines 175-179. *)
Definition manifestLines (checksums : gmap string string) : list string :=
  for_of (sortedKeys checksums) (λ filename lines,
    lines ++ [render (checksums !! filename) +:+ "  " +:+ filename]) [].

(** The [content] written by [uploadChecksums], line 180. *)
Definition manifestContent (checksums : gmap string string) : string :=
  join (String "010" "") (manifestLines checksums) +:+ String "010" "".

(** The entry of a file name, and the line of an entry. *)
Definition entryOf (m : gmap string string) (f : string) : string * string :=
  (f, render (m !! f)).
Definition lineOf (e : string * string) : string := e.2 +:+ "  " +:+ e.1.

(** The manifest text as the specification words it: one line per entry,
    digest, two spaces, file name, each line closed by a line feed. *)
Definition spec_manifestText (es : list (string * string)) : string :=
  foldr (λ '(filename, digest) rest,
           digest +:+ "  " +:+ filename +:+ String "010" "" +:+ rest) "" es.

(** The binary assets of a release, lines 244-246. *)
Definition binaryAssets (release : GitHubRelease) : list GitHubAsset :=
  filter (λ a, Is_true (negb (String.eqb (name a) "checksums.txt")
                        && bool_decide (is_Some (extractPlatform (name a)))))
         (assets release).

(** The assets without a checksum, line 256. *)
Definition missingAssets (existingChecksums : gmap string string)
    (release : GitHubRelease) : list GitHubAsset :=
  filter (λ a, Is_true (negb (bool_decide (is_Some (existingChecksums !! name a)))))
         (binaryAssets release).

(** Lines 272-283: the digests of the missing assets are added; an asset
    whose transfer fails is logged and left out. *)
Definition computeMissing (remote : Remote) (missing : list GitHubAsset)
    (existingChecksums : gmap string string) : gmap string string :=
  for_of missing (λ asset updatedChecksums,
    match computeRemoteSha256 remote (browser_download_url asset) with
    | Returns sha256 => <[name asset:=sha256]> updatedChecksums
    | Throws _ => updatedChecksums
    end) existingChecksums.

(** One iteration of the loop of [main], lines 240-289: the mapping
    handed to [uploadChecksums], or [None] when the iteration ends in one
    of its [continue]s. *)
Definition repairRelease (remote : Remote) (dryRun : bool)
    (release : GitHubRelease) : option (gmap string string) :=
  let tag := tag_name release in
  if bool_decide (binaryAssets release = []) then None
  else
    let existingChecksums := fetchChecksums remote tag in
    let missing := missingAssets existingChecksums release in
    if bool_decide (missing = []) then None
    else if dryRun then None
    else Some (computeMissing remote missing existingChecksums).

(** The manifest text published for a release, if any. *)
Definition published (remote : Remote) (dryRun : bool)
    (release : GitHubRelease) : option string :=
  manifestContent <$> repairRelease remote dryRun release.

(** The remote after [uploadChecksums(tag, checksums)]. *)
Definition upload (remote : Remote) (tag content : string) : Remote :=
  mkRemote (λ t, if String.eqb t tag then Some content else manifestText remote t)
           (remoteSha256 remote).

(** The loop of [main] over the releases, with the uploads it made. *)
Definition main (remote : Remote) (dryRun : bool) (releaseTag : option string)
    (releases : list GitHubRelease) : Remote * list (string * string) :=
  let releases :=
    match releaseTag with
    | Some t => if truthy t
                then filter (λ r, tag_name r = t) releases
                else releases
    | None => releases
    end in
  for_of releases (λ release '(remote, uploads),
    match published remote dryRun release with
    | Some content =>
        (upload remote (tag_name release) content,
         uploads ++ [(tag_name release, content)])
    | None => (remote, uploads)
    end) (remote, []).

(** Scenario C. *)
Definition digestA : string :=
  "a3f5c1d2e4b6978800112233445566778899aabbccddeeff0123456789abcdef".
Definition digestB : string :=
  "0f1e2d3c4b5a69788796a5b4c3d2e1f00112233445566778899aabbccddeeff0".
Definition scenarioC_release : GitHubRelease :=
  mkRelease "server-1.0.0" "2026-01-15T00:00:00Z"
    [mkAsset "server-linux-x64.tar.gz" "https://example.org/linux" 10;
     mkAsset "server-win32-x64.zip" "https://example.org/win" 20;
     mkAsset "checksums.txt" "https://example.org/sums" 1].
Definition scenarioC_remote : Remote :=
  mkRemote (λ _, Some (digestA +:+ "  server-linux-x64.tar.gz" +:+ String "010" ""))
           (λ url, if String.eqb url "https://example.org/win"
                   then Returns digestB else Throws "unreachable").


(** A release whose only binary is already listed in the manifest. *)
Definition complete_release : GitHubRelease :=
  mkRelease "server-1.0.0" "2026-01-15T00:00:00Z"
    [mkAsset "server-linux-x64.tar.gz" "https://example.org/linux" 10;
     mkAsset "checksums.txt" "https://example.org/sums" 1].

(** The same release when the transfer of every asset fails. *)
Definition offline_remote : Remote :=
  mkRemote (manifestText scenarioC_remote) (λ _, Throws "fetch failed").

End Repair.

(** ** The manifest on UTF-16 code units

    The parser of [lib/checksums.ts] and the writer of
    [repair-checksums.ts] once more, on strings as JavaScript has them:
    sequences of 16-bit code units.  The line pattern carries no flag, so
    it works on code units, [.] stops at each of the four line terminators
    and [\s] is the white space of ECMAScript. *)

Module Utf16.
Import Js.

(** A JavaScript string: its code units, numbers below 65536.  Nothing
    below depends on the bound. *)
Definition text : Type := list N.

(** The code units of a string of code units below 256. *)
Definition ofString (s : string) : text :=
  N_of_ascii <$> String.list_ascii_of_string s.

(** ['\n'] *)
Definition lineFeed : N := 0x0A.

(** LineTerminator: line feed, carriage return, line separator and
    paragraph separator. *)
Definition lineTerminator (c : N) : bool :=
  (c =? 0x0A)%N || (c =? 0x0D)%N || (c =? 0x2028)%N || (c =? 0x2029)%N.

Definition in_range (a b c : N) : bool := (a <=? c)%N && (c <=? b)%N.

(** [[a-f0-9]] *)
Definition hex (c : N) : bool := in_range 0x61 0x66 c || in_range 0x30 0x39 c.

(** [\s]: tab, vertical tab, form feed, space, no-break space, the byte
    order mark, the space separators of Unicode and the line terminators. *)
Definition space (c : N) : bool :=
  (c =? 0x09)%N || (c =? 0x0B)%N || (c =? 0x0C)%N || (c =? 0x20)%N
  || (c =? 0xA0)%N || (c =? 0x1680)%N || in_range 0x2000 0x200A c
  || (c =? 0x202F)%N || (c =? 0x205F)%N || (c =? 0x3000)%N
  || (c =? 0xFEFF)%N || lineTerminator c.

(** [\*] *)
Definition star (c : N) : bool := (c =? 0x2A)%N.

(** [.] without the [s] flag: any code unit but a line terminator. *)
Definition dot (c : N) : bool := negb (lineTerminator c).

(** One character class under a greedy quantifier, as in [Regex]. *)
Record atom : Type := mkAtom {
  cls : N → bool;
  lo : nat;
  hi : option nat
}.

Definition exactly (n : nat) (c : N → bool) : atom := mkAtom c n (Some n).
Definition plus (c : N → bool) : atom := mkAtom c 1 None.
Definition opt (c : N → bool) : atom := mkAtom c 0 (Some 1).

(** Length of the longest prefix of [s] inside the class. *)
Fixpoint run (c : N → bool) (s : text) : nat :=
  match s with
  | x :: s' => if c x then S (run c s') else 0
  | [] => 0
  end.

(** The first code unit of [s], if any, is in the class. *)
Definition head_in (c : N → bool) (s : text) : bool :=
  match s with
  | x :: _ => c x
  | [] => false
  end.

(** [^ a1 a2 ... $] on [s], with the text captured by every atom. *)
Fixpoint exec (r : list atom) (s : text) : option (list text) :=
  match r with
  | [] => if bool_decide (s = []) then Some [] else None
  | a :: r' =>
      Regex.backtrack (λ n, cons (take n s) <$> exec r' (drop n s))
                      (lo a) (Regex.cap (hi a) (run (cls a) s))
  end.

(** [/^([a-f0-9]{64})\s+\*?(.+)$/] *)
Definition linePattern : list atom :=
  [exactly 64 hex; plus space; opt star; plus dot].

(** [line.match(...)], as the pair [(match[1], match[2])]. *)
Definition matchLine (line : text) : option (text * text) :=
  match exec linePattern line with
  | Some [hash; _; _; filename] => Some (hash, filename)
  | _ => None
  end.

(** [s.split(sep)] for a separator of one code unit. *)
Fixpoint split (sep : N) (s : text) : list text :=
  match s with
  | [] => [[]]
  | c :: s' =>
      if (c =? sep)%N then [] :: split sep s'
      else match split sep s' with
           | w :: ws => (c :: w) :: ws
           | [] => [[c]]
           end
  end.

(** [lines.join(sep)] *)
Fixpoint joinWith (sep : text) (lines : list text) : text :=
  match lines with
  | [] => []
  | [l] => l
  | l :: ls => l ++ sep ++ joinWith sep ls
  end.

(** [checksums[k] = v] on a plain object: an assignment of a string to
    [__proto__] reaches the prototype setter, which ignores it. *)
Definition setProperty (k v : text) (o : gmap text text) : gmap text text :=
  if bool_decide (k = ofString "__proto__") then o else <[k:=v]> o.

(** [parseChecksums(content)], [lib/checksums.ts] lines 18-30. *)
Definition parseChecksums (content : text) : gmap text text :=
  for_of (split lineFeed content) (λ line checksums,
    match matchLine line with
    | Some (hash, filename) => setProperty filename hash checksums
    | None => checksums
    end) ∅.

(** The order of the default [sort()]: code unit by code unit, a prefix
    before its extensions. *)
Fixpoint before (a b : text) : bool :=
  match a, b with
  | [], _ => true
  | _ :: _, [] => false
  | x :: a', y :: b' =>
      if (x <? y)%N then true else if (y <? x)%N then false else before a' b'
  end.

(** [[...checksums.keys()].sort()] *)
Definition sortedKeys (checksums : gmap text text) : list text :=
  merge_sort (λ a b, Is_true (before a b)) (map fst (map_to_list checksums)).

(** A value inside a template literal. *)
Definition render (v : option text) : text :=
  default (ofString "undefined") v.

(** The [lines] array built by [uploadChecksums], lines 175-179. *)
Definition manifestLines (checksums : gmap text text) : list text :=
  for_of (sortedKeys checksums) (λ filename lines,
    lines ++ [render (checksums !! filename) ++ ofString "  " ++ filename]) [].

(** The [content] written by [uploadChecksums], line 180. *)
Definition manifestContent (checksums : gmap text text) : text :=
  joinWith [lineFeed] (manifestLines checksums) ++ [lineFeed].

(** The entry of a file name, and the line of an entry. *)
Definition entryOf (m : gmap text text) (f : text) : text * text :=
  (f, render (m !! f)).
Definition lineOf (e : text * text) : text := e.2 ++ ofString "  " ++ e.1.

(** The manifest text as the specification words it: one line per entry,
    digest, two spaces, file name, each line closed by a line feed. *)
Definition spec_manifestText (es : list (text * text)) : text :=
  foldr (λ '(filename, digest) rest,
           digest ++ ofString "  " ++ filename ++ [lineFeed] ++ rest) [] es.

(** A digest as the manifest carries it: 64 lowercase hexadecimal digits. *)
Definition isDigest (d : text) : bool := (length d =? 64) && forallb hex d.

(** A file name that a manifest line gives back unchanged: not empty, no
    line terminator inside, no white space and no [*] in front. *)
Definition readableName (f : text) : bool :=
  negb (bool_decide (f = [])) && forallb dot f
  && negb (head_in space f) && negb (head_in star f).

(** A readable name that is not the one property name an object refuses. *)
Definition plainName (f : text) : bool :=
  readableName f && negb (bool_decide (f = ofString "__proto__")).

(** An atom on code units that is the atom [a] of [Regex] on code units
    below 256. *)
Definition widens (w : atom) (a : Regex.atom) : Prop :=
  (∀ c, cls w (N_of_ascii c) = Regex.cls a c)
  ∧ lo w = Regex.lo a ∧ hi w = Regex.hi a.

(** A digest, and mappings whose one file name starts with [*], or holds
    a line separator between two letters. *)
Definition digestA : text := ofString Repair.digestA.

Definition plain_manifest : gmap text text :=
  {[ ofString "server-linux-x64.tar.gz" := digestA ]}.

Definition starred_manifest : gmap text text :=
  {[ ofString "*notes.txt" := digestA ]}.

Definition separated_manifest : gmap text text :=
  {[ ofString "a" ++ [0x2028%N] ++ ofString "b" := digestA ]}.

End Utf16.

(** ** packages/core/src/platform.ts: platform detection *)

Module Platform.
Import Js.

(** [detectPlatform()], on the [platform] and [arch] of [process]. *)
Definition detectPlatform (platform arch : string) : outcome string :=
  if String.eqb platform "linux" && String.eqb arch "x64" then Returns "linux-x64"
  else if String.eqb platform "linux" && String.eqb arch "arm64" then Returns "linux-arm64"
  else if String.eqb platform "darwin" && String.eqb arch "arm64" then Returns "darwin-arm64"
  else if String.eqb platform "win32" && String.eqb arch "x64" then Returns "win32-x64"
  else Throws ("Unsupported platform: " +:+ platform +:+ "-" +:+ arch +:+ ". " +:+
               "Supported platforms: linux-x64, linux-arm64, darwin-arm64, win32-x64").

Definition SUPPORTED_PLATFORMS : list string :=
  ["linux-x64"; "linux-arm64"; "darwin-arm64"; "win32-x64"].

(** The host tuples behind [SUPPORTED_PLATFORMS]. *)
Definition supportedHosts : list (string * string) :=
  [("linux", "x64"); ("linux", "arm64"); ("darwin", "arm64"); ("win32", "x64")].

End Platform.

(** ** packages/core/src/download.ts: the download pipeline *)

Module Download.
Import Js.

Inductive Algorithm : Type := sha256 | sha512 | md5.

Definition algorithmName (a : Algorithm) : string :=
  match a with
  | sha256 => "sha256"
  | sha512 => "sha512"
  | md5 => "md5"
  end.

Record DownloadOptions : Type := mkOptions {
  url : string;
  destination : string;
  expectedChecksum : option string;
  checksumAlgorithm : option Algorithm;
  onProgress : bool
}.

Record DownloadResult : Type := mkResult {
  path : string;
  size : nat;
  checksum : string
}.

(** A response body: the chunks [reader.read()] delivers and, after
    them, either the end of the stream or a transport error. *)
Record Body : Type := mkBody {
  chunks : list string;
  failure : option string
}.

Record Response : Type := mkResponse {
  ok : bool;
  status : nat;
  statusText : string;
  contentLength : option nat;
  body : option Body
}.

(** The outside world of one call: what [fetch] answers, the hexadecimal
    digest [node:crypto] computes, and how the file system behaves.
    - [streamError] is the error the write stream emits while the call
      waits for [finish], lines 72-75.  During the loop the stream has no
      listener for [error]: an error emitted then is not caught by the
      call, and such runs are outside this model.
    - [opened] says whether the open of the destination, which
      [createWriteStream] starts and does not wait for, is done before the
      first chunk is written.  Otherwise the stream keeps the chunks and
      the open is done when the call waits for [finish], or after the call
      has failed.
    - [unlinkError] is the error [unlink] rejects with, if any. *)
Record Env : Type := mkEnv {
  fetch : string → outcome Response;
  digestHex : Algorithm → string → string;
  streamError : option string;
  opened : bool;
  unlinkError : option string
}.

(** The state the call changes: the files, by path, and the calls of the
    progress callback. *)
Record World : Type := mkWorld {
  files : gmap string string;
  progress : list (nat * nat)
}.

(** State and exceptions. *)
Definition M (A : Type) : Type := World → outcome A * World.

Definition ret {A} (a : A) : M A := λ w, (Returns a, w).
Definition throw {A} (e : string) : M A := λ w, (Throws e, w).
Definition bind {A B} (m : M A) (k : A → M B) : M B :=
  λ w, match m w with
       | (Returns a, w') => k a w'
       | (Throws e, w') => (Throws e, w')
       end.
Definition try_catch {A} (m : M A) (handler : string → M A) : M A :=
  λ w, match m w with
       | (Returns a, w') => (Returns a, w')
       | (Throws e, w') => handler e w'
       end.
Definition lift {A} (o : outcome A) : M A := λ w, (o, w).

Notation "'let!' x ':=' m 'in' k" := (bind m (λ x, k))
  (at level 10, x name, m at level 100, k at level 200).
Notation "m ';;' k" := (bind m (λ _, k))
  (at level 100, k at level 200, right associativity).

(** [mkdir(dirname(destination), { recursive: true })]: directories are
    not part of the state. *)
Definition mkdir (path : string) : M unit := ret tt.

(** [fileStream.destroy()]: the chunks the stream still keeps are
    dropped; an open in flight is left to land, see [landOpen]. *)
Definition destroy : M unit := ret tt.

(** [createWriteStream(path)]: once the open (flags [w]) is done the file
    exists and is empty. *)
Definition createWriteStream (env : Env) (path : string) : M unit :=
  λ w, (Returns tt,
        if opened env then mkWorld (<[path:=""]> (files w)) (progress w)
        else w).

(** [fileStream.write(value)]: appended to the file when it is open, kept
    by the stream otherwise. *)
Definition write (env : Env) (path value : string) : M unit :=
  λ w, (Returns tt,
        if opened env
        then mkWorld (<[path:=default "" (files w !! path) +:+ value]> (files w))
                     (progress w)
        else w).

(** The files once [unlink(path)] has settled. *)
Definition afterUnlink (env : Env) (path : string) (fs : gmap string string)
    : gmap string string :=
  match unlinkError env with
  | Some _ => fs
  | None => delete path fs
  end.

(** [await unlink(path).catch(() => {})]: a rejection is swallowed. *)
Definition unlink (env : Env) (path : string) : M unit :=
  λ w, (Returns tt, mkWorld (afterUnlink env path (files w)) (progress w)).

(** The open that is still in flight when a read error ends the loop.
    It lands after the [unlink] of the handler: node completes it and
    closes the descriptor, which leaves the file there, empty. *)
Definition landOpen (env : Env) (readFailed : bool) (path : string) : M unit :=
  λ w, (Returns tt,
        if negb (opened env) && readFailed
        then mkWorld (<[path:=""]> (files w)) (progress w)
        else w).

(** [onProgress?.(downloaded, total)] *)
Definition report (given : bool) (downloaded total : nat) : M unit :=
  λ w, (Returns tt,
        if given then mkWorld (files w) (progress w ++ [(downloaded, total)])
        else w).

(** The [while (true)] loop, lines 60-68: the bytes hashed so far and
    their number are the loop state. *)
Fixpoint readAll (env : Env) (options : DownloadOptions) (total : nat)
    (pending : list string) (failure : option string)
    (hashed : string) (downloaded : nat) : M (string * nat) :=
  match pending with
  | [] =>
      match failure with
      | Some error => throw error
      | None => ret (hashed, downloaded)
      end
  | value :: pending' =>
      let hashed := hashed +:+ value in
      write env (destination options) value ;;
      let downloaded := downloaded + String.length value in
      report (onProgress options) downloaded total ;;
      readAll env options total pending' failure hashed downloaded
  end.

(** [fileStream.end()] and the wait for [finish] or [error], lines 70-75.
    An open that was not done yet is done now, and the chunks kept are
    written unless the stream fails. *)
Definition finish (env : Env) (path written : string) : M unit :=
  λ w,
    let landed :=
      if opened env then w
      else mkWorld (<[path:=match streamError env with
                            | Some _ => ""
                            | None => written
                            end]> (files w)) (progress w) in
    match streamError env with
    | Some error => (Throws error, landed)
    | None => (Returns tt, landed)
    end.

(** The digest the expected checksum is compared on, lines 85-87. *)
Definition expectedOf (expectedChecksum : string) : string :=
  if includes expectedChecksum ":"
  then render (split ":" expectedChecksum !! 1)
  else expectedChecksum.

(** [downloadFile(options)], lines 22-103. *)
Definition downloadFile (env : Env) (options : DownloadOptions)
    : M DownloadResult :=
  let url := url options in
  let destination := destination options in
  let expectedChecksum := expectedChecksum options in
  let checksumAlgorithm := default sha256 (checksumAlgorithm options) in
  mkdir destination ;;
  let! response := lift (fetch env url) in
  if negb (ok response) then
    throw ("Failed to download " +:+ url +:+ ": " +:+ show (status response)
           +:+ " " +:+ statusText response)
  else
    match body response with
    | None => throw ("No response body received from " +:+ url)
    | Some body =>
        let total := default 0 (contentLength response) in
        createWriteStream env destination ;;
        let! read :=
          try_catch
            (let! read :=
               readAll env options total (chunks body) (failure body) "" 0 in
             finish env destination read.1 ;;
             ret read)
            (λ error,
               destroy ;;
               unlink env destination ;;
               landOpen env (bool_decide (is_Some (failure body))) destination ;;
               throw error) in
        let actualChecksum := digestHex env checksumAlgorithm read.1 in
        match defined expectedChecksum with
        | Some expectedChecksum =>
            let expected := expectedOf expectedChecksum in
            if negb (String.eqb actualChecksum expected) then
              unlink env destination ;;
              throw ("Checksum mismatch for " +:+ url +:+ ". " +:+
                     "Expected: " +:+ expected +:+ ", got: " +:+ actualChecksum)
            else
              ret (mkResult destination read.2
                     (algorithmName checksumAlgorithm +:+ ":" +:+ actualChecksum))
        | None =>
            ret (mkResult destination read.2
                   (algorithmName checksumAlgorithm +:+ ":" +:+ actualChecksum))
        end
    end.

(** An expected checksum in one of its two forms, with the digest it
    carries: the bare digest, or an algorithm name, a colon and the
    digest. *)
Definition noColon (s : string) : bool :=
  Regex.all (λ c, negb (Ascii.eqb c ":")) s.

Inductive carries : string → string → Prop :=
| carries_bare hex :
    hex ≠ "" → noColon hex = true → carries hex hex
| carries_prefixed algorithm hex :
    noColon algorithm = true → noColon hex = true →
    carries (algorithm +:+ ":" +:+ hex) hex.

(** The bytes of a body, [hash.update] after [hash.update]. *)
Definition bytesOf (b : Body) : string := foldr String.append "" (chunks b).

Definition withExpected (options : DownloadOptions) (expected : string)
    : DownloadOptions :=
  mkOptions (url options) (destination options) (Some expected)
            (checksumAlgorithm options) (onProgress options).

(** A stand-in for the digests of two byte strings, for the examples. *)
Definition exampleDigest (a : Algorithm) (data : string) : string :=
  match a with
  | sha256 =>
      if String.eqb data "archive bytes"
      then "a3f5c1d2e4b6978800112233445566778899aabbccddeeff0123456789abcdef"
      else "0f1e2d3c4b5a69788796a5b4c3d2e1f00112233445566778899aabbccddeeff0"
  | _ => "d41d8cd98f00b204e9800998ecf8427e"
  end.

Definition exampleOptions (expected : option string) : DownloadOptions :=
  mkOptions "https://example.org/db.tar.gz" "/cache/db/1.0/linux-x64.tar.gz"
            expected None true.

(** A server that delivers the archive in two chunks. *)
Definition goodEnv : Env :=
  mkEnv (λ _, Returns (mkResponse true 200 "OK" (Some 13)
                         (Some (mkBody ["archive"; " bytes"] None))))
        exampleDigest None true None.

(** A connection that breaks after the first chunk. *)
Definition brokenEnv : Env :=
  mkEnv (λ _, Returns (mkResponse true 200 "OK" (Some 13)
                         (Some (mkBody ["archive"] (Some "ECONNRESET")))))
        exampleDigest None true None.

(** The server of [goodEnv] on a file system that refuses to remove the
    destination. *)
Definition stuckEnv : Env :=
  mkEnv (fetch goodEnv) exampleDigest None true (Some "EPERM").

(** The connection of [brokenEnv] breaking before the destination is
    open. *)
Definition earlyBreakEnv : Env :=
  mkEnv (fetch brokenEnv) exampleDigest None false None.

Definition emptyWorld : World := mkWorld ∅ [].

End Download.

(** ** node:path on a POSIX host *)

Module Path.
Import Js.

(** One round of [normalizeString]: a component of the path against the
    components kept so far, the last one first.  An empty component and
    [.] are skipped; [..] removes the component before it, unless there is
    none or it is [..] itself, in which case it is kept in a relative path
    and dropped in an absolute one. *)
Definition step (allowAboveRoot : bool) (kept : list string)
    (component : string) : list string :=
  if String.eqb component "" || String.eqb component "." then kept
  else if String.eqb component ".." then
    match kept with
    | last :: before =>
        if String.eqb last ".."
        then (if allowAboveRoot then ".." :: kept else kept)
        else before
    | [] => if allowAboveRoot then [".."] else []
    end
  else component :: kept.

Definition normalizeString (path : string) (allowAboveRoot : bool) : string :=
  Js.join "/" (rev (fold_left (step allowAboveRoot) (split "/" path) [])).

(** [path.normalize(path)] *)
Definition normalize (path : string) : string :=
  if String.eqb path "" then "."
  else
    let isAbsolute := String.prefix "/" path in
    let trailingSeparator := bool_decide (last (split "/" path) = Some "") in
    let path := normalizeString path (negb isAbsolute) in
    if String.eqb path "" then
      if isAbsolute then "/" else if trailingSeparator then "./" else "."
    else
      let path := if trailingSeparator then path +:+ "/" else path in
      if isAbsolute then "/" +:+ path else path.

(** [path.join(...args)] *)
Definition join (args : list string) : string :=
  match filter (λ arg, arg ≠ "") args with
  | [] => "."
  | parts => normalize (Js.join "/" parts)
  end.

Definition noSeparator (s : string) : bool :=
  Regex.all (λ c, negb (Ascii.eqb c "/")) s.

(** A plain name: not empty, not [.] or [..], without separator. *)
Definition plainSegment (s : string) : bool :=
  negb (String.eqb s "") && negb (String.eqb s ".")
  && negb (String.eqb s "..") && noSeparator s.

(** A normalised absolute path other than the root: [/] and one or more
    plain names with [/] between them. *)
Definition normalAbsolute (path : string) : bool :=
  match split "/" path with
  | "" :: component :: components =>
      forallb plainSegment (component :: components)
  | _ => false
  end.

End Path.

(** ** packages/core/src/cache.ts: the archive cache *)

Module Cache.
Import Js.

(** The part of [process] the cache reads. *)
Record Process : Type := mkProcess {
  HOST_DB_CACHE_DIR : option string;
  XDG_CACHE_HOME : option string;
  LOCALAPPDATA : option string;
  platform : string;
  homedir : string
}.

(** [join(...segments)] of [node:path] where it amounts to putting [/]
    between the segments: on a host other than [win32], for a first
    segment that is a normalised absolute path and further segments that
    are plain names, see [Path.join] and [Path.plainSegment].  The theorems
    on how a path is spelled carry these conditions. *)
Definition pathJoin (segments : list string) : string := join "/" segments.

(** [getCacheDir(options)] *)
Definition getCacheDir (process : Process) (cacheDir : option string) : string :=
  match defined cacheDir with
  | Some dir => dir
  | None =>
      match defined (HOST_DB_CACHE_DIR process) with
      | Some dir => dir
      | None =>
          match (if negb (String.eqb (platform process) "win32")
                 then defined (XDG_CACHE_HOME process) else None) with
          | Some xdg => pathJoin [xdg; "host-db"]
          | None =>
              if String.eqb (platform process) "win32" then
                pathJoin [match defined (LOCALAPPDATA process) with
                          | Some dir => dir
                          | None => pathJoin [homedir process; "AppData"; "Local"]
                          end; "host-db"; "cache"]
              else pathJoin [homedir process; ".cache"; "host-db"]
          end
      end
  end.

(** [getArchiveCachePath(options)] *)
Definition getArchiveCachePath (process : Process)
    (database version platform : string) (cacheDir : option string) : string :=
  let cache := getCacheDir process cacheDir in
  pathJoin [cache; database; version; platform +:+ ".tar.gz"].

(** [getCachedArchive(options)]: the path when [access] succeeds. *)
Definition getCachedArchive (process : Process) (files : gmap string string)
    (database version platform : string) (cacheDir : option string)
    : option string :=
  let archivePath := getArchiveCachePath process database version platform cacheDir in
  if bool_decide (is_Some (files !! archivePath)) then Some archivePath else None.

(** [existsSync(path)] *)
Definition existsSync (files : gmap string string) (path : string) : bool :=
  bool_decide (is_Some (files !! path)).

End Cache.

(** ** The generated install.js: finding or downloading the archive *)

Module Install.
Import Js Cache.

(** The [CONFIG] of a generated installer. *)
Record Config : Type := mkConfig {
  database : string;
  version : string;
  configPlatform : string;
  downloadUrl : string;
  checksum : string
}.

(** [CONFIG.downloadUrl.endsWith('.zip') ? '.zip' : '.tar.gz'] *)
Definition archiveExt (CONFIG : Config) : string :=
  if endsWith (downloadUrl CONFIG) ".zip" then ".zip" else ".tar.gz".

(** [archivePath.replace(/\.(tar\.gz|zip)$/, archiveExt)] *)
Definition replaceSuffix (archivePath ext : string) : string :=
  match strip_suffix ".tar.gz" archivePath with
  | Some stem => stem +:+ ext
  | None =>
      match strip_suffix ".zip" archivePath with
      | Some stem => stem +:+ ext
      | None => archivePath
      end
  end.

(** What the installer does about the archive: take the cached file, or
    download to a destination with an expected checksum. *)
Inductive Acquire : Type :=
| UseCached (archivePath : string)
| Fetch (destination : string) (expectedChecksum : option string).

(** Lines 79-94 of [main]: the conditionals that settle the archive. *)
Definition archiveChoice (process : Process) (files : gmap string string)
    (CONFIG : Config) : Acquire :=
  let archiveExt := archiveExt CONFIG in
  let archivePath :=
    getCachedArchive process files (database CONFIG) (version CONFIG)
                     (configPlatform CONFIG) None in
  let archivePath :=
    match defined archivePath with
    | Some p => if negb (endsWith p archiveExt)
                then Some (replaceSuffix p archiveExt) else Some p
    | None => archivePath
    end in
  match defined archivePath with
  | Some p =>
      if existsSync files p then UseCached p
      else
        let cacheDir := getCacheDir process None in
        Fetch (pathJoin [cacheDir; database CONFIG; version CONFIG;
                         configPlatform CONFIG +:+ archiveExt])
              (if negb (String.eqb (checksum CONFIG) "sha256:PLACEHOLDER")
               then Some (checksum CONFIG) else None)
  | None =>
      let cacheDir := getCacheDir process None in
      Fetch (pathJoin [cacheDir; database CONFIG; version CONFIG;
                       configPlatform CONFIG +:+ archiveExt])
            (if negb (String.eqb (checksum CONFIG) "sha256:PLACEHOLDER")
             then Some (checksum CONFIG) else None)
  end.

(** The archive the installer goes on to extract. *)
Definition archivePathOf (a : Acquire) : string :=
  match a with
  | UseCached p => p
  | Fetch p _ => p
  end.

(** Lines 79-110 of [main]: the archive is taken from the cache or
    downloaded; the result is the path handed to [extractArchive]. *)
Definition main (env : Download.Env) (process : Process) (CONFIG : Config)
    : Download.M string :=
  λ w,
    match archiveChoice process (Download.files w) CONFIG with
    | UseCached archivePath => Download.ret archivePath w
    | Fetch archivePath expectedChecksum =>
        Download.bind
          (Download.downloadFile env
             (Download.mkOptions (downloadUrl CONFIG) archivePath
                                 expectedChecksum None true))
          (λ _, Download.ret archivePath) w
    end.

(** The path the specification gives the cache entry. *)
Definition spec_canonicalPath (cacheRoot database version platform url : string)
    : string :=
  cacheRoot +:+ "/" +:+ database +:+ "/" +:+ version +:+ "/" +:+ platform
  +:+ "." +:+ (if endsWith url ".zip" then "zip" else "tar.gz").

(** The installer of a zip archive. *)
Definition zipInstaller : Config :=
  mkConfig "mariadb" "11.4.5" "win32-x64"
    "https://archive.mariadb.org/mariadb-11.4.5/winx64-packages/mariadb-11.4.5-winx64.zip"
    "sha256:PLACEHOLDER".

(** A host, an installer and a cache holding a damaged archive. *)
Definition exampleProcess : Process :=
  mkProcess (Some "/cache") None None "linux" "/home/user".
Definition exampleConfig : Config :=
  mkConfig "db" "1.0" "linux-x64" "https://example.org/db.tar.gz"
    "sha256:a3f5c1d2e4b6978800112233445566778899aabbccddeeff0123456789abcdef".
Definition damagedCache : gmap string string :=
  {[ "/cache/db/1.0/linux-x64.tar.gz" := "damaged" ]}.

End Install.

(** * The rest of the code *)

(** ** scripts/prep.ts: the other checks *)

Module PrepChecks.
Import Js Prep.

(** [s.startsWith(p)] *)
Definition startsWith (s p : string) : bool := String.prefix p s.




(** The two states agree: every enabled version and platform of an active
    database is released, and everything released is enabled. *)
Definition agree (desired : DatabasesJson) (actual : ReleasesJson) : Prop :=
  (∀ db entry,
     (db, entry) ∈ databases desired →
     spec_active entry →
     match spec_at (released_databases actual) db with
     | None => spec_enabled (versions entry) = []
     | Some released =>
         ∀ v, v ∈ spec_enabled (versions entry) →
           ∃ release,
             spec_at released v = Some release
             ∧ ∀ p, p ∈ spec_enabled (platforms entry) →
                 p ∈ (released_platforms release).*1
     end)
  ∧ (∀ db released,
       (db, released) ∈ released_databases actual →
       ∃ entry,
         spec_at (databases desired) db = Some entry
         ∧ ∀ v release,
             (v, release) ∈ released →
             spec_at (versions entry) v = Some true
             ∧ ∀ p, p ∈ (released_platforms release).*1 →
                 spec_at (platforms entry) p = Some true).

(** An entry of a [sources.json]. *)
Record SourceEntry : Type := mkSourceEntry {
  url : option string;
  sha256 : option string;
  sha3_256 : option string;
  sourceType : option string
}.

Record SourcesJson : Type := mkSourcesJson {
  source_versions : obj (obj SourceEntry)
}.

(** [findMissingChecksums()], lines 228-268.  [builds] is the listing of
    the [builds] directory with the state of each [sources.json], [None]
    when the directory does not exist; [getEnabledVersions] is the function
    imported from [lib/databases.js]. *)
Definition findMissingChecksums (getEnabledVersions : string → gset string)
    (builds : option (list (string * file SourcesJson)))
    : list (string * string * string) :=
  let missing : list (string * string * string) := [] in
  match builds with
  | None => missing
  | Some dirs =>
      for_of dirs (λ '(database, sourcesFile) missing,
        if negb (existsSync sourcesFile) then missing
        else
          let enabledVersions := getEnabledVersions database in
          match JSON_parse sourcesFile with
          | Throws _ => missing
          | Returns sources =>
              for_of (entries (source_versions sources)) (λ '(version, platforms) missing,
                if (0 <? stdpp.base.size enabledVersions)
                   && negb (bool_decide (version ∈ enabledVersions))
                then missing
                else
                  for_of (entries platforms) (λ '(platform, entry) missing,
                    let hasChecksum :=
                      match defined (sha256 entry) with
                      | Some s => Some s
                      | None => defined (sha3_256 entry)
                      end in
                    if bool_decide (is_Some (defined (url entry)))
                       && negb (bool_decide (is_Some hasChecksum))
                    then missing ++ [(database, version, platform)]
                    else missing) missing) missing
          end) missing
  end.

(** The test of lines 256-257: a URL and no checksum of either kind. *)
Definition reportable (entry : SourceEntry) : bool :=
  bool_decide (is_Some (defined (url entry)))
  && negb (bool_decide (is_Some (match defined (sha256 entry) with
                                 | Some s => Some s
                                 | None => defined (sha3_256 entry)
                                 end))).

End PrepChecks.

(** ** lib/checksums.ts: an example manifest *)

Module ManifestExamples.
Import Js.

(** A manifest with Windows line endings. *)
Definition crlfManifest : string :=
  Repair.digestA +:+ "  server-linux-x64.tar.gz" +:+ String "013" (String "010" "")
  +:+ Repair.digestB +:+ "  server-win32-x64.zip" +:+ String "013" (String "010" "").

End ManifestExamples.

(** ** scripts/repair-checksums.ts: listing the releases *)

Module RepairListing.
Import Js Repair.

(** One page of the release listing. *)
Record PageResponse : Type := mkPage {
  ok : bool;
  status : nat;
  releaseList : list GitHubRelease
}.

Definition perPage : nat := 100.

(** The [while (true)] loop of [fetchAllReleases], lines 143-167; [server]
    answers the request for a page.  The loop ends when the server says so,
    hence the fuel: [None] is a loop that was still running. *)
Fixpoint fetchPages (fuel : nat) (server : nat → PageResponse)
    (page : nat) (releases : list GitHubRelease)
    : option (outcome (list GitHubRelease)) :=
  match fuel with
  | 0 => None
  | S fuel' =>
      let response := server page in
      if negb (ok response) then
        Some (Throws ("Failed to fetch releases: " +:+ show (status response)))
      else
        let releaseList := releaseList response in
        if length releaseList =? 0 then Some (Returns releases)
        else
          let releases := releases ++ releaseList in
          if length releaseList <? perPage then Some (Returns releases)
          else fetchPages fuel' server (page + 1) releases
  end.

(** [fetchAllReleases()], lines 138-170. *)
Definition fetchAllReleases (fuel : nat) (server : nat → PageResponse)
    : option (outcome (list GitHubRelease)) :=
  fetchPages fuel server 1 [].

(** A server that holds [all] releases and serves them [per_page] at a
    time, pages counted from 1. *)
Definition serve (all : list GitHubRelease) (page : nat) : PageResponse :=
  mkPage true 200 (take perPage (drop (perPage * (page - 1)) all)).

End RepairListing.

(** ** packages/core/src/download.ts: more of the pipeline *)

Module DownloadMore.
Import Js Download.

(** The calls of the progress callback for the chunks of a body: the
    running count of bytes, each time with the announced total. *)
Fixpoint reports (total downloaded : nat) (pending : list string)
    : list (nat * nat) :=
  match pending with
  | [] => []
  | value :: pending' =>
      (downloaded + String.length value, total)
      :: reports total (downloaded + String.length value) pending'
  end.

(** A server that answers 404. *)
Definition notFoundEnv : Env :=
  mkEnv (λ _, Returns (mkResponse false 404 "Not Found" None None))
        exampleDigest None true None.

(** A world that already holds a file at the destination of the examples
    and another file. *)
Definition usedWorld : World :=
  mkWorld {[ "/cache/db/1.0/linux-x64.tar.gz" := "old bytes";
             "/cache/other.txt" := "kept" ]} [].

End DownloadMore.

(** ** packages/core/src/extract.ts: choosing the extractor *)

Module Extract.
Import Js.

Inductive ArchiveType : Type := tar_gz | zip | unknown.

(** [getArchiveType(filename)] *)
Definition getArchiveType (filename : string) : ArchiveType :=
  if endsWith filename ".tar.gz" || endsWith filename ".tgz" then tar_gz
  else if endsWith filename ".zip" then zip
  else unknown.

Record ExtractOptions : Type := mkExtract {
  archivePath : string;
  destination : string;
  stripComponents : option nat
}.

(** [extractArchive(options)]; the two extractors call [tar] and [unzip]
    and are arguments here. *)
Definition extractArchive {R} (extractTarGz extractZip : ExtractOptions → outcome R)
    (options : ExtractOptions) : outcome R :=
  let archiveType := getArchiveType (archivePath options) in
  match archiveType with
  | tar_gz => extractTarGz options
  | zip => extractZip options
  | unknown =>
      Throws ("Unknown archive type for " +:+ archivePath options +:+ ". " +:+
              "Supported formats: .tar.gz, .tgz, .zip")
  end.

End Extract.

(** ** The generated install.js of a source package *)

Module SourceInstall.
Import Js Cache Install.

(** Lines 215-239 of [main] in the installer of a package built from
    source: the archive is the cached one or is downloaded. *)
Definition archiveChoice (process : Process) (files : gmap string string)
    (CONFIG : Config) : Acquire :=
  let archivePath :=
    getCachedArchive process files (database CONFIG) (version CONFIG)
                     (configPlatform CONFIG) None in
  match defined archivePath with
  | None =>
      let cacheDir := getCacheDir process None in
      Fetch (pathJoin [cacheDir; database CONFIG; version CONFIG;
                       configPlatform CONFIG +:+ ".tar.gz"])
            (if negb (String.eqb (checksum CONFIG) "sha256:PLACEHOLDER")
             then Some (checksum CONFIG) else None)
  | Some p => UseCached p
  end.

(** An installer whose checksum was never filled in, and the installer of
    a zip archive. *)
Definition placeholderConfig : Config :=
  mkConfig "redis" "7.2.7" "linux-arm64"
    "https://download.redis.io/releases/redis-7.2.7.tar.gz" "sha256:PLACEHOLDER".
Definition zipConfig : Config :=
  mkConfig "mariadb" "11.4.5" "win32-x64"
    "https://archive.mariadb.org/mariadb-11.4.5/winx64-packages/mariadb-11.4.5-winx64.zip"
    "sha256:PLACEHOLDER".

End SourceInstall.

(** ** packages/core/src/platform.ts: what is known about the host *)

Module PlatformInfo.
Import Js Platform.

Record PlatformInfo : Type := mkInfo {
  platform : string;
  os : string;
  arch : string;
  isWindows : bool;
  executableExtension : string
}.

(** [getPlatformInfo()], on the [platform] and [arch] of [process]. *)
Definition getPlatformInfo (processPlatform processArch : string)
    : outcome PlatformInfo :=
  match detectPlatform processPlatform processArch with
  | Throws e => Throws e
  | Returns platform =>
      let isWindows := PrepChecks.startsWith platform "win32" in
      Returns (mkInfo platform processPlatform processArch isWindows
                      (if isWindows then ".exe" else ""))
  end.

(** [getPlatformPackageName(options)] *)
Definition getPlatformPackageName (processPlatform processArch : string)
    (scope database version : string) : outcome string :=
  match detectPlatform processPlatform processArch with
  | Throws e => Throws e
  | Returns platform =>
      Returns (scope +:+ "/" +:+ database +:+ "-" +:+ version +:+ "-"
               +:+ platform)
  end.

End PlatformInfo.

(** ** scripts/generate-packages.ts: the generated package descriptions *)

Module Generator.
Import Js.

Definition PLATFORMS : list string :=
  ["linux-x64"; "linux-arm64"; "darwin-arm64"; "win32-x64"].

Record OsCpu : Type := mkOsCpu { os : string; cpu : string }.

(** [getPlatformOsCpu(platform)]; a part the split does not give is
    [undefined]. *)
Definition getPlatformOsCpu (platform : string) : OsCpu :=
  let parts := split "-" platform in
  let os := parts !! 0%nat in
  let cpu := parts !! 1%nat in
  mkOsCpu (if bool_decide (os = Some "darwin") then "darwin"
           else if bool_decide (os = Some "win32") then "win32" else "linux")
          (if bool_decide (cpu = Some "x64") then "x64" else "arm64").

(** The members of a platform package's [package.json] that vary. *)
Record PlatformPackageJson : Type := mkPlatformPackage {
  name : string;
  description : string;
  packageOs : list string;
  packageCpu : list string
}.

(** [generatePlatformPackageJson(options)] *)
Definition generatePlatformPackageJson
    (database majorVersion fullVersion platform description : string)
    : PlatformPackageJson :=
  let '(mkOsCpu os cpu) := getPlatformOsCpu platform in
  let packageName :=
    "@host-db/" +:+ database +:+ "-" +:+ majorVersion +:+ "-" +:+ platform in
  mkPlatformPackage packageName description [os] [cpu].

(** The members of a version package's [package.json] that vary. *)
Record VersionPackageJson : Type := mkVersionPackage {
  versionName : string;
  versionDescription : string;
  optionalDependencies : gmap string string
}.

(** [generateVersionPackageJson(options)] *)
Definition generateVersionPackageJson
    (database majorVersion fullVersion displayName : string)
    : VersionPackageJson :=
  let packageName := "@host-db/" +:+ database +:+ "-" +:+ majorVersion in
  let optionalDependencies :=
    for_of PLATFORMS
      (λ platform (optionalDependencies : gmap string string),
         <["@host-db/" +:+ database +:+ "-" +:+ majorVersion +:+ "-"
           +:+ platform := "0.1.0"]> optionalDependencies)
      ∅ in
  mkVersionPackage packageName
    (displayName +:+ " " +:+ majorVersion +:+ " binaries for all platforms")
    optionalDependencies.

End Generator.

(** ** packages/redis-7.4/src/index.ts: the package of the host *)

Module Redis.
Import Js Platform.

Definition DATABASE_NAME : string := "redis".
Definition MAJOR_VERSION : string := "7.4".

Definition PLATFORM_PACKAGE_MAP : obj string :=
  [("linux-x64", "@host-db/redis-7.4-linux-x64");
   ("linux-arm64", "@host-db/redis-7.4-linux-arm64");
   ("darwin-arm64", "@host-db/redis-7.4-darwin-arm64");
   ("win32-x64", "@host-db/redis-7.4-win32-x64")].

(** Lines 40-42 of [getBinaryPaths]: the package to resolve. *)
Definition packageName (processPlatform processArch : string)
    : outcome (option string) :=
  match detectPlatform processPlatform processArch with
  | Throws e => Throws e
  | Returns platform => Returns (get PLATFORM_PACKAGE_MAP platform)
  end.

End Redis.

(** ** packages/core/src/cache.ts: clearing the cache *)

Module CacheClear.
Import Js Cache.

(** What the paths below a directory start with: the path of the
    directory and a separator, unless it ends in one already, as the root
    does. *)
Definition directoryPrefix (target : string) : string :=
  if bool_decide (last (split "/" target) = Some "") then target
  else target +:+ "/".

(** [path] is [target] or lies below it. *)
Definition below (target path : string) : bool :=
  String.eqb path target || PrepChecks.startsWith path (directoryPrefix target).


(** [existsSync(path)] for a file or a directory that holds one.  An
    empty directory is not represented; removing it changes no file. *)
Definition existsSync (files : gmap string string) (path : string) : bool :=
  bool_decide (map_Exists (λ file _, below path file = true) files).




End CacheClear.

(** ** The generated install.js: the workspace check *)

Module Workspace.
Import Js Cache.

(** The loop of [isWorkspaceContext] with [todo] rounds left; [join] and
    [dirname] are those of [node:path]. *)
Fixpoint search (join : string → string → string) (dirname : string → string)
    (existsSync : string → bool) (todo : nat) (dir : string) : bool :=
  match todo with
  | O => false
  | S todo =>
      if existsSync (join dir "pnpm-workspace.yaml") then true
      else
        let parent := dirname dir in
        if String.eqb parent dir then false
        else search join dirname existsSync todo parent
  end.

(** [isWorkspaceContext()], from the directory of the script. *)
Definition isWorkspaceContext (join : string → string → string)
    (dirname : string → string) (existsSync : string → bool)
    (__dirname : string) : bool :=
  search join dirname existsSync 10 __dirname.

(** [dirname] and [join] of [node:path] for absolute paths without a
    trailing separator. *)
Definition posixDirname (path : string) : string :=
  let parent := Js.join "/" (removelast (split "/" path)) in
  if String.eqb parent "" then "/" else parent.
Definition posixJoin (dir file : string) : string :=
  if String.eqb dir "/" then "/" +:+ file else pathJoin [dir; file].

End Workspace.

(** * Properties *)

(** ** Loops and property lists *)

Section JsFacts.
Import Js.

Lemma for_of_map {A B S} (h : A → B) (xs : list A) (body : B → S → S) (s : S) :
  for_of (map h xs) body s = for_of xs (λ x, body (h x)) s.
Proof.
  unfold for_of. revert s. induction xs as [|x xs IH]; intros s; simpl; auto.
Qed.

Lemma for_of_fmap {A B S} (h : A → B) (xs : list A) (body : B → S → S) (s : S) :
  for_of (h <$> xs) body s = for_of xs (λ x, body (h x)) s.
Proof.
  unfold for_of. revert s. induction xs as [|x xs IH]; intros s; csimpl; auto.
Qed.

(** A loop whose body only appends appends the concatenation. *)
Lemma for_of_append {A D} (f : A → list D) (xs : list A)
    (body : A → list D → list D) (s : list D) :
  (∀ x acc, x ∈ xs → body x acc = acc ++ f x) →
  for_of xs body s = s ++ flat_map f xs.
Proof.
  unfold for_of. revert s. induction xs as [|x xs IH]; intros s Hbody; simpl.
  - by rewrite app_nil_r.
  - rewrite Hbody by left. rewrite IH.
    + by rewrite app_assoc.
    + intros y acc Hy. apply Hbody. by right.
Qed.

(** A loop that pushes one record for the elements passing a test. *)
Lemma for_of_push_if {A D} (t : A → bool) (P : A → Prop) `{∀ x, Decision (P x)}
    (mk : A → D) (xs : list A) (s : list D) :
  (∀ x, t x = true ↔ P x) →
  for_of xs (λ x acc, if t x then acc ++ [mk x] else acc) s
  = s ++ map mk (filter P xs).
Proof.
  intros Ht. unfold for_of. revert s.
  induction xs as [|x xs IH]; intros s; simpl.
  - by rewrite app_nil_r.
  - rewrite IH. rewrite filter_cons. destruct (t x) eqn:E.
    + rewrite decide_True by (by apply Ht). simpl. by rewrite <- app_assoc.
    + rewrite decide_False; [done|]. intros HP. apply Ht in HP. congruence.
Qed.

(** In an object (unique property names) every listed entry is read back. *)
Lemma get_entry {V} (o : obj V) k v :
  NoDup (keys o) → (k, v) ∈ o → get o k = Some v.
Proof.
  induction o as [|[k' v'] o IH]; simpl; intros Hnd Hin.
  - by apply elem_of_nil in Hin.
  - apply NoDup_cons in Hnd as [Hk' Hnd].
    apply elem_of_cons in Hin as [[= <- <-]|Hin].
    + by rewrite String.eqb_refl.
    + destruct (String.eqb_spec k' k) as [->|Hne]; [|by apply IH].
      exfalso. apply Hk'. unfold keys.
      apply (list_elem_of_fmap_2 fst) in Hin. exact Hin.
  Qed.

Lemma array_includes_elem (xs : list string) x :
  array_includes xs x = true ↔ x ∈ xs.
Proof.
  unfold array_includes. rewrite existsb_exists. split.
  - intros (y & Hy & Heq). apply String.eqb_eq in Heq as ->.
    by apply list_elem_of_In.
  - intros Hx. exists x. split; [by apply list_elem_of_In|apply String.eqb_refl].
Qed.

Lemma for_of_snoc {A S} (xs : list A) (x : A) (body : A → S → S) (s : S) :
  for_of (xs ++ [x]) body s = body x (for_of xs body s).
Proof. unfold for_of. by rewrite fold_left_app. Qed.

(** Setting the entries of a list one after the other builds its map. *)
Lemma for_of_insert (es : list (string * string)) :
  NoDup es.*1 →
  for_of es (λ e acc, <[e.1:=e.2]> acc) (∅ : gmap string string)
  = list_to_map es.
Proof.
  induction es as [|[k v] es IH] using rev_ind; intros Hnd; [done|].
  rewrite for_of_snoc. rewrite fmap_app in Hnd.
  apply NoDup_app in Hnd as (Hnd & Hk & _).
  rewrite IH by done. simpl. rewrite list_to_map_snoc; [done|].
  intros Hin. apply (Hk k Hin). simpl. left.
Qed.

Lemma for_of_ext {A S} (xs : list A) (body1 body2 : A → S → S) (s : S) :
  (∀ x acc, x ∈ xs → body1 x acc = body2 x acc) →
  for_of xs body1 s = for_of xs body2 s.
Proof.
  unfold for_of. revert s. induction xs as [|x xs IH]; intros s Hb; [done|].
  simpl. rewrite Hb by left. apply IH. intros y acc Hy. apply Hb. by right.
Qed.

Lemma for_of_invariant {A S} (P : S → Prop) (xs : list A) (body : A → S → S) s :
  P s → (∀ x acc, x ∈ xs → P acc → P (body x acc)) → P (for_of xs body s).
Proof.
  unfold for_of. revert s. induction xs as [|x xs IH]; intros s Hs Hbody; [done|].
  simpl. apply IH.
  - apply Hbody; [left|done].
  - intros y acc Hy. apply Hbody. by right.
Qed.

End JsFacts.

(** ** Strings *)

Section StringFacts.
Import Js.

Lemma app_String c s t : String c s +:+ t = String c (s +:+ t).
Proof. reflexivity. Qed.

Lemma app_empty_l t : "" +:+ t = t.
Proof. reflexivity. Qed.

Lemma app_empty_r s : s +:+ "" = s.
Proof. induction s as [|c s IH]; [done|]. by rewrite ?app_String, IH. Qed.

Lemma app_assoc_str s t u : (s +:+ t) +:+ u = s +:+ (t +:+ u).
Proof. induction s as [|c s IH]; [done|]. by rewrite ?app_String, IH. Qed.

Lemma app_length_str s t :
  String.length (s +:+ t) = String.length s + String.length t.
Proof. induction s as [|c s IH]; [done|]. rewrite ?app_String. simpl. lia. Qed.

(** Splitting at line feeds undoes the line-by-line concatenation. *)
Lemma split_line sep l rest :
  Regex.all (λ c, negb (Ascii.eqb c sep)) l = true →
  split sep (l +:+ String sep rest) = l :: split sep rest.
Proof.
  induction l as [|c l IH]; intros Hl.
  - rewrite app_empty_l. simpl. by rewrite Ascii.eqb_refl.
  - simpl in Hl. apply andb_true_iff in Hl as [Hc Hl].
    rewrite ?app_String. simpl. apply negb_true_iff in Hc. rewrite Hc.
    by rewrite IH.
Qed.

Lemma all_app c s t : Regex.all c (s +:+ t) = Regex.all c s && Regex.all c t.
Proof.
  induction s as [|x s IH]; [done|].
  rewrite ?app_String. simpl. by rewrite IH, andb_assoc.
Qed.

Lemma all_weaken (c1 c2 : ascii → bool) s :
  (∀ x, c1 x = true → c2 x = true) →
  Regex.all c1 s = true → Regex.all c2 s = true.
Proof.
  intros Hc. induction s as [|x s IH]; [done|]. simpl.
  rewrite !andb_true_iff. intros [Hx Hs]. split; auto.
Qed.

Lemma take_app s t : Regex.take (String.length s) (s +:+ t) = s.
Proof. induction s as [|c s IH]; [by destruct t|]. simpl. by rewrite IH. Qed.

Lemma drop_app s t : Regex.drop (String.length s) (s +:+ t) = t.
Proof. induction s as [|c s IH]; [by destruct t|]. simpl. by rewrite IH. Qed.

Lemma run_app c s t :
  Regex.all c s = true →
  Regex.run c (s +:+ t) = String.length s + Regex.run c t.
Proof.
  induction s as [|x s IH]; [done|]. simpl.
  intros [Hx Hs]%andb_true_iff. rewrite ?app_String. simpl.
  by rewrite Hx, IH.
Qed.

Lemma run_head_out c t : Regex.head_in c t = false → Regex.run c t = 0.
Proof. destruct t as [|x t]; [done|]. simpl. by intros ->. Qed.

Lemma backtrack_first {A} (try : nat → option A) lo k r :
  lo ≤ k → try k = Some r → Regex.backtrack try lo k = Some r.
Proof.
  intros Hlo Htry. destruct k; simpl.
  - destruct lo; [|lia]. simpl. by rewrite Htry.
  - destruct (S k <? lo) eqn:E; [apply Nat.ltb_lt in E; lia|].
    by rewrite Htry.
Qed.

(** One atom consumes the whole block [p] when [p] lies in its class, is
    within the bounds, and either the class stops after [p] or [p] is as
    long as the quantifier allows. *)
Lemma exec_atom a r p rest caps :
  Regex.all (Regex.cls a) p = true →
  Regex.lo a ≤ String.length p →
  (Regex.head_in (Regex.cls a) rest = false ∧
     (∀ h, Regex.hi a = Some h → String.length p ≤ h)
   ∨ Regex.hi a = Some (String.length p)) →
  Regex.exec r rest = Some caps →
  Regex.exec (a :: r) (p +:+ rest) = Some (p :: caps).
Proof.
  intros Hp Hlo Hstop Hrest. simpl.
  assert (Regex.cap (Regex.hi a) (Regex.run (Regex.cls a) (p +:+ rest))
          = String.length p) as ->.
  { rewrite run_app by done. destruct Hstop as [[Hout Hhi]|Hhi].
    - rewrite run_head_out by done. rewrite Nat.add_0_r.
      unfold Regex.cap. destruct (Regex.hi a) as [h|]; [|done].
      specialize (Hhi h eq_refl). lia.
    - rewrite Hhi. simpl. lia. }
  apply backtrack_first; [done|].
  by rewrite take_app, drop_app, Hrest.
Qed.

Lemma app_inj_length s1 t1 s2 t2 :
  s1 +:+ t1 = s2 +:+ t2 → String.length s1 = String.length s2 →
  s1 = s2 ∧ t1 = t2.
Proof.
  revert s2. induction s1 as [|c s1 IH]; intros [|c2 s2]; simpl; try done.
  rewrite ?app_String. intros [= <- Heq] [= Hlen].
  destruct (IH _ Heq Hlen) as [<- <-]. done.
Qed.

Lemma strip_suffix_app suf x : strip_suffix suf (x +:+ suf) = Some x.
Proof.
  induction x as [|c x IH].
  - rewrite app_empty_l. destruct suf; simpl; [done|].
    by rewrite Ascii.eqb_refl, String.eqb_refl.
  - rewrite ?app_String.
    change (strip_suffix suf (String c (x +:+ suf)))
      with (if String.eqb (String c (x +:+ suf)) suf then Some ""
            else String c <$> strip_suffix suf (x +:+ suf)).
    destruct (String.eqb_spec (String c (x +:+ suf)) suf) as [Heq|_].
    + apply (f_equal String.length) in Heq. simpl in Heq.
      rewrite app_length_str in Heq. lia.
    + by rewrite IH.
Qed.

Lemma strip_suffix_inv suf s y : strip_suffix suf s = Some y → s = y +:+ suf.
Proof.
  revert y. induction s as [|c s IH]; intros y.
  - destruct suf; [|done]. by intros [= <-].
  - change (strip_suffix suf (String c s))
      with (if String.eqb (String c s) suf then Some ""
            else String c <$> strip_suffix suf s).
    destruct (String.eqb_spec (String c s) suf) as [<-|_].
    + by intros [= <-].
    + destruct (strip_suffix suf s) as [y'|] eqn:Hs; [|done].
      intros [= <-]. rewrite ?app_String. by rewrite <- (IH y').
Qed.

Lemma endsWith_app s suf : endsWith (s +:+ suf) suf = true.
Proof.
  unfold endsWith. apply bool_decide_eq_true. rewrite strip_suffix_app.
  by eexists.
Qed.

(** A path that ends in [.tar.gz] does not end in [.zip]. *)
Lemma tar_gz_not_zip s : endsWith (s +:+ ".tar.gz") ".zip" = false.
Proof.
  unfold endsWith. apply bool_decide_eq_false. intros [y Hy].
  apply strip_suffix_inv in Hy.
  assert (s +:+ ".tar.gz" = (s +:+ ".ta") +:+ "r.gz") as Hs
    by (by rewrite app_assoc_str).
  assert (String.length (s +:+ ".ta") = String.length y) as Hlen.
  { apply (f_equal String.length) in Hy. rewrite !app_length_str in *.
    simpl in *. lia. }
  rewrite Hs in Hy. by apply app_inj_length in Hy as [_ Hy].
Qed.

Lemma truthy_app s t : t ≠ "" → truthy (s +:+ t) = true.
Proof.
  intros Ht. unfold truthy. apply negb_true_iff, String.eqb_neq.
  intros Heq. apply (f_equal String.length) in Heq.
  rewrite app_length_str in Heq. destruct t; [done|]. simpl in Heq. lia.
Qed.

Lemma includes_sep a c h : includes (a +:+ String c h) (String c "") = true.
Proof.
  induction a as [|x a IH].
  - rewrite app_empty_l. simpl. destruct (ascii_dec c c); [by destruct h|done].
  - rewrite ?app_String. simpl. rewrite IH. apply orb_true_r.
Qed.

Lemma includes_no_sep c h :
  Regex.all (λ x, negb (Ascii.eqb x c)) h = true →
  includes h (String c "") = false.
Proof.
  induction h as [|x h IH]; [done|]. simpl.
  intros [Hx Hh]%andb_true_iff. rewrite IH by done.
  destruct (ascii_dec c x) as [->|]; [|done].
  by rewrite Ascii.eqb_refl in Hx.
Qed.

Lemma split_no_sep c h :
  Regex.all (λ x, negb (Ascii.eqb x c)) h = true → split c h = [h].
Proof.
  induction h as [|x h IH]; [done|]. simpl.
  intros [Hx Hh]%andb_true_iff. apply negb_true_iff in Hx.
  by rewrite Hx, IH.
Qed.

Lemma split_nonempty sep c : ∃ w ws, split sep c = w :: ws.
Proof.
  induction c as [|x c (w & ws & IH)]; [by eexists _, _|].
  cbn [split]. rewrite IH. destruct (Ascii.eqb x sep); by eexists _, _.
Qed.

Lemma split_app_sep sep c1 c2 :
  split sep (c1 +:+ String sep c2) = split sep c1 ++ split sep c2.
Proof.
  induction c1 as [|x c1 IH].
  - rewrite app_empty_l. simpl. by rewrite Ascii.eqb_refl.
  - rewrite ?app_String. cbn [split]. rewrite IH.
    destruct (Ascii.eqb x sep); [done|].
    by destruct (split_nonempty sep c1) as (w & ws & ->).
Qed.

(** Joining what a split gave restores the string. *)
Lemma join_split sep s : join (String sep "") (split sep s) = s.
Proof.
  unfold join. induction s as [|c s IH]; [done|].
  cbn [split]. destruct (split_nonempty sep s) as (w & ws & Hs).
  rewrite Hs in *. destruct (Ascii.eqb_spec c sep) as [->|_].
  - change (String.concat (String sep "") ("" :: w :: ws))
      with ("" +:+ String sep "" +:+ String.concat (String sep "") (w :: ws)).
    by rewrite IH.
  - destruct ws as [|w' ws]; simpl in *; by rewrite <- IH.
Qed.

(** Splitting a joined list of parts without separator, after a first
    part that may hold some. *)
Lemma split_join sep x (xs : list string) :
  Forall (λ y, Regex.all (λ c, negb (Ascii.eqb c sep)) y = true) xs →
  split sep (join (String sep "") (x :: xs)) = split sep x ++ xs.
Proof.
  unfold join. intros Hxs. revert x.
  induction Hxs as [|y ys Hy Hys IH]; intros x; [by rewrite app_nil_r|].
  change (String.concat (String sep "") (x :: y :: ys))
    with (x +:+ String sep (String.concat (String sep "") (y :: ys))).
  by rewrite split_app_sep, IH, (split_no_sep sep y).
Qed.

Lemma join_cons sep x y (ys : list string) :
  join sep (x :: y :: ys) = x +:+ sep +:+ join sep (y :: ys).
Proof. done. Qed.

Lemma join_head sep a b (ys : list string) :
  join sep ((a +:+ b) :: ys) = a +:+ join sep (b :: ys).
Proof.
  destruct ys as [|y ys]; [done|]. rewrite !join_cons. by rewrite app_assoc_str.
Qed.

(** Joining a joined head with further parts. *)
Lemma join_join sep x (xs ys : list string) :
  join sep (join sep (x :: xs) :: ys) = join sep (x :: xs ++ ys).
Proof.
  revert x. induction xs as [|x' xs IH]; intros x; [done|].
  rewrite join_cons. rewrite join_head, join_head, IH.
  change ((x' :: xs) ++ ys) with (x' :: xs ++ ys).
  by rewrite (join_cons sep x x').
Qed.

End StringFacts.

(** ** The discrepancy detector *)

Section PrepFacts.
Import Js Prep.

Lemma isActive_spec entry :
  Is_true (isActive entry)
  ↔ status entry = "in-progress" ∨ status entry = "completed".
Proof.
  unfold isActive. rewrite orb_True, !Is_true_true, !String.eqb_eq. done.
Qed.

Lemma notEnabled_spec o k :
  inherited k = false → notEnabled o k = false ↔ get o k = Some true.
Proof.
  intros Hk. unfold notEnabled. rewrite Hk.
  destruct (get o k) as [[]|]; simpl; split; congruence.
Qed.

Lemma desiredLoop_spec desired actual acc :
  NoDup (keys (databases desired)) →
  desiredLoop desired actual acc = acc ++ desiredPass desired actual.
Proof.
  intros Hnd. unfold desiredLoop, desiredPass.
  rewrite for_of_map.
  apply for_of_append. intros [db entry] s Hin. simpl.
  apply list_elem_of_filter in Hin as [_ Hin].
  rewrite (get_entry _ _ _ Hnd Hin).
  destruct (get (released_databases actual) db) as [released|] eqn:Hrel.
  - assert (∀ evs,
      for_of evs (λ version discrepancies,
        match get released version with
        | Some release =>
            for_of (enabledKeys (platforms entry)) (λ platform discrepancies0,
              if negb (array_includes (keys (released_platforms release)) platform)
              then push (missingPlatform db version platform) discrepancies0
              else discrepancies0) discrepancies
        | None => push (missingVersion db version) discrepancies
        end) s
      = s ++ flat_map (λ v,
          match Some released ≫= (λ r, get r v) with
          | Some release =>
              map (missingPlatform db v)
                (filter (λ p, p ∉ keys (released_platforms release))
                   (enabledKeys (platforms entry)))
          | None => [missingVersion db v]
          end) evs) as Hloop.
    { intros evs. apply for_of_append. intros v s' _. simpl.
      destruct (get released v) as [release|]; [|done].
      unfold push. apply for_of_push_if. intros p.
      rewrite negb_true_iff, <- not_true_iff_false, array_includes_elem. done. }
    rewrite Hloop. by destruct (enabledKeys (versions entry)).
  - destruct (enabledKeys (versions entry)) as [|v vs] eqn:Hev; simpl.
    + by rewrite app_nil_r.
    + done.
Qed.

Lemma releasedLoop_spec desired actual acc :
  releasedLoop desired actual acc = acc ++ releasedPass desired actual.
Proof.
  unfold releasedLoop, releasedPass.
  apply for_of_append. intros [db released] s _.
  destruct (get (databases desired) db) as [entry|]; [|done].
  apply for_of_append. intros [v release] s' _.
  destruct (notEnabled (versions entry) v) eqn:Hv; [done|].
  unfold push. apply for_of_push_if. intros p. done.
Qed.

Lemma diffSnapshots_spec desired actual :
  NoDup (keys (databases desired)) →
  diffSnapshots desired actual
  = desiredPass desired actual ++ releasedPass desired actual.
Proof.
  intros Hnd. unfold diffSnapshots.
  rewrite releasedLoop_spec, desiredLoop_spec by done. done.
Qed.

(** The mapping lookup of the specification is the own-property read. *)
Lemma spec_at_get {V} (o : obj V) k : spec_at o k = get o k.
Proof.
  unfold spec_at. induction o as [|[k' v] o IH]; [done|]. simpl.
  destruct (String.eqb_spec k' k) as [->|Hne].
  - by rewrite decide_True.
  - rewrite decide_False by done. rewrite <- IH.
    by destruct (list_find _ o) as [[i kv]|].
Qed.

(** The enabled names of the specification are those the code filters. *)
Lemma enabledKeys_spec (o : obj bool) : enabledKeys o = spec_enabled o.
Proof.
  unfold enabledKeys, spec_enabled, entries.
  change (map fst (filter (λ kv, Is_true kv.2) o))
    with ((filter (λ kv, Is_true kv.2) o).*1).
  f_equal. apply list_filter_iff. intros [k b]. simpl. apply Is_true_true.
Qed.

Lemma fmap_flat_map {A B C} (f : B → C) (g : A → list B) (h : A → list C)
    (xs : list A) :
  (∀ x, x ∈ xs → f <$> g x = h x) →
  f <$> flat_map g xs = flat_map h xs.
Proof.
  induction xs as [|x xs IH]; intros Hgh; [done|]. simpl.
  rewrite fmap_app, Hgh by left. rewrite IH; [done|].
  intros y Hy. apply Hgh. by right.
Qed.

(** The first loop finds what the desired-side pass of the specification
    lists. *)
Lemma desiredPass_findings desired actual :
  findingOf <$> desiredPass desired actual = spec_desiredPass desired actual.
Proof.
  unfold desiredPass, spec_desiredPass, spec_active.
  rewrite (list_filter_iff _
    (λ kv : string * DatabaseEntry,
       status (snd kv) = "in-progress" ∨ status (snd kv) = "completed"))
    by (intros kv; apply isActive_spec).
  apply fmap_flat_map. intros [db entry] _.
  rewrite spec_at_get, <- !enabledKeys_spec.
  assert (findingOf <$> flat_map (λ version,
            match get (released_databases actual) db ≫= (λ r, get r version) with
            | Some release =>
                map (missingPlatform db version)
                  (filter (λ platform, platform ∉ keys (released_platforms release))
                     (enabledKeys (platforms entry)))
            | None => [missingVersion db version]
            end) (enabledKeys (versions entry))
          = match get (released_databases actual) db with
            | Some released =>
                flat_map (λ v,
                  match spec_at released v with
                  | Some release =>
                      (λ p, mkFinding missing_platform db (Some v) (Some p))
                      <$> filter (λ p, p ∉ (released_platforms release).*1)
                            (enabledKeys (platforms entry))
                  | None => [mkFinding missing_version db (Some v) None]
                  end) (enabledKeys (versions entry))
            | None =>
                (λ v, mkFinding missing_version db (Some v) None)
                <$> enabledKeys (versions entry)
            end) as Hvs.
  { destruct (get (released_databases actual) db) as [released|]; simpl.
    - apply fmap_flat_map. intros v _. rewrite spec_at_get.
      destruct (get released v) as [release|]; [|done].
      change (map (missingPlatform db v)) with (fmap (M:=list) (missingPlatform db v)).
      by rewrite <- list_fmap_compose.
    - induction (enabledKeys (versions entry)) as [|v vs IH]; [done|].
      cbn. f_equal. exact IH. }
  destruct (get (released_databases actual) db) as [released|].
  - rewrite <- Hvs. by destruct (enabledKeys (versions entry)).
  - by destruct (enabledKeys (versions entry)).
Qed.

Lemma ownNames_released desired actual db released :
  ownNames desired actual = true →
  (db, released) ∈ released_databases actual →
  ∀ v release, (v, release) ∈ released →
    inherited v = false
    ∧ ∀ p, p ∈ keys (released_platforms release) → inherited p = false.
Proof.
  unfold ownNames, namesRead. rewrite forallb_forall.
  intros Hall Hdb v release Hv.
  assert (∀ k, k ∈ keys released
               ++ flat_map (λ '(_, release),
                    keys (released_platforms release)) released →
               inherited k = false) as Hk.
  { intros k Hk. apply negb_true_iff, Hall. apply list_elem_of_In.
    rewrite !elem_of_app. do 3 right.
    apply list_elem_of_In, in_flat_map. exists (db, released).
    split; apply list_elem_of_In; done. }
  split.
  - apply Hk. apply elem_of_app. left. unfold keys.
    apply list_elem_of_In, in_map_iff. exists (v, release).
    split; [done|by apply list_elem_of_In].
  - intros p Hp. apply Hk. apply elem_of_app. right.
    apply list_elem_of_In, in_flat_map. exists (v, release).
    split; apply list_elem_of_In; done.
Qed.

(** The second loop finds what the actual-side pass of the specification
    lists, as long as no released name is one that objects inherit. *)
Lemma releasedPass_findings desired actual :
  ownNames desired actual = true →
  findingOf <$> releasedPass desired actual = spec_actualPass desired actual.
Proof.
  intros Hown. unfold releasedPass, spec_actualPass.
  apply fmap_flat_map. intros [db released] Hdb. rewrite spec_at_get.
  destruct (get (databases desired) db) as [entry|]; [|done].
  apply fmap_flat_map. intros [v release] Hv.
  destruct (ownNames_released _ _ _ _ Hown Hdb v release Hv) as [Hown_v Hown_p].
  rewrite !spec_at_get.
  destruct (notEnabled (versions entry) v) eqn:Hflag.
  - rewrite decide_False; [done|].
    intros Hg. apply (notEnabled_spec _ _ Hown_v) in Hg. congruence.
  - rewrite decide_True by (by apply (notEnabled_spec _ _ Hown_v)).
    change (map (orphanedPlatform db v)) with (fmap (M:=list) (orphanedPlatform db v)).
    rewrite <- list_fmap_compose.
    assert (∀ ps : list string, (∀ q, q ∈ ps → inherited q = false) →
              findingOf ∘ orphanedPlatform db v
              <$> filter (λ platform,
                            notEnabled (platforms entry) platform = true) ps
              = (λ p, mkFinding orphaned_platform db (Some v) (Some p))
                <$> filter (λ p, spec_at (platforms entry) p ≠ Some true) ps)
      as Hps.
    { induction ps as [|p ps IH]; intros Hown_ps; [done|].
      rewrite !filter_cons.
      assert (inherited p = false) as Hp by (apply Hown_ps; left).
      rewrite spec_at_get.
      destruct (notEnabled (platforms entry) p) eqn:Hpflag.
      - rewrite decide_True by done. rewrite decide_True.
        + csimpl. f_equal. apply IH. intros q Hq. apply Hown_ps. by right.
        + intros Hg. apply (notEnabled_spec _ _ Hp) in Hg. congruence.
      - rewrite decide_False by done. rewrite decide_False.
        + apply IH. intros q Hq. apply Hown_ps. by right.
        + intros Hn. apply Hn. by apply (notEnabled_spec _ _ Hp). }
    apply (Hps (keys (released_platforms release))). exact Hown_p.
Qed.

(** C1. Where no name that the detector reads is one that every object
    inherits from [Object.prototype], the detector returns what the
    desired-side pass followed by the actual-side pass of the
    specification list, each in its input's iteration order and with the
    skipping described; only the versions and platforms whose flag is
    [true] count as enabled.  On Scenario A the result is exactly one
    missing-release for mysql; a version and a platform that are switched
    off are not reported. *)
Theorem findDiscrepancies_two_pass (desired : DatabasesJson) (actual : ReleasesJson)
    (Hobj : NoDup (keys (databases desired)))
    (Hown : ownNames desired actual = true) :
  (∃ discrepancies,
     findDiscrepancies (Parsed desired) (Parsed actual) = Returns discrepancies
     ∧ findingOf <$> discrepancies
       = spec_desiredPass desired actual ++ spec_actualPass desired actual)
  ∧ findDiscrepancies (Parsed scenarioA_desired) (Parsed scenarioA_actual)
    = Returns [mkDiscrepancy missing_release "mysql" None None
                 "Database 'mysql' has 1 enabled version(s) but no releases"]
  ∧ findDiscrepancies (Parsed disabled_desired) (Parsed disabled_actual)
    = Returns [mkDiscrepancy missing_platform "mysql" (Some "8.4")
                 (Some "linux-x64")
                 "Platform 'linux-x64' is enabled but not released for mysql 8.4";
               mkDiscrepancy orphaned_platform "mysql" (Some "8.4")
                 (Some "darwin-arm64")
                 "Platform 'darwin-arm64' is released but not enabled in databases.json"].
Proof.
  split; [|split].
  - exists (desiredPass desired actual ++ releasedPass desired actual). split.
    + unfold findDiscrepancies. simpl. by rewrite diffSnapshots_spec.
    + by rewrite fmap_app, desiredPass_findings, releasedPass_findings.
  - by vm_compute.
  - by vm_compute.
Qed.

Lemma findDiscrepancies_two_pass_witness :
  ∃ discrepancies,
    findDiscrepancies (Parsed disabled_desired) (Parsed disabled_actual)
    = Returns discrepancies
    ∧ findingOf <$> discrepancies
      = [mkFinding missing_platform "mysql" (Some "8.4") (Some "linux-x64");
         mkFinding orphaned_platform "mysql" (Some "8.4") (Some "darwin-arm64")].
Proof.
  assert (Hnd : NoDup (keys (databases disabled_desired))).
  { simpl. apply NoDup_singleton. }
  destruct (proj1 (findDiscrepancies_two_pass disabled_desired disabled_actual
                     Hnd eq_refl)) as (ds & Hrun & Hspec).
  exists ds. split; [exact Hrun|]. rewrite Hspec. by vm_compute.
Defined.

(** C1 fails at an inherited name.  The releases hold a version named
    [constructor] that the desired state does not list, so that the
    actual-side pass of the claim has one orphaned-version; the detector
    reads [dbEntry.versions['constructor']], finds the function every
    object inherits, and reports nothing. *)
Lemma inherited_version_goes_unreported :
  NoDup (keys (databases inherited_desired))
  ∧ spec_at [("8.4", true)] "constructor" = None
  ∧ spec_desiredPass inherited_desired inherited_actual
    ++ spec_actualPass inherited_desired inherited_actual
    = [mkFinding orphaned_version "mysql" (Some "constructor") None]
  ∧ findDiscrepancies (Parsed inherited_desired) (Parsed inherited_actual)
    = Returns [].
Proof.
  split; [simpl; apply NoDup_singleton|]. split; [done|].
  split; by vm_compute.
Qed.

End PrepFacts.

(** ** Missing and malformed state files *)

Section StateFileFacts.
Import Js Prep.

(** C4, as the code has it. When one of the two state files is missing
    the detector returns the empty list and raises nothing. *)
Theorem findDiscrepancies_missing_file
    (databasesFile : file DatabasesJson) (releasesFile : file ReleasesJson)
    (Hmissing : databasesFile = Absent ∨ releasesFile = Absent) :
  findDiscrepancies databasesFile releasesFile = Returns [].
Proof.
  unfold findDiscrepancies.
  destruct Hmissing as [-> | ->]; [done|]. simpl. by rewrite orb_true_r.
Qed.

Lemma findDiscrepancies_missing_file_witness :
  findDiscrepancies Absent (Parsed scenarioA_actual) = Returns [].
Proof.
  apply (findDiscrepancies_missing_file Absent (Parsed scenarioA_actual)).
  by left.
Defined.

(** A state file that is present and malformed makes the detector raise
    the error of the parser. *)
Lemma findDiscrepancies_malformed
    (databasesFile : file DatabasesJson) (releasesFile : file ReleasesJson) :
  existsSync databasesFile = true → existsSync releasesFile = true →
  databasesFile = Malformed ∨ releasesFile = Malformed →
  findDiscrepancies databasesFile releasesFile = Throws "SyntaxError".
Proof.
  unfold findDiscrepancies.
  destruct databasesFile, releasesFile; simpl; try done; by intros _ _ [|].
Qed.

(** C4, as stated, fails: with a malformed desired-state file the
    detector raises instead of returning the empty list. *)
Lemma findDiscrepancies_malformed_raises :
  findDiscrepancies Malformed (Parsed scenarioA_actual) = Throws "SyntaxError"
  ∧ findDiscrepancies Malformed (Parsed scenarioA_actual) ≠ Returns [].
Proof. split; [done|]. by vm_compute. Qed.

End StateFileFacts.

(** ** Manifest lines *)

Section LineFacts.
Import Js Checksums.

Lemma isDigest_inv d :
  isDigest d = true → String.length d = 64 ∧ Regex.all Regex.hex d = true.
Proof.
  unfold isDigest. intros [Hlen Hhex]%andb_true_iff.
  by apply Nat.eqb_eq in Hlen.
Qed.

Lemma exec_last a p :
  Regex.all (Regex.cls a) p = true →
  Regex.lo a ≤ String.length p →
  (∀ h, Regex.hi a = Some h → String.length p ≤ h) →
  Regex.exec [a] p = Some [p].
Proof.
  intros Hp Hlo Hhi. rewrite <- (app_empty_r p) at 1.
  apply exec_atom; [done..| |done]. left. by split.
Qed.

(** A digest, white space, an optional [*] and a file name are matched
    as digest and file name. *)
Lemma matchLine_fields d ws st f :
  isDigest d = true →
  Regex.all Regex.space ws = true → ws ≠ "" →
  (st = "" ∧ Regex.head_in Regex.space f = false
           ∧ Regex.head_in Regex.star f = false
   ∨ st = "*") →
  f ≠ "" → Regex.all Regex.dot f = true →
  matchLine (d +:+ ws +:+ st +:+ f) = Some (d, f).
Proof.
  intros [Hlen Hhex]%isDigest_inv Hws Hws0 Hst Hf Hdot.
  unfold matchLine, linePattern.
  assert (Regex.exec [Regex.plus Regex.dot] f = Some [f]) as Hlast.
  { apply exec_last; [done| |done]. simpl. destruct f; [done|simpl; lia]. }
  assert (Regex.exec [Regex.opt Regex.star; Regex.plus Regex.dot] (st +:+ f)
          = Some [st; f]) as Hstar.
  { apply exec_atom; [| |  |done].
    - by destruct Hst as [(-> & _ & _)| ->].
    - simpl. lia.
    - destruct Hst as [(-> & _ & Hh)| ->]; [left|by right].
      split; [done|]. simpl. intros h [= <-]. lia. }
  assert (Regex.exec [Regex.plus Regex.space; Regex.opt Regex.star;
                      Regex.plus Regex.dot] (ws +:+ st +:+ f)
          = Some [ws; st; f]) as Hspace.
  { apply exec_atom; [done| | |done].
    - simpl. destruct ws; [done|simpl; lia].
    - left. split; [|done]. by destruct Hst as [(-> & Hh & _)| ->]. }
  rewrite (exec_atom _ _ d (ws +:+ st +:+ f) [ws; st; f]); [done|done| |  |done].
  - simpl. lia.
  - right. simpl. by rewrite Hlen.
Qed.

Lemma readableName_inv f :
  readableName f = true →
  f ≠ "" ∧ Regex.all Regex.dot f = true
  ∧ Regex.head_in Regex.space f = false ∧ Regex.head_in Regex.star f = false.
Proof.
  unfold readableName. rewrite !andb_true_iff, !negb_true_iff, !String.eqb_neq.
  tauto.
Qed.

Lemma plainName_inv f :
  plainName f = true → readableName f = true ∧ f ≠ "__proto__".
Proof.
  unfold plainName. by rewrite !andb_true_iff, !negb_true_iff, !String.eqb_neq.
Qed.

(** The line written for a plain file name is read back as it is. *)
Lemma matchLine_written d f :
  isDigest d = true → readableName f = true →
  matchLine (d +:+ "  " +:+ f) = Some (d, f).
Proof.
  intros Hd (Hf & Hdot & Hsp & Hst)%readableName_inv.
  apply (matchLine_fields d "  " "" f); auto.
Qed.

(** The binary-mode marker is accepted and dropped. *)
Lemma matchLine_marker d f :
  isDigest d = true → f ≠ "" → Regex.all Regex.dot f = true →
  matchLine (d +:+ " *" +:+ f) = Some (d, f).
Proof.
  intros Hd Hf Hdot. apply (matchLine_fields d " " "*" f); auto.
Qed.

Lemma backtrack_inv {A} (try : nat → option A) lo k r :
  Regex.backtrack try lo k = Some r → ∃ n, lo ≤ n ≤ k ∧ try n = Some r.
Proof.
  induction k as [|k IH]; simpl.
  - destruct (0 <? lo) eqn:E; [done|]. apply Nat.ltb_ge in E.
    destruct (try 0) eqn:Ht; [|done]. intros [= <-]. exists 0. split; [lia|done].
  - destruct (S k <? lo) eqn:E; [done|]. apply Nat.ltb_ge in E.
    destruct (try (S k)) eqn:Ht.
    + intros [= <-]. exists (S k). split; [lia|done].
    + intros Hb. destruct (IH Hb) as (n & Hn & Hr). exists n. split; [lia|done].
Qed.

Lemma take_drop n s : Regex.take n s +:+ Regex.drop n s = s.
Proof.
  revert s. induction n as [|n IH]; intros [|c s]; simpl; try done.
  rewrite ?app_String. by rewrite IH.
Qed.

Lemma take_run c n s :
  n ≤ Regex.run c s →
  Regex.all c (Regex.take n s) = true ∧ String.length (Regex.take n s) = n.
Proof.
  revert s. induction n as [|n IH]; intros [|x s]; simpl; try done; try lia.
  destruct (c x) eqn:Hx; [|lia]. intros Hn.
  destruct (IH s) as [Hall Hlen]; [lia|]. by rewrite Hall, Hlen.
Qed.

(** An atom matches a block of its class within its bounds. *)
Lemma exec_cons_inv a r s caps :
  Regex.exec (a :: r) s = Some caps →
  ∃ p rest caps',
    s = p +:+ rest ∧ caps = p :: caps'
    ∧ Regex.all (Regex.cls a) p = true
    ∧ Regex.lo a ≤ String.length p
    ∧ (∀ h, Regex.hi a = Some h → String.length p ≤ h)
    ∧ Regex.exec r rest = Some caps'.
Proof.
  simpl. intros (n & [Hlo Hhi] & Htry)%backtrack_inv.
  destruct (Regex.exec r (Regex.drop n s)) as [caps'|] eqn:Hrest; [|done].
  injection Htry as <-.
  assert (n ≤ Regex.run (Regex.cls a) s) as Hrun.
  { unfold Regex.cap in Hhi. destruct (Regex.hi a); lia. }
  destruct (take_run _ _ _ Hrun) as [Hall Hlen].
  exists (Regex.take n s), (Regex.drop n s), caps'.
  rewrite take_drop, Hlen. repeat split; try done.
  intros h Hh. unfold Regex.cap in Hhi. rewrite Hh in Hhi. lia.
Qed.

(** What the line pattern accepts: a digest, white space, at most one
    [*], and a non-empty rest without line terminator. *)
Lemma matchLine_sound line hash filename :
  matchLine line = Some (hash, filename) →
  ∃ ws st,
    line = hash +:+ ws +:+ st +:+ filename
    ∧ isDigest hash = true
    ∧ Regex.all Regex.space ws = true ∧ ws ≠ ""
    ∧ (st = "" ∨ st = "*")
    ∧ filename ≠ "" ∧ Regex.all Regex.dot filename = true.
Proof.
  unfold matchLine, linePattern.
  destruct (Regex.exec _ line) as [caps|] eqn:Hexec; [|done].
  apply exec_cons_inv in Hexec
    as (h & r1 & c1 & -> & -> & Hh & Hhlo & Hhhi & Hexec).
  apply exec_cons_inv in Hexec
    as (ws & r2 & c2 & -> & -> & Hws & Hwslo & _ & Hexec).
  apply exec_cons_inv in Hexec
    as (st & r3 & c3 & -> & -> & Hst & _ & Hsthi & Hexec).
  apply exec_cons_inv in Hexec
    as (f & r4 & c4 & -> & -> & Hf & Hflo & _ & Hexec).
  simpl in Hexec. destruct r4; [|done]. injection Hexec as <-.
  intros [= <- <-]. exists ws, st. rewrite app_empty_r.
  simpl in Hhlo, Hwslo, Hflo, Hh, Hws, Hst, Hf. specialize (Hhhi 64 eq_refl).
  specialize (Hsthi 1 eq_refl).
  split; [done|]. split.
  { unfold isDigest. rewrite Hh, andb_true_r. apply Nat.eqb_eq. lia. }
  split; [done|]. split; [by destruct ws; [simpl in Hwslo; lia|]|].
  split.
  { destruct st as [|x [|y st]]; [by left| |simpl in Hsthi; lia].
    right. simpl in Hst. rewrite andb_true_r in Hst.
    unfold Regex.star in Hst. by apply Ascii.eqb_eq in Hst as ->. }
  split; [by destruct f; [simpl in Hflo; lia|]|done].
Qed.

Lemma hex_no_lf x : Regex.hex x = true → negb (Ascii.eqb x "010") = true.
Proof.
  destruct (Ascii.eqb_spec x "010") as [->|]; [|done]. by vm_compute.
Qed.

Lemma dot_no_lf x : Regex.dot x = true → negb (Ascii.eqb x "010") = true.
Proof.
  unfold Regex.dot. rewrite !negb_true_iff, orb_false_iff. by intros [-> _].
Qed.

End LineFacts.

(** ** Writing and reading a manifest *)

Section ManifestFacts.
Import Js Checksums Repair.

Lemma sortedKeys_perm (m : gmap string string) :
  sortedKeys m ≡ₚ (map_to_list m).*1.
Proof. apply merge_sort_Permutation. Qed.

Lemma sortedKeys_sorted (m : gmap string string) :
  Sorted String.le (sortedKeys m).
Proof. apply (Sorted_merge_sort String.le). Qed.

Lemma sortedKeys_NoDup (m : gmap string string) : NoDup (sortedKeys m).
Proof. rewrite sortedKeys_perm. apply NoDup_fst_map_to_list. Qed.

Lemma sortedKeys_elem (m : gmap string string) f :
  f ∈ sortedKeys m ↔ is_Some (m !! f).
Proof.
  rewrite sortedKeys_perm, list_elem_of_fmap. split.
  - intros ([k v] & -> & Hin). apply elem_of_map_to_list in Hin. eauto.
  - intros [v Hv]. exists (f, v). split; [done|]. by apply elem_of_map_to_list.
Qed.

(** The sorted entries are the entries of the mapping, each once. *)
Lemma sortedEntries_perm (m : gmap string string) :
  entryOf m <$> sortedKeys m ≡ₚ map_to_list m.
Proof.
  rewrite sortedKeys_perm, <- list_fmap_compose.
  rewrite <- (list_fmap_id (map_to_list m)) at 2.
  apply eq_subrelation; [apply _|]. apply Forall_fmap_ext_1.
  apply Forall_forall. intros [k v] Hin. apply elem_of_map_to_list in Hin.
  unfold entryOf. simpl. by rewrite Hin.
Qed.

Lemma sortedEntries_fst (m : gmap string string) :
  (entryOf m <$> sortedKeys m).*1 = sortedKeys m.
Proof.
  rewrite <- list_fmap_compose. rewrite <- (list_fmap_id (sortedKeys m)) at 2.
  by apply list_fmap_ext.
Qed.

Lemma manifestLines_entries (m : gmap string string) :
  manifestLines m = lineOf <$> (entryOf m <$> sortedKeys m).
Proof.
  unfold manifestLines. rewrite (for_of_append (λ f, [lineOf (entryOf m f)])).
  - simpl. induction (sortedKeys m) as [|f fs IH]; [done|]. simpl.
    by rewrite IH.
  - done.
Qed.

Lemma join_lines (ls : list string) :
  ls ≠ [] →
  join (String "010" "") ls +:+ String "010" ""
  = foldr (λ l rest, l +:+ String "010" "" +:+ rest) "" ls.
Proof.
  induction ls as [|l ls IH]; [done|]. intros _. unfold join in *. simpl.
  destruct ls as [|l' ls'].
  - done.
  - rewrite <- IH by done. by rewrite !app_assoc_str.
Qed.

(** The content written is the specification's text of the sorted entries. *)
Lemma manifestContent_text (m : gmap string string) :
  m ≠ ∅ →
  manifestContent m = spec_manifestText (entryOf m <$> sortedKeys m).
Proof.
  intros Hne. unfold manifestContent. rewrite manifestLines_entries.
  rewrite join_lines.
  - induction (sortedKeys m) as [|f fs IH]; [done|]. csimpl.
    rewrite IH. unfold lineOf. simpl. by rewrite !app_assoc_str.
  - intros Hnil. apply fmap_nil_inv in Hnil. apply fmap_nil_inv in Hnil.
    apply Hne. apply map_to_list_empty_iff. apply Permutation_nil_r.
    rewrite <- (sortedEntries_perm m), Hnil. done.
Qed.

(** The text of a list of entries splits into its lines and a last, empty
    one. *)
Lemma split_manifestText (es : list (string * string)) :
  Forall (λ e, isDigest e.2 = true ∧ Regex.all Regex.dot e.1 = true) es →
  split "010" (spec_manifestText es) = (lineOf <$> es) ++ [""].
Proof.
  induction 1 as [|[f d] es [Hd Hf] _ IH]; [done|]. simpl in Hd, Hf.
  assert (spec_manifestText ((f, d) :: es)
          = (d +:+ "  " +:+ f) +:+ String "010" (spec_manifestText es)) as ->.
  { simpl. by rewrite !app_assoc_str. }
  rewrite split_line.
  - by rewrite IH.
  - apply isDigest_inv in Hd as [_ Hd].
    rewrite !all_app. rewrite (all_weaken _ _ d hex_no_lf Hd).
    by rewrite (all_weaken _ _ f dot_no_lf Hf).
Qed.

(** Reading the text of a list of entries with distinct readable names
    sets exactly these entries, whenever setting is insertion for them. *)
Lemma read_manifestText
    (set : string → string → gmap string string → gmap string string)
    (es : list (string * string)) :
  NoDup es.*1 →
  Forall (λ e, isDigest e.2 = true ∧ readableName e.1 = true
               ∧ ∀ acc, set e.1 e.2 acc = <[e.1:=e.2]> acc) es →
  for_of (split "010" (spec_manifestText es)) (λ line checksums,
    match matchLine line with
    | Some (hash, filename) => set filename hash checksums
    | None => checksums
    end) ∅
  = list_to_map es.
Proof.
  intros Hnd Hes. rewrite split_manifestText.
  - rewrite for_of_snoc.
    assert (matchLine "" = None) as -> by (by vm_compute).
    rewrite <- for_of_insert by done.
    rewrite for_of_fmap. apply for_of_ext. intros [f d] acc Hin.
    rewrite Forall_forall in Hes. destruct (Hes _ Hin) as (Hd & Hf & Hset).
    simpl in *. unfold lineOf. simpl. by rewrite matchLine_written.
  - eapply Forall_impl; [exact Hes|]. intros [f d] (Hd & Hf & _). split; [done|].
    by apply readableName_inv in Hf as (_ & Hdot & _).
Qed.

(** The same for the text written from a mapping. *)
Lemma read_written_manifest
    (set : string → string → gmap string string → gmap string string)
    (m : gmap string string) :
  (∀ f d, m !! f = Some d →
     isDigest d = true ∧ readableName f = true
     ∧ ∀ acc, set f d acc = <[f:=d]> acc) →
  for_of (split "010" (manifestContent m)) (λ line checksums,
    match matchLine line with
    | Some (hash, filename) => set filename hash checksums
    | None => checksums
    end) ∅
  = m.
Proof.
  intros Hm. destruct (decide (m = ∅)) as [->|Hne].
  - unfold manifestContent, manifestLines, sortedKeys.
    rewrite map_to_list_empty. by vm_compute.
  - rewrite manifestContent_text by done.
    rewrite read_manifestText.
    + rewrite (list_to_map_proper _ (map_to_list m)).
      * apply list_to_map_to_list.
      * rewrite sortedEntries_fst. apply sortedKeys_NoDup.
      * apply sortedEntries_perm.
    + rewrite sortedEntries_fst. apply sortedKeys_NoDup.
    + apply Forall_forall. intros [f d] Hin.
      rewrite (sortedEntries_perm m) in Hin.
      apply elem_of_map_to_list in Hin. by apply Hm.
Qed.

(** C7. For a non-empty digest mapping the text written is one line per
    entry, [digest], two spaces, the file name and a line feed, the lines
    in ascending order of file name; nothing stands between the two spaces
    and the file name, while on reading a [*] there is accepted. *)
Theorem manifestContent_format (m : gmap string string)
    (Hne : m ≠ ∅)
    (Hdig : ∀ f d, m !! f = Some d → isDigest d = true) :
  ∃ es : list (string * string),
    es ≡ₚ map_to_list m
    ∧ Sorted String.le es.*1
    ∧ NoDup es.*1
    ∧ Forall (λ e, isDigest e.2 = true) es
    ∧ manifestLines m = (λ e, e.2 +:+ "  " +:+ e.1) <$> es
    ∧ manifestContent m = spec_manifestText es
    ∧ ∀ f d, (f, d) ∈ es → f ≠ "" → Regex.all Regex.dot f = true →
        matchLine (d +:+ " *" +:+ f) = Some (d, f).
Proof.
  exists (entryOf m <$> sortedKeys m).
  assert (∀ f d, (f, d) ∈ entryOf m <$> sortedKeys m → isDigest d = true) as Hd.
  { intros f d Hin. rewrite (sortedEntries_perm m) in Hin.
    apply elem_of_map_to_list in Hin. by eapply Hdig. }
  split; [apply sortedEntries_perm|].
  rewrite sortedEntries_fst.
  split; [apply sortedKeys_sorted|].
  split; [apply sortedKeys_NoDup|].
  split; [apply Forall_forall; intros [f d] Hin; by eapply Hd|].
  split; [apply manifestLines_entries|].
  split; [by apply manifestContent_text|].
  intros f d Hin Hf Hdot. apply matchLine_marker; eauto.
Qed.

Lemma manifestContent_format_witness :
  ∃ es : list (string * string),
    es ≡ₚ map_to_list ({[ "server-linux-x64.tar.gz" := digestA ]} : gmap string string)
    ∧ manifestContent {[ "server-linux-x64.tar.gz" := digestA ]}
      = spec_manifestText es.
Proof.
  destruct (manifestContent_format {[ "server-linux-x64.tar.gz" := digestA ]})
    as (es & Hperm & _ & _ & _ & _ & Htext & _).
  - apply insert_non_empty.
  - intros f d Hfd. apply lookup_singleton_Some in Hfd as [<- <-].
    vm_compute; reflexivity.
  - exists es. by split.
Defined.

End ManifestFacts.

(** * The manifest on UTF-16 code units *)

Section Utf16Facts.
Import Js Utf16.

Lemma units_split_line sep (l rest : text) :
  forallb (λ c, negb (c =? sep)%N) l = true →
  Utf16.split sep (l ++ sep :: rest) = l :: Utf16.split sep rest.
Proof.
  induction l as [|c l IH]; intros Hl.
  - simpl. by rewrite N.eqb_refl.
  - simpl in Hl. apply andb_true_iff in Hl as [Hc Hl].
    simpl. apply negb_true_iff in Hc. rewrite Hc. by rewrite IH.
Qed.

Lemma units_forallb_weaken (c1 c2 : N → bool) (s : text) :
  (∀ x, c1 x = true → c2 x = true) →
  forallb c1 s = true → forallb c2 s = true.
Proof.
  intros Hc. induction s as [|x s IH]; [done|]. simpl.
  rewrite !andb_true_iff. intros [Hx Hs]. split; auto.
Qed.

Lemma units_run_app c (s t : text) :
  forallb c s = true → Utf16.run c (s ++ t) = length s + Utf16.run c t.
Proof.
  induction s as [|x s IH]; [done|]. simpl.
  intros [Hx Hs]%andb_true_iff. by rewrite Hx, IH.
Qed.

Lemma units_run_head_out c t :
  Utf16.head_in c t = false → Utf16.run c t = 0.
Proof. destruct t as [|x t]; [done|]. simpl. by intros ->. Qed.

(** One atom consumes the whole block [p] when [p] lies in its class, is
    within the bounds, and either the class stops after [p] or [p] is as
    long as the quantifier allows. *)
Lemma units_exec_atom a r (p rest : text) caps :
  forallb (Utf16.cls a) p = true →
  Utf16.lo a ≤ length p →
  (Utf16.head_in (Utf16.cls a) rest = false ∧
     (∀ h, Utf16.hi a = Some h → length p ≤ h)
   ∨ Utf16.hi a = Some (length p)) →
  Utf16.exec r rest = Some caps →
  Utf16.exec (a :: r) (p ++ rest) = Some (p :: caps).
Proof.
  intros Hp Hlo Hstop Hrest. simpl.
  assert (Regex.cap (Utf16.hi a) (Utf16.run (Utf16.cls a) (p ++ rest))
          = length p) as ->.
  { rewrite units_run_app by done. destruct Hstop as [[Hout Hhi]|Hhi].
    - rewrite units_run_head_out by done. rewrite Nat.add_0_r.
      unfold Regex.cap. destruct (Utf16.hi a) as [h|]; [|done].
      specialize (Hhi h eq_refl). lia.
    - rewrite Hhi. simpl. lia. }
  apply backtrack_first; [done|].
  by rewrite take_app_length, drop_app_length, Hrest.
Qed.

Lemma units_exec_last a (p : text) :
  forallb (Utf16.cls a) p = true →
  Utf16.lo a ≤ length p →
  (∀ h, Utf16.hi a = Some h → length p ≤ h) →
  Utf16.exec [a] p = Some [p].
Proof.
  intros Hp Hlo Hhi. rewrite <- (app_nil_r p) at 1.
  apply units_exec_atom; [done..| |done]. left. by split.
Qed.

Lemma units_isDigest_inv d :
  Utf16.isDigest d = true → length d = 64 ∧ forallb Utf16.hex d = true.
Proof.
  unfold Utf16.isDigest. intros [Hlen Hhex]%andb_true_iff.
  by apply Nat.eqb_eq in Hlen.
Qed.

(** A digest, white space, an optional [*] and a file name are matched
    as digest and file name. *)
Lemma units_matchLine_fields (d ws st f : text) :
  Utf16.isDigest d = true →
  forallb Utf16.space ws = true → ws ≠ [] →
  (st = [] ∧ Utf16.head_in Utf16.space f = false
           ∧ Utf16.head_in Utf16.star f = false
   ∨ st = ofString "*") →
  f ≠ [] → forallb Utf16.dot f = true →
  Utf16.matchLine (d ++ ws ++ st ++ f) = Some (d, f).
Proof.
  intros [Hlen Hhex]%units_isDigest_inv Hws Hws0 Hst Hf Hdot.
  unfold Utf16.matchLine, Utf16.linePattern.
  assert (Utf16.exec [Utf16.plus Utf16.dot] f = Some [f]) as Hlast.
  { apply units_exec_last; [done| |done]. simpl. destruct f; [done|simpl; lia]. }
  assert (Utf16.exec [Utf16.opt Utf16.star; Utf16.plus Utf16.dot] (st ++ f)
          = Some [st; f]) as Hstar.
  { apply units_exec_atom; [| |  |done].
    - by destruct Hst as [(-> & _ & _)| ->].
    - simpl. lia.
    - destruct Hst as [(-> & _ & Hh)| ->]; [left|by right].
      split; [done|]. simpl. intros h [= <-]. lia. }
  assert (Utf16.exec [Utf16.plus Utf16.space; Utf16.opt Utf16.star;
                      Utf16.plus Utf16.dot] (ws ++ st ++ f)
          = Some [ws; st; f]) as Hspace.
  { apply units_exec_atom; [done| | |done].
    - simpl. destruct ws; [done|simpl; lia].
    - left. split; [|done]. by destruct Hst as [(-> & Hh & _)| ->]. }
  rewrite (units_exec_atom _ _ d (ws ++ st ++ f) [ws; st; f]);
    [done|done| |  |done].
  - simpl. lia.
  - right. simpl. by rewrite Hlen.
Qed.

Lemma units_readableName_inv f :
  Utf16.readableName f = true →
  f ≠ [] ∧ forallb Utf16.dot f = true
  ∧ Utf16.head_in Utf16.space f = false ∧ Utf16.head_in Utf16.star f = false.
Proof.
  unfold Utf16.readableName.
  rewrite !andb_true_iff, !negb_true_iff, bool_decide_eq_false. tauto.
Qed.

Lemma units_plainName_inv f :
  Utf16.plainName f = true →
  Utf16.readableName f = true ∧ f ≠ ofString "__proto__".
Proof.
  unfold Utf16.plainName.
  by rewrite !andb_true_iff, !negb_true_iff, bool_decide_eq_false.
Qed.

(** The line written for a readable file name is read back as it is. *)
Lemma units_matchLine_written d f :
  Utf16.isDigest d = true → Utf16.readableName f = true →
  Utf16.matchLine (d ++ ofString "  " ++ f) = Some (d, f).
Proof.
  intros Hd (Hf & Hdot & Hsp & Hst)%units_readableName_inv.
  apply (units_matchLine_fields d (ofString "  ") [] f); auto.
Qed.

Lemma units_hex_no_lf x :
  Utf16.hex x = true → negb (x =? lineFeed)%N = true.
Proof.
  destruct (N.eqb_spec x lineFeed) as [->|]; [|done]. by vm_compute.
Qed.

Lemma units_dot_no_lf x :
  Utf16.dot x = true → negb (x =? lineFeed)%N = true.
Proof.
  unfold Utf16.dot, lineTerminator, lineFeed.
  rewrite !negb_true_iff, !orb_false_iff. tauto.
Qed.

(** Setting the entries of a list one after the other builds its map. *)
Lemma units_for_of_insert (es : list (text * text)) :
  NoDup es.*1 →
  for_of es (λ e acc, <[e.1:=e.2]> acc) (∅ : gmap text text)
  = list_to_map es.
Proof.
  induction es as [|[k v] es IH] using rev_ind; intros Hnd; [done|].
  rewrite for_of_snoc. rewrite fmap_app in Hnd.
  apply NoDup_app in Hnd as (Hnd & Hk & _).
  rewrite IH by done. simpl. rewrite list_to_map_snoc; [done|].
  intros Hin. apply (Hk k Hin). simpl. left.
Qed.

Lemma units_sortedKeys_perm (m : gmap text text) :
  Utf16.sortedKeys m ≡ₚ (map_to_list m).*1.
Proof. apply merge_sort_Permutation. Qed.

Lemma units_sortedKeys_NoDup (m : gmap text text) : NoDup (Utf16.sortedKeys m).
Proof. rewrite units_sortedKeys_perm. apply NoDup_fst_map_to_list. Qed.

(** The sorted entries are the entries of the mapping, each once. *)
Lemma units_sortedEntries_perm (m : gmap text text) :
  Utf16.entryOf m <$> Utf16.sortedKeys m ≡ₚ map_to_list m.
Proof.
  rewrite units_sortedKeys_perm, <- list_fmap_compose.
  rewrite <- (list_fmap_id (map_to_list m)) at 2.
  apply eq_subrelation; [apply _|]. apply Forall_fmap_ext_1.
  apply Forall_forall. intros [k v] Hin. apply elem_of_map_to_list in Hin.
  unfold Utf16.entryOf. simpl. by rewrite Hin.
Qed.

Lemma units_sortedEntries_fst (m : gmap text text) :
  (Utf16.entryOf m <$> Utf16.sortedKeys m).*1 = Utf16.sortedKeys m.
Proof.
  rewrite <- list_fmap_compose.
  rewrite <- (list_fmap_id (Utf16.sortedKeys m)) at 2.
  by apply list_fmap_ext.
Qed.

Lemma units_manifestLines_entries (m : gmap text text) :
  Utf16.manifestLines m
  = Utf16.lineOf <$> (Utf16.entryOf m <$> Utf16.sortedKeys m).
Proof.
  unfold Utf16.manifestLines.
  rewrite (for_of_append (λ f, [Utf16.lineOf (Utf16.entryOf m f)])).
  - simpl. induction (Utf16.sortedKeys m) as [|f fs IH]; [done|]. simpl.
    by rewrite IH.
  - done.
Qed.

Lemma units_join_lines (ls : list text) :
  ls ≠ [] →
  joinWith [lineFeed] ls ++ [lineFeed]
  = foldr (λ l rest, l ++ [lineFeed] ++ rest) [] ls.
Proof.
  induction ls as [|l ls IH]; [done|]. intros _.
  destruct ls as [|l' ls'].
  - done.
  - change (joinWith [lineFeed] (l :: l' :: ls'))
      with (l ++ [lineFeed] ++ joinWith [lineFeed] (l' :: ls')).
    rewrite <- !app_assoc. rewrite IH by done. done.
Qed.

(** The content written is the specification's text of the sorted entries. *)
Lemma units_manifestContent_text (m : gmap text text) :
  m ≠ ∅ →
  Utf16.manifestContent m
  = Utf16.spec_manifestText (Utf16.entryOf m <$> Utf16.sortedKeys m).
Proof.
  intros Hne. unfold Utf16.manifestContent.
  rewrite units_manifestLines_entries. rewrite units_join_lines.
  - induction (Utf16.entryOf m <$> Utf16.sortedKeys m) as [|[f d] es IH];
      [done|].
    cbn [fmap list_fmap foldr Utf16.spec_manifestText]. rewrite IH.
    unfold Utf16.lineOf. simpl. by rewrite <- !app_assoc.
  - intros Hnil. apply fmap_nil_inv in Hnil. apply fmap_nil_inv in Hnil.
    apply Hne. apply map_to_list_empty_iff. apply Permutation_nil_r.
    rewrite <- (units_sortedEntries_perm m), Hnil. done.
Qed.

(** The text of a list of entries splits into its lines and a last, empty
    one. *)
Lemma units_split_manifestText (es : list (text * text)) :
  Forall (λ e, Utf16.isDigest e.2 = true ∧ forallb Utf16.dot e.1 = true) es →
  Utf16.split lineFeed (Utf16.spec_manifestText es)
  = (Utf16.lineOf <$> es) ++ [[]].
Proof.
  induction 1 as [|[f d] es [Hd Hf] _ IH]; [done|]. simpl in Hd, Hf.
  assert (Utf16.spec_manifestText ((f, d) :: es)
          = (d ++ ofString "  " ++ f)
            ++ lineFeed :: Utf16.spec_manifestText es) as ->.
  { simpl. by rewrite <- !app_assoc. }
  rewrite units_split_line.
  - by rewrite IH.
  - apply units_isDigest_inv in Hd as [_ Hd].
    rewrite !forallb_app.
    rewrite (units_forallb_weaken _ _ d units_hex_no_lf Hd).
    by rewrite (units_forallb_weaken _ _ f units_dot_no_lf Hf).
Qed.

(** Reading the text written from a mapping of digests under plain names
    sets exactly its entries. *)
Lemma units_read_written_manifest (m : gmap text text) :
  (∀ f d, m !! f = Some d →
     Utf16.isDigest d = true ∧ Utf16.plainName f = true) →
  Utf16.parseChecksums (Utf16.manifestContent m) = m.
Proof.
  intros Hm. unfold Utf16.parseChecksums.
  destruct (decide (m = ∅)) as [->|Hne].
  { unfold Utf16.manifestContent, Utf16.manifestLines, Utf16.sortedKeys.
    rewrite map_to_list_empty. by vm_compute. }
  rewrite units_manifestContent_text by done.
  set (es := Utf16.entryOf m <$> Utf16.sortedKeys m).
  assert (NoDup es.*1) as Hnd.
  { unfold es. rewrite units_sortedEntries_fst. apply units_sortedKeys_NoDup. }
  assert (∀ e, e ∈ es → Utf16.isDigest e.2 = true ∧ Utf16.plainName e.1 = true)
    as Hes.
  { intros [f d] Hin. unfold es in Hin.
    rewrite (units_sortedEntries_perm m) in Hin.
    apply elem_of_map_to_list in Hin. by apply Hm. }
  rewrite units_split_manifestText.
  - rewrite for_of_snoc.
    assert (Utf16.matchLine [] = None) as -> by (by vm_compute).
    rewrite <- (list_to_map_to_list m).
    rewrite <- (list_to_map_proper es (map_to_list m) Hnd
                  (units_sortedEntries_perm m)).
    rewrite <- units_for_of_insert by done.
    rewrite for_of_fmap. apply for_of_ext. intros [f d] acc Hin.
    destruct (Hes _ Hin) as [Hd [Hf Hproto]%units_plainName_inv].
    cbn [fst snd] in *.
    change (Utf16.lineOf (f, d)) with (d ++ ofString "  " ++ f).
    rewrite units_matchLine_written by done. cbn [fst snd].
    unfold Utf16.setProperty. by rewrite bool_decide_eq_false_2.
  - apply Forall_forall. intros [f d] Hin.
    destruct (Hes _ Hin) as [Hd [Hf _]%units_plainName_inv]. split; [done|].
    by apply units_readableName_inv in Hf as (_ & Hdot & _).
Qed.

(** C6, as the code has it. For every digest mapping whose file names
    are plain (not empty, without any of the four line terminators: line
    feed, carriage return, line separator U+2028, paragraph separator
    U+2029; not starting with white space or with the marker [*]; and not
    [__proto__]), writing the manifest text and reading it with
    [parseChecksums] gives back the mapping.  Strings are sequences of
    UTF-16 code units. *)
Theorem parse_written_manifest (m : gmap text text)
    (Hm : ∀ f d, m !! f = Some d →
            Utf16.isDigest d = true ∧ Utf16.plainName f = true) :
  Utf16.parseChecksums (Utf16.manifestContent m) = m.
Proof. by apply units_read_written_manifest. Qed.

Lemma parse_written_manifest_witness :
  Utf16.parseChecksums (Utf16.manifestContent plain_manifest) = plain_manifest.
Proof.
  apply (parse_written_manifest plain_manifest).
  intros f d Hfd. unfold plain_manifest in Hfd.
  apply lookup_singleton_Some in Hfd as [<- <-].
  split; vm_compute; reflexivity.
Defined.

(** C6, as stated, fails: a file name without any line feed that starts
    with [*] is read back without the [*], and a file name without any
    line feed that holds a line separator is not read back at all. *)
Lemma round_trip_loses_leading_star :
  (∀ f d, starred_manifest !! f = Some d ∨ separated_manifest !! f = Some d →
     Utf16.isDigest d = true
     ∧ forallb (λ c, negb (c =? lineFeed)%N) f = true)
  ∧ Utf16.parseChecksums (Utf16.manifestContent starred_manifest)
    = {[ ofString "notes.txt" := Utf16.digestA ]}
  ∧ Utf16.parseChecksums (Utf16.manifestContent starred_manifest)
    ≠ starred_manifest
  ∧ Utf16.parseChecksums (Utf16.manifestContent separated_manifest) = ∅
  ∧ separated_manifest ≠ ∅.
Proof.
  split; [|split; [|split; [|split]]].
  - unfold starred_manifest, separated_manifest.
    intros f d [Hfd|Hfd]; apply lookup_singleton_Some in Hfd as [<- <-];
      split; vm_compute; reflexivity.
  - by vm_compute.
  - intros Heq.
    apply (f_equal (λ x : gmap text text, x !! ofString "notes.txt")) in Heq.
    vm_compute in Heq. discriminate.
  - by vm_compute.
  - apply insert_non_empty.
Qed.

End Utf16Facts.

(** ** The parser on strings of code units below 256

    On such strings the parser of [Checksums] is the parser on code units. *)

Section Utf16Bridge.
Import Js Utf16.

Lemma ofString_String c s : ofString (String c s) = N_of_ascii c :: ofString s.
Proof. done. Qed.

Lemma ofString_app s t : ofString (s +:+ t) = ofString s ++ ofString t.
Proof.
  induction s as [|c s IH]; [done|].
  rewrite app_String, !ofString_String, IH. done.
Qed.

Lemma ofString_inj s t : ofString s = ofString t → s = t.
Proof.
  revert t. induction s as [|c s IH]; intros [|c' t]; try done.
  rewrite !ofString_String. intros [= Hc Hs].
  apply (f_equal ascii_of_N) in Hc. rewrite !ascii_N_embedding in Hc.
  subst c'. f_equal. by apply IH.
Qed.

Lemma ofString_take n s : ofString (Regex.take n s) = take n (ofString s).
Proof.
  revert s. induction n as [|n IH]; intros [|c s]; try done.
  change (Regex.take (S n) (String c s)) with (String c (Regex.take n s)).
  rewrite !ofString_String.
  change (take (S n) (N_of_ascii c :: ofString s))
    with (N_of_ascii c :: take n (ofString s)).
  by rewrite IH.
Qed.

Lemma ofString_drop n s : ofString (Regex.drop n s) = drop n (ofString s).
Proof.
  revert s. induction n as [|n IH]; intros [|c s]; try done.
  change (Regex.drop (S n) (String c s)) with (Regex.drop n s).
  rewrite ofString_String.
  change (drop (S n) (N_of_ascii c :: ofString s)) with (drop n (ofString s)).
  apply IH.
Qed.

Lemma hex_ofAscii c : Utf16.hex (N_of_ascii c) = Regex.hex c.
Proof. by destruct c as [[] [] [] [] [] [] [] []]. Qed.

Lemma space_ofAscii c : Utf16.space (N_of_ascii c) = Regex.space c.
Proof. by destruct c as [[] [] [] [] [] [] [] []]. Qed.

Lemma star_ofAscii c : Utf16.star (N_of_ascii c) = Regex.star c.
Proof. by destruct c as [[] [] [] [] [] [] [] []]. Qed.

Lemma dot_ofAscii c : Utf16.dot (N_of_ascii c) = Regex.dot c.
Proof. by destruct c as [[] [] [] [] [] [] [] []]. Qed.

Lemma run_ofString (cw : N → bool) (ca : ascii → bool) s :
  (∀ c, cw (N_of_ascii c) = ca c) →
  Utf16.run cw (ofString s) = Regex.run ca s.
Proof.
  intros Hc. induction s as [|c s IH]; [done|].
  rewrite ofString_String. simpl. by rewrite Hc, IH.
Qed.

Lemma backtrack_fmap {A B} (h : A → B) (tryA : nat → option A)
    (tryB : nat → option B) lo k :
  (∀ n, tryB n = h <$> tryA n) →
  Regex.backtrack tryB lo k = h <$> Regex.backtrack tryA lo k.
Proof.
  intros Htry. induction k as [|k IH]; simpl.
  - destruct (0 <? lo); [done|]. rewrite Htry. by destruct (tryA 0).
  - destruct (S k <? lo); [done|]. rewrite Htry. by destruct (tryA (S k)).
Qed.

Lemma exec_ofString (rw : list Utf16.atom) (ra : list Regex.atom) s :
  Forall2 widens rw ra →
  Utf16.exec rw (ofString s)
  = fmap (M:=option) (fmap (M:=list) ofString) (Regex.exec ra s).
Proof.
  intros Hr. revert s. induction Hr as [|w a rw ra (Hc & Hlo & Hhi) _ IH];
    intros s.
  - simpl. destruct s as [|c s]; done.
  - simpl. rewrite Hlo, Hhi, (run_ofString _ _ s Hc).
    apply backtrack_fmap. intros n.
    rewrite <- ofString_drop, IH, <- ofString_take.
    by destruct (Regex.exec ra (Regex.drop n s)).
Qed.

Lemma linePattern_widens :
  Forall2 widens Utf16.linePattern Checksums.linePattern.
Proof.
  repeat constructor; simpl;
    auto using hex_ofAscii, space_ofAscii, star_ofAscii, dot_ofAscii.
Qed.

Lemma matchLine_ofString s :
  Utf16.matchLine (ofString s)
  = prod_map ofString ofString <$> Checksums.matchLine s.
Proof.
  unfold Utf16.matchLine, Checksums.matchLine.
  rewrite (exec_ofString _ _ s linePattern_widens).
  destruct (Regex.exec Checksums.linePattern s) as [caps|]; [|done].
  by destruct caps as [|h [|? [|? [|f [|]]]]].
Qed.

Lemma split_ofString sep s :
  Utf16.split (N_of_ascii sep) (ofString s) = ofString <$> Js.split sep s.
Proof.
  induction s as [|c s IH]; [done|]. rewrite ofString_String. simpl.
  assert ((N_of_ascii c =? N_of_ascii sep)%N = Ascii.eqb c sep) as ->.
  { destruct (Ascii.eqb_spec c sep) as [->|Hne]; [apply N.eqb_refl|].
    apply N.eqb_neq. intros Heq. apply Hne.
    apply (f_equal ascii_of_N) in Heq. by rewrite !ascii_N_embedding in Heq. }
  destruct (Ascii.eqb c sep); rewrite IH; [done|].
  by destruct (Js.split sep s).
Qed.

(** The mapping read from a text of code units below 256 is the mapping
    that [Checksums.parseChecksums] reads, name by name. *)
Lemma parseChecksums_ofString s :
  Utf16.parseChecksums (ofString s)
  = kmap ofString (ofString <$> Checksums.parseChecksums s).
Proof.
  assert (Inj (=) (=) ofString) as Hinj by exact ofString_inj.
  unfold Utf16.parseChecksums, Checksums.parseChecksums.
  change lineFeed with (N_of_ascii "010"). rewrite split_ofString.
  induction (Js.split "010" s) as [|line lines IH] using rev_ind.
  - unfold for_of. simpl. by rewrite fmap_empty, kmap_empty.
  - rewrite fmap_app. simpl. rewrite !for_of_snoc, IH, matchLine_ofString.
    destruct (Checksums.matchLine line) as [[hash filename]|]; [|done].
    simpl. unfold Utf16.setProperty, Checksums.setProperty.
    destruct (String.eqb_spec filename "__proto__") as [->|Hne].
    + by rewrite bool_decide_eq_true_2.
    + rewrite bool_decide_eq_false_2 by (intros Heq; by apply Hne, Hinj).
      by rewrite fmap_insert, (kmap_insert ofString).
Qed.

End Utf16Bridge.


(** ** Checksum repair *)

Section RepairFacts.
Import Js Checksums Repair.

Lemma computeMissing_cons remote a missing acc :
  computeMissing remote (a :: missing) acc
  = computeMissing remote missing
      (match computeRemoteSha256 remote (browser_download_url a) with
       | Returns sha256 => <[name a:=sha256]> acc
       | Throws _ => acc
       end).
Proof. reflexivity. Qed.

(** Every entry of the result was there before or was computed. *)
Lemma computeMissing_inv remote missing acc f d :
  computeMissing remote missing acc !! f = Some d →
  acc !! f = Some d
  ∨ ∃ a, a ∈ missing ∧ name a = f
         ∧ computeRemoteSha256 remote (browser_download_url a) = Returns d.
Proof.
  revert acc. induction missing as [|a missing IH]; intros acc Hres; [by left|].
  rewrite computeMissing_cons in Hres. apply IH in Hres as [Hacc|(b & Hb & Hn & Hd)].
  - destruct (computeRemoteSha256 remote (browser_download_url a)) as [s|e] eqn:Hc;
      [|by left].
    destruct (decide (name a = f)) as [Heq|Hne].
    + rewrite Heq, lookup_insert_eq in Hacc. injection Hacc as ->.
      right. exists a. split; [left|done].
    + rewrite lookup_insert_ne in Hacc by done. by left.
  - right. exists b. split; [by right|done].
Qed.

(** Entries under names that are not recomputed stay as they are. *)
Lemma computeMissing_keep remote missing acc f :
  (∀ a, a ∈ missing → name a ≠ f) →
  computeMissing remote missing acc !! f = acc !! f.
Proof.
  revert acc. induction missing as [|a missing IH]; intros acc Hother; [done|].
  rewrite computeMissing_cons, IH.
  - destruct (computeRemoteSha256 remote (browser_download_url a)); [|done].
    apply lookup_insert_ne, Hother. left.
  - intros b Hb. apply Hother. by right.
Qed.

Lemma computeMissing_mono remote missing acc f :
  is_Some (acc !! f) → is_Some (computeMissing remote missing acc !! f).
Proof.
  revert acc. induction missing as [|a missing IH]; intros acc Hacc; [done|].
  rewrite computeMissing_cons. apply IH.
  destruct (computeRemoteSha256 remote (browser_download_url a)); [|done].
  rewrite lookup_insert. case_decide; [by eexists|done].
Qed.

(** An asset whose digest was computed has an entry. *)
Lemma computeMissing_added remote missing acc a d :
  a ∈ missing →
  computeRemoteSha256 remote (browser_download_url a) = Returns d →
  is_Some (computeMissing remote missing acc !! name a).
Proof.
  revert acc. induction missing as [|b missing IH]; intros acc Hin Hd.
  - by apply elem_of_nil in Hin.
  - rewrite computeMissing_cons. apply elem_of_cons in Hin as [<-|Hin].
    + apply computeMissing_mono. rewrite Hd, lookup_insert_eq. by eexists.
    + by apply IH.
Qed.

Lemma elem_of_missingAssets existing release a :
  a ∈ missingAssets existing release
  ↔ a ∈ binaryAssets release ∧ existing !! name a = None.
Proof.
  unfold missingAssets. rewrite list_elem_of_filter.
  rewrite negb_True, bool_decide_spec, <- eq_None_not_Some. tauto.
Qed.

Lemma repairRelease_Some remote dryRun release updated :
  repairRelease remote dryRun release = Some updated →
  dryRun = false
  ∧ updated = computeMissing remote
      (missingAssets (fetchChecksums remote (tag_name release)) release)
      (fetchChecksums remote (tag_name release)).
Proof.
  unfold repairRelease. repeat case_bool_decide; try done.
  destruct dryRun; [done|]. by intros [= <-].
Qed.

Lemma repairRelease_complete remote dryRun release :
  missingAssets (fetchChecksums remote (tag_name release)) release = [] →
  repairRelease remote dryRun release = None.
Proof.
  intros Hmissing. unfold repairRelease. rewrite Hmissing.
  by repeat case_bool_decide.
Qed.

(** The manifest read back after an upload is the mapping uploaded. *)
Lemma fetchChecksums_upload remote tag (m : gmap string string) :
  (∀ f d, m !! f = Some d → isDigest d = true ∧ readableName f = true) →
  fetchChecksums (upload remote tag (manifestContent m)) tag = m.
Proof.
  intros Hm. unfold fetchChecksums, upload. simpl. rewrite String.eqb_refl.
  apply (read_written_manifest (λ k v, insert k v)).
  intros f d Hfd. destruct (Hm f d Hfd) as [Hd Hf]. by repeat split.
Qed.

(** After a repair that computed every missing digest, a second run finds
    the release complete and publishes nothing. *)
Lemma repair_then_complete remote release updated :
  repairRelease remote false release = Some updated →
  (∀ f d, updated !! f = Some d → isDigest d = true ∧ readableName f = true) →
  (∀ a, a ∈ binaryAssets release → is_Some (updated !! name a)) →
  repairRelease (upload remote (tag_name release) (manifestContent updated))
                false release
  = None.
Proof.
  intros _ Hplain Hall. apply repairRelease_complete.
  rewrite fetchChecksums_upload by done.
  destruct (missingAssets updated release) as [|a rest] eqn:Hmissing; [done|].
  assert (a ∈ missingAssets updated release) as Ha by (rewrite Hmissing; left).
  apply elem_of_missingAssets in Ha as [Ha Hnone].
  destruct (Hall a Ha) as [d Hd]. congruence.
Qed.

(** Every digest read from a manifest is 64 lowercase hexadecimal digits. *)
Lemma fetchChecksums_digests remote tag f d :
  fetchChecksums remote tag !! f = Some d → isDigest d = true.
Proof.
  unfold fetchChecksums. destruct (manifestText remote tag) as [content|]; [|done].
  revert f d.
  apply (for_of_invariant
           (λ m : gmap string string, ∀ f d, m !! f = Some d → isDigest d = true)).
  - intros f d. by rewrite lookup_empty.
  - intros line acc _ Hacc f d.
    destruct (matchLine line) as [[hash filename]|] eqn:Hline; [|by apply Hacc].
    apply matchLine_sound in Hline as (_ & _ & _ & Hhash & _).
    rewrite lookup_insert. case_decide; [by intros [= <-]|by apply Hacc].
Qed.

(** So is every digest of a published manifest, when the digests computed
    are. *)
Lemma repairRelease_digests remote dryRun release updated :
  (∀ url d, remoteSha256 remote url = Returns d → isDigest d = true) →
  repairRelease remote dryRun release = Some updated →
  ∀ f d, updated !! f = Some d → isDigest d = true.
Proof.
  intros Hsha [_ ->]%repairRelease_Some f d Hfd.
  apply computeMissing_inv in Hfd as [Hfd|(a & _ & _ & Hd)].
  - by eapply fetchChecksums_digests.
  - by eapply Hsha.
Qed.

Lemma manifestLines_elem (m : gmap string string) f d :
  m !! f = Some d → d +:+ "  " +:+ f ∈ manifestLines m.
Proof.
  intros Hfd. rewrite manifestLines_entries, <- list_fmap_compose.
  apply list_elem_of_fmap. exists f. split.
  - unfold lineOf, entryOf. simpl. by rewrite Hfd.
  - apply sortedKeys_elem. by eexists.
Qed.

(** C3, as the code has it. Repair only adds: an entry of the existing
    manifest is in the published one with the same digest; the entries
    added are those of the missing binary assets whose digest could be
    computed (an asset whose transfer fails is skipped); when no binary
    asset is missing nothing is published, a second run included; on
    Scenario C both entries are published and the digest of the linux-x64
    entry is the one that was there. *)
Theorem repair_is_additive (remote : Remote) (release : GitHubRelease) :
  let existing := fetchChecksums remote (tag_name release) in
  (∀ dryRun, missingAssets existing release = [] →
     published remote dryRun release = None
     ∧ main remote dryRun None [release] = (remote, [])
     ∧ main (main remote dryRun None [release]).1 dryRun None [release]
       = (remote, []))
  ∧ (∀ updated, repairRelease remote false release = Some updated →
     published remote false release = Some (manifestContent updated)
     ∧ (∀ f d, existing !! f = Some d →
          updated !! f = Some d ∧ d +:+ "  " +:+ f ∈ manifestLines updated)
     ∧ (∀ f, existing !! f = None →
          (is_Some (updated !! f)
           ↔ ∃ a d, a ∈ binaryAssets release ∧ name a = f
               ∧ computeRemoteSha256 remote (browser_download_url a)
                 = Returns d))
     ∧ (∀ f d, existing !! f = None → updated !! f = Some d →
          ∃ a, a ∈ binaryAssets release ∧ name a = f
               ∧ computeRemoteSha256 remote (browser_download_url a)
                 = Returns d))
  ∧ published scenarioC_remote false scenarioC_release
    = Some (digestA +:+ "  server-linux-x64.tar.gz" +:+ String "010" ""
            +:+ digestB +:+ "  server-win32-x64.zip" +:+ String "010" "").
Proof.
  intros existing. split; [|split].
  - intros dryRun Hmissing.
    assert (published remote dryRun release = None) as Hnone.
    { unfold published. by rewrite repairRelease_complete. }
    assert (main remote dryRun None [release] = (remote, [])) as Hmain.
    { unfold main, for_of. simpl. by rewrite Hnone. }
    by rewrite !Hmain.
  - intros updated Hrepair.
    split; [unfold published; by rewrite Hrepair|].
    apply repairRelease_Some in Hrepair as [_ ->]. fold existing.
    assert (∀ f d, existing !! f = Some d →
      computeMissing remote (missingAssets existing release) existing !! f
      = Some d) as Hkeep.
    { intros f d Hfd. rewrite computeMissing_keep; [done|].
      intros a [_ Ha]%elem_of_missingAssets Heq. congruence. }
    split; [|split].
    + intros f d Hfd. split; [by apply Hkeep|].
      apply manifestLines_elem. by apply Hkeep.
    + intros f Hf. split.
      * intros [d Hd]. apply computeMissing_inv in Hd as [Hd|(a & Ha & Hn & Hd)].
        { congruence. }
        apply elem_of_missingAssets in Ha as [Ha _]. eauto.
      * intros (a & d & Ha & <- & Hd).
        eapply computeMissing_added; [|done].
        by apply elem_of_missingAssets.
    + intros f d Hf Hd. apply computeMissing_inv in Hd as [Hd|(a & Ha & Hn & Hd)].
      { congruence. }
      apply elem_of_missingAssets in Ha as [Ha _]. eauto.
  - by vm_compute.
Qed.

Lemma repair_is_additive_witness :
  published scenarioC_remote false complete_release = None
  ∧ ∃ updated,
      repairRelease scenarioC_remote false scenarioC_release = Some updated
      ∧ updated !! "server-linux-x64.tar.gz" = Some digestA.
Proof.
  split.
  - apply (proj1 (repair_is_additive scenarioC_remote complete_release) false).
    by vm_compute.
  - destruct (repairRelease scenarioC_remote false scenarioC_release)
      as [updated|] eqn:Hrepair; [|by vm_compute in Hrepair].
    exists updated. split; [done|].
    apply (proj1 (proj2 (proj1 (proj2
             (repair_is_additive scenarioC_remote scenarioC_release))
             updated Hrepair))).
    by vm_compute.
Defined.

(** C3, as stated, fails: when the transfer of a missing asset fails the
    manifest is published without an entry for it. *)
Lemma repair_skips_failed_transfer :
  name <$> missingAssets (fetchChecksums offline_remote "server-1.0.0")
                         scenarioC_release
    = ["server-win32-x64.zip"]
  ∧ ∃ updated,
      repairRelease offline_remote false scenarioC_release = Some updated
      ∧ updated !! "server-win32-x64.zip" = None
      ∧ published offline_remote false scenarioC_release
        = Some (digestA +:+ "  server-linux-x64.tar.gz" +:+ String "010" "").
Proof.
  split; [by vm_compute|].
  destruct (repairRelease offline_remote false scenarioC_release)
    as [updated|] eqn:Hrepair; [|by vm_compute in Hrepair].
  exists updated. split; [done|].
  assert (published offline_remote false scenarioC_release
          = Some (digestA +:+ "  server-linux-x64.tar.gz" +:+ String "010" ""))
    as Hpub by (by vm_compute).
  split; [|done].
  apply repairRelease_Some in Hrepair as [_ ->]. by vm_compute.
Qed.

End RepairFacts.

(** ** Platform detection and asset classification *)

Section PlatformFacts.
Import Js Platform Repair.

Lemma find_is_Some {A} (t : A → bool) (xs : list A) :
  is_Some (find t xs) ↔ ∃ x, x ∈ xs ∧ t x = true.
Proof.
  induction xs as [|x xs IH]; simpl.
  - split; [by intros [? ?]|]. intros (x & Hx & _). by apply elem_of_nil in Hx.
  - destruct (t x) eqn:Hx.
    + split; [|by eexists]. intros _. exists x. split; [left|done].
    + rewrite IH. split.
      * intros (y & Hy & Hty). exists y. split; [by right|done].
      * intros (y & Hy & Hty). apply elem_of_cons in Hy as [->|Hy]; [congruence|].
        eauto.
Qed.

(** C9, as the code has it. Detection returns one of four identifiers,
    [os-arch], exactly for the four host tuples linux/x64, linux/arm64,
    darwin/arm64 and win32/x64, and raises for every other tuple,
    darwin/x64 included; an asset is classified as a binary exactly when
    it is not the manifest and its name contains one of the five
    identifiers of [PLATFORMS]. *)
Theorem detectPlatform_supported (os arch : string) :
  ((os, arch) ∈ supportedHosts
     ↔ detectPlatform os arch = Returns (os +:+ "-" +:+ arch))
  ∧ ((os, arch) ∉ supportedHosts ↔ ∃ e, detectPlatform os arch = Throws e)
  ∧ (∀ p, detectPlatform os arch = Returns p → p ∈ SUPPORTED_PLATFORMS)
  ∧ SUPPORTED_PLATFORMS
    = ["linux-x64"; "linux-arm64"; "darwin-arm64"; "win32-x64"]
  ∧ PLATFORMS
    = ["linux-x64"; "linux-arm64"; "darwin-x64"; "darwin-arm64"; "win32-x64"]
  ∧ (∀ filename,
       is_Some (extractPlatform filename)
       ↔ ∃ p, p ∈ PLATFORMS ∧ includes filename p = true)
  ∧ (∀ release a,
       a ∈ binaryAssets release
       ↔ a ∈ assets release ∧ name a ≠ "checksums.txt"
         ∧ ∃ p, p ∈ PLATFORMS ∧ includes (name a) p = true).
Proof.
  assert (∀ p, p ∈ supportedHosts ↔
            p = ("linux", "x64") ∨ p = ("linux", "arm64")
            ∨ p = ("darwin", "arm64") ∨ p = ("win32", "x64")) as Hhosts.
  { intros p. unfold supportedHosts. rewrite !elem_of_cons, elem_of_nil. tauto. }
  assert ((os, arch) ∈ supportedHosts
          ∧ detectPlatform os arch = Returns (os +:+ "-" +:+ arch)
          ∧ (os +:+ "-" +:+ arch) ∈ SUPPORTED_PLATFORMS
          ∨ ((os, arch) ∉ supportedHosts)
            ∧ (∃ e, detectPlatform os arch = Throws e)) as Hcases.
  { unfold detectPlatform.
    destruct (String.eqb_spec os "linux") as [->|Hl];
    destruct (String.eqb_spec arch "x64") as [->|Hx]; simpl.
    1: { left. rewrite Hhosts. split; [tauto|]. split; [done|]. by left. }
    2: { destruct (String.eqb_spec os "darwin") as [->|Hd]; simpl.
         - right. rewrite Hhosts. split; [|by eexists].
           intros [?|[?|[?|?]]]; congruence.
         - destruct (String.eqb_spec os "win32") as [->|Hw]; simpl.
           + left. rewrite Hhosts. split; [tauto|]. split; [done|].
             do 3 right. left.
           + right. rewrite Hhosts. split; [|by eexists].
             intros [?|[?|[?|?]]]; congruence. }
    - destruct (String.eqb_spec arch "arm64") as [->|Ha]; simpl.
      + left. rewrite Hhosts. split; [tauto|]. split; [done|]. right. left.
      + right. rewrite Hhosts. split; [|by eexists].
        intros [?|[?|[?|?]]]; congruence.
    - destruct (String.eqb_spec os "darwin") as [->|Hd];
      destruct (String.eqb_spec arch "arm64") as [->|Ha]; simpl.
      + left. rewrite Hhosts. split; [tauto|]. split; [done|].
        do 2 right. left.
      + right. rewrite Hhosts. split; [|by eexists].
        intros [?|[?|[?|?]]]; congruence.
      + right. rewrite Hhosts.
        split; [intros [?|[?|[?|?]]]; congruence|].
        destruct (String.eqb_spec os "win32"); by eexists.
      + right. rewrite Hhosts.
        split; [intros [?|[?|[?|?]]]; congruence|].
        destruct (String.eqb_spec os "win32"); by eexists. }
  split; [|split; [|split; [|split; [done|split; [done|split]]]]].
  - destruct Hcases as [(Hin & Hret & _)|(Hout & e & He)]; [done|].
    split; [done|]. congruence.
  - destruct Hcases as [(Hin & Hret & _)|(Hout & e & He)].
    + split; [done|]. intros [e He]. congruence.
    + split; [by eexists|done].
  - intros p Hp. destruct Hcases as [(Hin & Hret & Hsup)|(Hout & e & He)];
      congruence.
  - intros filename. unfold extractPlatform. apply find_is_Some.
  - intros release a. unfold binaryAssets. rewrite list_elem_of_filter.
    rewrite andb_True, negb_True, bool_decide_spec.
    unfold extractPlatform. rewrite find_is_Some.
    rewrite Is_true_true, String.eqb_eq. tauto.
Qed.

(** C9, as stated, fails: darwin/x64 is one of the five tuples the
    identifiers name, and detection raises on it. *)
Lemma detectPlatform_darwin_x64_raises :
  "darwin-x64" ∈ PLATFORMS
  ∧ detectPlatform "darwin" "x64"
    = Throws ("Unsupported platform: darwin-x64. Supported platforms: "
              +:+ "linux-x64, linux-arm64, darwin-arm64, win32-x64").
Proof. split; [|done]. unfold PLATFORMS. do 2 right. left. Qed.

End PlatformFacts.

(** ** The download pipeline *)

Section DownloadFacts.
Import Js Download.

(** The loop hashes the chunks and ends with the transport error, if
    there is one. *)
Lemma readAll_result env options total pending failure hashed downloaded w :
  let data := foldr String.append "" pending in
  (readAll env options total pending failure hashed downloaded w).1
  = match failure with
    | Some error => Throws error
    | None => Returns (hashed +:+ data, downloaded + String.length data)
    end.
Proof.
  revert hashed downloaded w.
  induction pending as [|value pending IH]; intros hashed downloaded w.
  - simpl. rewrite !app_empty_r, Nat.add_0_r. by destruct failure.
  - simpl. unfold bind, write, report. simpl. rewrite IH.
    destruct failure; [done|].
    by rewrite app_assoc_str, app_length_str, Nat.add_assoc.
Qed.

(** With the file open, the loop appends the chunks to it. *)
Lemma readAll_run env options total pending failure hashed downloaded w c :
  opened env = true →
  files w !! destination options = Some c →
  files (readAll env options total pending failure hashed downloaded w).2
  = <[destination options:=c +:+ foldr String.append "" pending]> (files w).
Proof.
  intros Hopen. revert hashed downloaded w c.
  induction pending as [|value pending IH]; intros hashed downloaded w c Hc.
  - simpl. rewrite app_empty_r. rewrite insert_id by done. by destruct failure.
  - simpl. unfold bind, write, report. rewrite Hopen. simpl.
    set (w1 := if onProgress options then _ else _).
    assert (files w1 = <[destination options:=c +:+ value]> (files w)) as Hw1.
    { unfold w1. rewrite Hc. by destruct (onProgress options). }
    rewrite (IH _ _ w1 (c +:+ value)) by (by rewrite Hw1, lookup_insert_eq).
    by rewrite Hw1, insert_insert_eq, app_assoc_str.
Qed.

(** With the file not open yet, the loop changes no file. *)
Lemma readAll_kept env options total pending failure hashed downloaded w :
  opened env = false →
  files (readAll env options total pending failure hashed downloaded w).2
  = files w.
Proof.
  intros Hopen. revert hashed downloaded w.
  induction pending as [|value pending IH]; intros hashed downloaded w.
  - simpl. by destruct failure.
  - simpl. unfold bind, write, report. rewrite Hopen. simpl. rewrite IH.
    by destruct (onProgress options).
Qed.

(** The loop reads the destination and the callback of the options only. *)
Lemma readAll_ext env o1 o2 total pending failure hashed downloaded w :
  destination o1 = destination o2 → onProgress o1 = onProgress o2 →
  readAll env o1 total pending failure hashed downloaded w
  = readAll env o2 total pending failure hashed downloaded w.
Proof.
  intros Hd Hp. revert hashed downloaded w.
  induction pending as [|value pending IH]; intros hashed downloaded w; [done|].
  simpl. unfold bind, write, report. rewrite Hd, Hp. simpl. apply IH.
Qed.

(** Both forms of an expected checksum are compared on the digest they
    carry. *)
Lemma expectedOf_carries e hex :
  carries e hex → expectedOf e = hex ∧ defined (Some e) = Some e.
Proof.
  intros [h Hne Hh|a h Ha Hh]; unfold expectedOf, defined.
  - rewrite includes_no_sep by done. split; [done|].
    unfold truthy. apply String.eqb_neq in Hne. by rewrite Hne.
  - change (a +:+ ":" +:+ h) with (a +:+ String ":" h).
    rewrite includes_sep, split_line, split_no_sep by done. split; [done|].
    by rewrite truthy_app.
Qed.

(** The call on a response with a body, by the way the stream ends. *)
Lemma downloadFile_stream env options w response b :
  fetch env (url options) = Returns response →
  ok response = true → body response = Some b →
  let data := bytesOf b in
  let algorithm := default sha256 (checksumAlgorithm options) in
  let actual := digestHex env algorithm data in
  let result :=
    mkResult (destination options) (String.length data)
             (algorithmName algorithm +:+ ":" +:+ actual) in
  let r := downloadFile env options w in
  match failure b with
  | Some error =>
      r.1 = Throws error
      ∧ files r.2
        = (if opened env
           then afterUnlink env (destination options)
                  (<[destination options:=data]> (files w))
           else <[destination options:=""]> (files w))
  | None =>
      match streamError env with
      | Some error =>
          r.1 = Throws error
          ∧ files r.2
            = afterUnlink env (destination options)
                (<[destination options:=if opened env then data else ""]>
                   (files w))
      | None =>
          match defined (expectedChecksum options) with
          | Some e =>
              if String.eqb actual (expectedOf e)
              then r.1 = Returns result
                   ∧ files r.2 = <[destination options:=data]> (files w)
              else r.1 = Throws ("Checksum mismatch for " +:+ url options
                                 +:+ ". " +:+ "Expected: " +:+ expectedOf e
                                 +:+ ", got: " +:+ actual)
                   ∧ files r.2
                     = afterUnlink env (destination options)
                         (<[destination options:=data]> (files w))
          | None =>
              r.1 = Returns result
              ∧ files r.2 = <[destination options:=data]> (files w)
          end
      end
  end.
Proof.
  intros Hfetch Hok Hbody data algorithm actual result r.
  unfold r, downloadFile, bind, try_catch, lift, mkdir, destroy, finish,
    createWriteStream, unlink, landOpen, throw, ret.
  cbn beta iota. rewrite Hfetch. cbn beta iota. rewrite Hok. cbn [negb].
  cbn beta iota. rewrite Hbody. cbn beta iota.
  set (w1 := if opened env then _ else w).
  pose proof (readAll_result env options (default 0 (contentLength response))
                (chunks b) (failure b) "" 0 w1) as Hres.
  cbv zeta in Hres. rewrite app_empty_l in Hres. fold (bytesOf b) in Hres.
  fold data in Hres.
  assert (files (readAll env options (default 0 (contentLength response))
                   (chunks b) (failure b) "" 0 w1).2
          = if opened env then <[destination options:=data]> (files w)
            else files w) as Hfiles.
  { unfold w1. destruct (opened env) eqn:Hopen.
    - rewrite (readAll_run _ _ _ _ _ _ _ _ "" Hopen)
        by (simpl; apply lookup_insert_eq).
      simpl. by rewrite insert_insert_eq.
    - by apply readAll_kept. }
  destruct (readAll env options (default 0 (contentLength response))
              (chunks b) (failure b) "" 0 w1) as [res w2].
  simpl in Hres, Hfiles. subst res.
  destruct (failure b) as [error|].
  { rewrite bool_decide_eq_true_2 by (by eexists). rewrite andb_true_r.
    simpl. split; [done|]. rewrite Hfiles.
    destruct (opened env); simpl; [done|].
    unfold afterUnlink. destruct (unlinkError env); [done|].
    by rewrite insert_delete_eq. }
  rewrite bool_decide_eq_false_2 by (by intros [? ?]). rewrite andb_false_r.
  cbn beta iota. cbn [fst snd].
  destruct (streamError env) as [error|].
  { simpl. split; [done|]. destruct (opened env); simpl; by rewrite Hfiles. }
  cbn beta iota. cbn [fst snd]. fold algorithm. fold actual. fold result.
  assert ((if opened env then w2
           else mkWorld (<[destination options:=data]> (files w2)) (progress w2))
          = mkWorld (<[destination options:=data]> (files w)) (progress w2))
    as Hlanded.
  { destruct (opened env).
    - destruct w2 as [fs ps]. simpl in *. by subst fs.
    - by rewrite Hfiles. }
  rewrite Hlanded.
  destruct (defined (expectedChecksum options)) as [e|]; [|done].
  destruct (String.eqb actual (expectedOf e)); simpl; done.
Qed.

Lemma afterUnlink_removed env path fs x :
  unlinkError env = None →
  afterUnlink env path (<[path:=x]> fs) = delete path fs.
Proof. intros Hu. unfold afterUnlink. by rewrite Hu, delete_insert_eq. Qed.

(** C2, as the code has it. A transport error in the middle of the
    stream is raised again, and an expected digest that differs from the
    computed one makes the call fail with both in the message.  In both
    cases the call asks for the file to be removed and ignores a refusal:
    when [unlink] succeeds the destination is gone (after a transport
    error, provided the stream had opened the file), and when it is
    refused after a mismatch the bytes received stay.  With the expected
    digest equal to the computed one the call succeeds and the
    destination holds the bytes received, whose digest is the expected
    one. *)
Theorem downloadFile_integrity (env : Env) (options : DownloadOptions)
    (w : World) (response : Response) (b : Body)
    (Hfetch : fetch env (url options) = Returns response)
    (Hok : ok response = true)
    (Hbody : body response = Some b) :
  let data := bytesOf b in
  let algorithm := default sha256 (checksumAlgorithm options) in
  let actual := digestHex env algorithm data in
  let r := downloadFile env options w in
  (∀ error,
     failure b = Some error →
     r.1 = Throws error
     ∧ (opened env = true → unlinkError env = None →
        files r.2 !! destination options = None
        ∧ files r.2 = delete (destination options) (files w)))
  ∧ (∀ e hex,
       failure b = None → streamError env = None →
       expectedChecksum options = Some e → carries e hex →
       (hex ≠ actual →
          r.1 = Throws ("Checksum mismatch for " +:+ url options +:+ ". " +:+
                        "Expected: " +:+ hex +:+ ", got: " +:+ actual)
          ∧ (unlinkError env = None →
             files r.2 !! destination options = None
             ∧ files r.2 = delete (destination options) (files w))
          ∧ (∀ refusal, unlinkError env = Some refusal →
             files r.2 !! destination options = Some data))
       ∧ (hex = actual →
          r.1 = Returns (mkResult (destination options) (String.length data)
                           (algorithmName algorithm +:+ ":" +:+ actual))
          ∧ files r.2 !! destination options = Some data
          ∧ digestHex env algorithm data = hex
          ∧ files r.2 = <[destination options:=data]> (files w))).
Proof.
  intros data algorithm actual r.
  pose proof (downloadFile_stream env options w response b Hfetch Hok Hbody)
    as Hrun. cbv zeta in Hrun. fold data algorithm actual r in Hrun.
  split.
  - intros error Hf. rewrite Hf in Hrun. destruct Hrun as [Hres Hfiles].
    split; [done|]. intros Hopen Hunlink.
    rewrite Hopen, afterUnlink_removed in Hfiles by done.
    rewrite Hfiles. split; [apply lookup_delete_eq|done].
  - intros e hex Hf Hs He Hcarries. rewrite Hf, Hs, He in Hrun.
    apply expectedOf_carries in Hcarries as [Hexp Hdef].
    rewrite Hdef, Hexp in Hrun. split.
    + intros Hne. destruct (String.eqb_spec actual hex) as [Heq|_]; [congruence|].
      destruct Hrun as [Hres Hfiles]. split; [done|]. split.
      * intros Hunlink. rewrite afterUnlink_removed in Hfiles by done.
        rewrite Hfiles. split; [apply lookup_delete_eq|done].
      * intros refusal Hunlink. rewrite Hfiles. unfold afterUnlink.
        rewrite Hunlink. apply lookup_insert_eq.
    + intros Heq. rewrite Heq, String.eqb_refl in Hrun.
      destruct Hrun as [Hres Hfiles]. split; [done|]. rewrite Hfiles.
      split; [apply lookup_insert_eq|done].
Qed.

Lemma downloadFile_integrity_witness :
  (downloadFile goodEnv (exampleOptions (Some ("sha256:" +:+ Repair.digestA)))
                emptyWorld).1
  = Returns (mkResult "/cache/db/1.0/linux-x64.tar.gz" 13
                      ("sha256:" +:+ Repair.digestA))
  ∧ (downloadFile brokenEnv (exampleOptions None) emptyWorld).1
    = Throws "ECONNRESET"
  ∧ files (downloadFile brokenEnv (exampleOptions None) emptyWorld).2
      !! "/cache/db/1.0/linux-x64.tar.gz" = None.
Proof.
  split; [|split].
  - refine (proj1 (proj2 (proj2 (downloadFile_integrity goodEnv
             (exampleOptions (Some ("sha256:" +:+ Repair.digestA))) emptyWorld
             _ _ eq_refl eq_refl eq_refl) _ Repair.digestA
             eq_refl eq_refl eq_refl _) eq_refl)).
    apply (carries_prefixed "sha256" Repair.digestA); reflexivity.
  - exact (proj1 (proj1 (downloadFile_integrity brokenEnv
             (exampleOptions None) emptyWorld _ _ eq_refl eq_refl eq_refl)
             "ECONNRESET" eq_refl)).
  - exact (proj1 (proj2 (proj1 (downloadFile_integrity brokenEnv
             (exampleOptions None) emptyWorld _ _ eq_refl eq_refl eq_refl)
             "ECONNRESET" eq_refl) eq_refl eq_refl)).
Defined.

(** C2, as stated, fails.  The expected digest differs from the computed
    one and the file system refuses the removal: the call fails and the
    file stays at the destination, with the bytes that do not match.  And
    when the connection breaks before the destination is open, the open
    lands after the removal and leaves an empty file. *)
Lemma refused_unlink_leaves_the_file :
  exampleDigest sha256 "archive bytes" ≠ Repair.digestB
  ∧ (downloadFile stuckEnv (exampleOptions (Some ("sha256:" +:+ Repair.digestB)))
                  emptyWorld).1
    = Throws ("Checksum mismatch for https://example.org/db.tar.gz. Expected: "
              +:+ Repair.digestB +:+ ", got: " +:+ Repair.digestA)
  ∧ files (downloadFile stuckEnv
             (exampleOptions (Some ("sha256:" +:+ Repair.digestB))) emptyWorld).2
      !! "/cache/db/1.0/linux-x64.tar.gz" = Some "archive bytes"
  ∧ (downloadFile earlyBreakEnv (exampleOptions None) emptyWorld).1
    = Throws "ECONNRESET"
  ∧ files (downloadFile earlyBreakEnv (exampleOptions None) emptyWorld).2
      !! "/cache/db/1.0/linux-x64.tar.gz" = Some "".
Proof. repeat split; by vm_compute. Qed.

(** C10. For an expected checksum [algorithm:hex] the comparison is on
    [hex] and on the digest of the [checksumAlgorithm] option, SHA-256
    when it is absent; the name before the colon changes nothing, so a
    checksum that names another algorithm is still compared with the
    digest of the option. *)
Theorem expected_prefix_is_discarded (env : Env) (options : DownloadOptions)
    (w : World) (algorithm hex : string)
    (Halgorithm : noColon algorithm = true) (Hhex : noColon hex = true) :
  expectedOf (algorithm +:+ ":" +:+ hex) = hex
  ∧ (∀ algorithm',
       noColon algorithm' = true →
       downloadFile env (withExpected options (algorithm' +:+ ":" +:+ hex)) w
       = downloadFile env (withExpected options (algorithm +:+ ":" +:+ hex)) w)
  ∧ (∀ response b,
       fetch env (url options) = Returns response →
       ok response = true → body response = Some b →
       failure b = None → streamError env = None →
       let actual :=
         digestHex env (default sha256 (checksumAlgorithm options)) (bytesOf b) in
       ((∃ result,
           (downloadFile env (withExpected options (algorithm +:+ ":" +:+ hex)) w).1
           = Returns result)
        ↔ hex = actual))
  ∧ (downloadFile goodEnv
       (exampleOptions (Some ("sha512:" +:+ Repair.digestA))) emptyWorld).1
    = Returns (mkResult "/cache/db/1.0/linux-x64.tar.gz" 13
                        ("sha256:" +:+ Repair.digestA)).
Proof.
  assert (∀ a, noColon a = true →
            expectedOf (a +:+ ":" +:+ hex) = hex
            ∧ defined (Some (a +:+ ":" +:+ hex)) = Some (a +:+ ":" +:+ hex))
    as Hexp.
  { intros a Ha. apply expectedOf_carries. by constructor. }
  split; [by apply Hexp|]. split; [|split].
  - intros algorithm' Halgorithm'.
    destruct (Hexp _ Halgorithm) as [He Hd].
    destruct (Hexp _ Halgorithm') as [He' Hd'].
    unfold downloadFile. cbn [withExpected expectedChecksum url destination
      checksumAlgorithm onProgress]. rewrite Hd, Hd'. cbn beta iota.
    rewrite He, He'. unfold bind, try_catch, lift, mkdir, ret. cbn beta iota.
    destruct (fetch env (url options)) as [response|]; [|done].
    destruct (negb (ok response)); [done|].
    destruct (body response) as [b|]; [|done].
    destruct (createWriteStream env (destination options) w) as [[[]|] w1];
      [|done].
    by rewrite (readAll_ext env
                  (withExpected options (algorithm' +:+ ":" +:+ hex))
                  (withExpected options (algorithm +:+ ":" +:+ hex))).
  - intros response b Hfetch Hok Hbody Hf Hs actual.
    pose proof (downloadFile_stream env
      (withExpected options (algorithm +:+ ":" +:+ hex)) w response b
      Hfetch Hok Hbody) as Hrun.
    cbv zeta in Hrun. rewrite Hf, Hs in Hrun.
    cbn [withExpected expectedChecksum checksumAlgorithm] in Hrun.
    destruct (Hexp _ Halgorithm) as [He Hd]. rewrite Hd, He in Hrun.
    fold actual in Hrun.
    destruct (String.eqb_spec actual hex) as [Heq|Hne];
      destruct Hrun as [Hres _]; rewrite Hres.
    + split; [done|]. by eexists.
    + split; [by intros [? ?]|]. congruence.
  - by vm_compute.
Qed.

Lemma expected_prefix_is_discarded_witness :
  expectedOf ("sha512" +:+ ":" +:+ Repair.digestA) = Repair.digestA.
Proof.
  apply (proj1 (expected_prefix_is_discarded goodEnv (exampleOptions None)
                  emptyWorld "sha512" Repair.digestA eq_refl eq_refl)).
Defined.

End DownloadFacts.

(** ** The archive cache *)

Section PathFacts.
Import Js.

Lemma plainSegment_inv s :
  Path.plainSegment s = true →
  s ≠ "" ∧ s ≠ "." ∧ s ≠ ".." ∧ Path.noSeparator s = true.
Proof.
  unfold Path.plainSegment.
  rewrite !andb_true_iff, !negb_true_iff, !String.eqb_neq. tauto.
Qed.

Lemma step_plain allowAboveRoot kept s :
  Path.plainSegment s = true → Path.step allowAboveRoot kept s = s :: kept.
Proof.
  intros (H0 & H1 & H2 & _)%plainSegment_inv. unfold Path.step.
  apply String.eqb_neq in H0, H1, H2. by rewrite H0, H1, H2.
Qed.

Lemma fold_step_plain allowAboveRoot xs kept :
  forallb Path.plainSegment xs = true →
  fold_left (Path.step allowAboveRoot) xs kept = rev xs ++ kept.
Proof.
  revert kept. induction xs as [|x xs IH]; intros kept; [done|]. simpl.
  intros [Hx Hxs]%andb_true_iff. rewrite step_plain by done.
  rewrite IH by done. by rewrite <- app_assoc.
Qed.

Lemma join_nonempty sep x (xs : list string) : x ≠ "" → join sep (x :: xs) ≠ "".
Proof.
  intros Hx. destruct x as [|c x]; [done|]. by destruct xs.
Qed.

Lemma forallb_app_plain (xs ys : list string) :
  forallb Path.plainSegment (xs ++ ys)
  = forallb Path.plainSegment xs && forallb Path.plainSegment ys.
Proof. apply forallb_app. Qed.

Lemma last_plain (xs : list string) :
  forallb Path.plainSegment xs = true → last xs ≠ Some "".
Proof.
  intros Hxs Hlast. apply last_Some in Hlast as [xs' ->].
  rewrite forallb_app in Hxs. apply andb_true_iff in Hxs as [_ Hx].
  simpl in Hx. done.
Qed.

(** A path that splits into an empty component and plain names is [/]
    followed by the names. *)
Lemma normalAbsolute_inv root :
  Path.normalAbsolute root = true →
  ∃ c cs, forallb Path.plainSegment (c :: cs) = true
          ∧ root = String "/" (join "/" (c :: cs)).
Proof.
  unfold Path.normalAbsolute. intros Hroot.
  pose proof (join_split "/" root) as Hjoin.
  destruct (split "/" root) as [|[|] [|c cs]]; try done.
  exists c, cs. split; [done|]. by rewrite <- Hjoin.
Qed.

Lemma split_plain c (cs : list string) :
  forallb Path.plainSegment (c :: cs) = true →
  split "/" (join "/" (c :: cs)) = c :: cs.
Proof.
  intros Hall. simpl in Hall. apply andb_true_iff in Hall as [Hc Hcs].
  rewrite split_join.
  - rewrite split_no_sep; [done|].
    by apply plainSegment_inv in Hc as (_ & _ & _ & Hc).
  - apply Forall_forall. intros y Hy.
    rewrite forallb_forall in Hcs. apply list_elem_of_In in Hy.
    by apply Hcs, plainSegment_inv in Hy as (_ & _ & _ & Hy).
Qed.

(** [/] followed by plain names is normalised. *)
Lemma normalize_plain c (cs : list string) :
  forallb Path.plainSegment (c :: cs) = true →
  Path.normalize (String "/" (join "/" (c :: cs)))
  = String "/" (join "/" (c :: cs)).
Proof.
  intros Hall. unfold Path.normalize, Path.normalizeString. cbv zeta.
  assert (String.eqb (String "/" (join "/" (c :: cs))) "" = false) as ->
    by done.
  assert (String.prefix "/" (String "/" (join "/" (c :: cs))) = true) as ->.
  { cbn [String.prefix]. destruct (Ascii.ascii_dec "/" "/"); [|done].
    by destruct (join "/" (c :: cs)). }
  assert (split "/" (String "/" (join "/" (c :: cs))) = "" :: c :: cs) as ->.
  { cbn [split]. rewrite Ascii.eqb_refl. f_equal. by apply split_plain. }
  assert (fold_left (Path.step (negb true)) ("" :: c :: cs) [] = rev (c :: cs))
    as ->.
  { change (fold_left (Path.step (negb true)) ("" :: c :: cs) [])
      with (fold_left (Path.step (negb true)) (c :: cs) []).
    rewrite fold_step_plain by done. by rewrite app_nil_r. }
  rewrite rev_involutive.
  assert (String.eqb (join "/" (c :: cs)) "" = false) as ->.
  { apply String.eqb_neq, join_nonempty.
    simpl in Hall. apply andb_true_iff in Hall as [Hc _].
    by apply plainSegment_inv in Hc as [? _]. }
  rewrite bool_decide_eq_false_2; [done|].
  change (last ("" :: c :: cs)) with (last (c :: cs)). by apply last_plain.
Qed.

(** On a normalised absolute path and plain names, [path.join] is the
    concatenation with [/]. *)
Lemma join_plain root (rest : list string) :
  Path.normalAbsolute root = true →
  forallb Path.plainSegment rest = true →
  Path.join (root :: rest) = join "/" (root :: rest).
Proof.
  intros (c & cs & Hplain & ->)%normalAbsolute_inv Hrest.
  assert (forallb Path.plainSegment (c :: cs ++ rest) = true) as Hall.
  { change (c :: cs ++ rest) with ((c :: cs) ++ rest).
    by rewrite forallb_app, Hplain, Hrest. }
  assert (join "/" (String "/" (join "/" (c :: cs)) :: rest)
          = String "/" (join "/" (c :: cs ++ rest))) as Hjoined.
  { change (String "/" (join "/" (c :: cs)))
      with (join "/" ("" :: c :: cs)).
    by rewrite join_join. }
  unfold Path.join.
  assert (filter (λ arg, arg ≠ "") (String "/" (join "/" (c :: cs)) :: rest)
          = String "/" (join "/" (c :: cs)) :: rest) as ->.
  { rewrite filter_cons, decide_True by done. f_equal.
    clear -Hrest. induction rest as [|x rest IH]; [done|]. simpl in Hrest.
    apply andb_true_iff in Hrest as [Hx Hrest].
    rewrite filter_cons, decide_True, IH; [done|done|].
    by apply plainSegment_inv in Hx as [? _]. }
  rewrite Hjoined. by apply normalize_plain.
Qed.


(** The file name of an archive is a plain name when the platform holds
    no separator. *)
Lemma archive_name_plain platform ext :
  Path.noSeparator platform = true →
  ext = ".tar.gz" ∨ ext = ".zip" →
  Path.plainSegment (platform +:+ ext) = true.
Proof.
  intros Hp Hext. unfold Path.plainSegment, Path.noSeparator in *.
  rewrite all_app, Hp.
  assert (3 < String.length (platform +:+ ext)) as Hlen.
  { rewrite app_length_str. destruct Hext as [-> | ->]; simpl; lia. }
  assert (∀ s, String.length s ≤ 3 → String.eqb (platform +:+ ext) s = false)
    as Hne.
  { intros s Hs. apply String.eqb_neq. intros Heq. rewrite Heq in Hlen. lia. }
  rewrite !Hne by (simpl; lia). by destruct Hext as [-> | ->].
Qed.

End PathFacts.

Section CacheFacts.
Import Js Cache Install.

(** The stem every path of a cache entry starts with. *)
Lemma pathJoin_stem root database version file :
  pathJoin [root; database; version; file]
  = (root +:+ "/" +:+ database +:+ "/" +:+ version +:+ "/") +:+ file.
Proof. unfold pathJoin, join. simpl. by rewrite !app_assoc_str. Qed.

Lemma getArchiveCachePath_stem process database version platform cacheDir :
  getArchiveCachePath process database version platform cacheDir
  = (getCacheDir process cacheDir +:+ "/" +:+ database +:+ "/" +:+ version
     +:+ "/" +:+ platform) +:+ ".tar.gz".
Proof.
  unfold getArchiveCachePath. rewrite pathJoin_stem. by rewrite !app_assoc_str.
Qed.

Lemma canonical_stem root database version platform url :
  spec_canonicalPath root database version platform url
  = (root +:+ "/" +:+ database +:+ "/" +:+ version +:+ "/" +:+ platform)
    +:+ (if endsWith url ".zip" then ".zip" else ".tar.gz").
Proof.
  unfold spec_canonicalPath. rewrite !app_assoc_str. by destruct (endsWith url ".zip").
Qed.

(** What [archiveChoice] computes, by the files that exist. *)
Lemma archiveChoice_cases process files CONFIG :
  let tarPath :=
    getArchiveCachePath process (database CONFIG) (version CONFIG)
                        (configPlatform CONFIG) None in
  let canonical :=
    spec_canonicalPath (getCacheDir process None) (database CONFIG)
      (version CONFIG) (configPlatform CONFIG) (downloadUrl CONFIG) in
  let expected :=
    if negb (String.eqb (checksum CONFIG) "sha256:PLACEHOLDER")
    then Some (checksum CONFIG) else None in
  archiveChoice process files CONFIG
  = if existsSync files tarPath && existsSync files canonical
    then UseCached canonical
    else Fetch canonical expected.
Proof.
  intros tarPath canonical expected. unfold archiveChoice, getCachedArchive.
  fold tarPath. fold expected. unfold existsSync.
  assert (pathJoin [getCacheDir process None; database CONFIG; version CONFIG;
                    configPlatform CONFIG +:+ archiveExt CONFIG] = canonical)
    as ->.
  { unfold canonical. rewrite canonical_stem, pathJoin_stem.
    unfold archiveExt. by rewrite !app_assoc_str. }
  destruct (bool_decide (is_Some (files !! tarPath))) eqn:Htar; [|done].
  unfold tarPath in *. rewrite getArchiveCachePath_stem in *.
  simpl. rewrite truthy_app by done.
  unfold canonical. rewrite canonical_stem. unfold archiveExt.
  destruct (endsWith (downloadUrl CONFIG) ".zip") eqn:Hzip.
  - rewrite tar_gz_not_zip. simpl.
    unfold replaceSuffix. rewrite strip_suffix_app.
    rewrite truthy_app by done. done.
  - rewrite endsWith_app. simpl. rewrite truthy_app by done.
    by rewrite Htar.
Qed.

(** C8, as the code has it. On a host other than [win32], for a cache
    root that is a normalised absolute path, a database and a version that
    are plain names and a platform without separator, the installer
    resolves the key to the one path
    [<cacheRoot>/<database>/<version>/<platform>.<ext>], with [zip] for a
    source URL ending in [.zip] and [tar.gz] otherwise, whether the
    archive is found in the cache or downloaded; this is what [path.join]
    returns for the segments of the installer.  [getArchiveCachePath]
    itself takes no URL and always names [<platform>.tar.gz]. *)
Theorem archive_path_is_canonical (process : Process)
    (files : gmap string string) (CONFIG : Config)
    (Hhost : platform process ≠ "win32")
    (Hroot : Path.normalAbsolute (getCacheDir process None) = true)
    (Hdatabase : Path.plainSegment (database CONFIG) = true)
    (Hversion : Path.plainSegment (version CONFIG) = true)
    (Hplatform : Path.noSeparator (configPlatform CONFIG) = true) :
  let ext := if endsWith (downloadUrl CONFIG) ".zip" then "zip" else "tar.gz" in
  let canonical :=
    getCacheDir process None +:+ "/" +:+ database CONFIG +:+ "/"
    +:+ version CONFIG +:+ "/" +:+ configPlatform CONFIG +:+ "." +:+ ext in
  archivePathOf (archiveChoice process files CONFIG) = canonical
  ∧ Path.join [getCacheDir process None; database CONFIG; version CONFIG;
               configPlatform CONFIG +:+ "." +:+ ext] = canonical
  ∧ getArchiveCachePath process (database CONFIG) (version CONFIG)
      (configPlatform CONFIG) None
    = getCacheDir process None +:+ "/" +:+ database CONFIG +:+ "/"
      +:+ version CONFIG +:+ "/" +:+ configPlatform CONFIG +:+ ".tar.gz"
  ∧ Path.join [getCacheDir process None; database CONFIG; version CONFIG;
               configPlatform CONFIG +:+ ".tar.gz"]
    = getArchiveCachePath process (database CONFIG) (version CONFIG)
        (configPlatform CONFIG) None.
Proof.
  intros ext canonical.
  assert (∀ e, e = ".tar.gz" ∨ e = ".zip" →
            Path.join [getCacheDir process None; database CONFIG;
                       version CONFIG; configPlatform CONFIG +:+ e]
            = pathJoin [getCacheDir process None; database CONFIG;
                        version CONFIG; configPlatform CONFIG +:+ e]) as Hjoin.
  { intros e He. apply join_plain; [done|]. simpl.
    by rewrite Hdatabase, Hversion, archive_name_plain. }
  assert (canonical
          = spec_canonicalPath (getCacheDir process None) (database CONFIG)
              (version CONFIG) (configPlatform CONFIG) (downloadUrl CONFIG))
    as Hcanonical by done.
  split; [|split; [|split]].
  - rewrite archiveChoice_cases, Hcanonical. by destruct (_ && _).
  - rewrite Hcanonical, canonical_stem. unfold ext.
    destruct (endsWith (downloadUrl CONFIG) ".zip").
    + change (configPlatform CONFIG +:+ "." +:+ "zip")
        with (configPlatform CONFIG +:+ ".zip").
      rewrite Hjoin by auto. rewrite pathJoin_stem. by rewrite !app_assoc_str.
    + change (configPlatform CONFIG +:+ "." +:+ "tar.gz")
        with (configPlatform CONFIG +:+ ".tar.gz").
      rewrite Hjoin by auto. rewrite pathJoin_stem. by rewrite !app_assoc_str.
  - rewrite getArchiveCachePath_stem. by rewrite !app_assoc_str.
  - by rewrite Hjoin by auto.
Qed.

Lemma archive_path_is_canonical_witness :
  archivePathOf (archiveChoice exampleProcess ∅ zipInstaller)
  = "/cache/mariadb/11.4.5/win32-x64.zip"
  ∧ Path.join ["/cache"; "mariadb"; "11.4.5"; "win32-x64.zip"]
    = "/cache/mariadb/11.4.5/win32-x64.zip".
Proof.
  assert (platform exampleProcess ≠ "win32") as Hhost by done.
  pose proof (archive_path_is_canonical exampleProcess ∅ zipInstaller Hhost
                eq_refl eq_refl eq_refl eq_refl) as (Hpath & Hjoin & _).
  split; [exact Hpath|exact Hjoin].
Defined.

(** C8, as stated, fails for the cache itself: the source is a [.zip],
    the canonical path ends in [.zip], and [getArchiveCachePath], which is
    given the key alone, names [.tar.gz]; with the archive stored at the
    canonical path [getCachedArchive] finds nothing.  And for a key that
    is not made of plain names [path.join] does not return the path the
    claim spells: a database named [..] takes the path out of the cache
    root. *)
Lemma getArchiveCachePath_ignores_url :
  endsWith (downloadUrl zipInstaller) ".zip" = true
  ∧ spec_canonicalPath "/cache" "mariadb" "11.4.5" "win32-x64"
      (downloadUrl zipInstaller)
    = "/cache/mariadb/11.4.5/win32-x64.zip"
  ∧ getArchiveCachePath exampleProcess "mariadb" "11.4.5" "win32-x64" None
    = "/cache/mariadb/11.4.5/win32-x64.tar.gz"
  ∧ getCachedArchive exampleProcess
      {[ "/cache/mariadb/11.4.5/win32-x64.zip" := "zip bytes" ]}
      "mariadb" "11.4.5" "win32-x64" None
    = None
  ∧ spec_canonicalPath "/cache" ".." "11.4.5" "win32-x64"
      (downloadUrl zipInstaller)
    = "/cache/../11.4.5/win32-x64.zip"
  ∧ Path.join ["/cache"; ".."; "11.4.5"; "win32-x64.zip"]
    = "/11.4.5/win32-x64.zip".
Proof. repeat split; by vm_compute. Qed.

(** C5, as the code has it. The cache entry is taken as present only if
    a file exists at the canonical path; the decision reads no file
    content and no digest, so two caches with the same paths are treated
    alike, and for a [tar.gz] source an existing file is reused whatever
    its digest; when no file exists at the canonical path the archive is
    downloaded there, with the checksum of the installer. *)
Theorem cache_hit_by_existence (process : Process)
    (files : gmap string string) (CONFIG : Config) :
  let canonical :=
    spec_canonicalPath (getCacheDir process None) (database CONFIG)
      (version CONFIG) (configPlatform CONFIG) (downloadUrl CONFIG) in
  (∀ p, archiveChoice process files CONFIG = UseCached p →
     p = canonical ∧ is_Some (files !! canonical))
  ∧ (files !! canonical = None →
     archiveChoice process files CONFIG
     = Fetch canonical
         (if negb (String.eqb (checksum CONFIG) "sha256:PLACEHOLDER")
          then Some (checksum CONFIG) else None))
  ∧ (∀ files' : gmap string string,
       dom files' = dom files →
       archiveChoice process files' CONFIG = archiveChoice process files CONFIG)
  ∧ (endsWith (downloadUrl CONFIG) ".zip" = false →
     is_Some (files !! canonical) →
     archiveChoice process files CONFIG = UseCached canonical).
Proof.
  intros canonical. rewrite archiveChoice_cases. fold canonical.
  split; [|split; [|split]].
  - intros p. destruct (existsSync files _ && existsSync files canonical) eqn:E;
      [|done].
    intros [= <-]. split; [done|].
    apply andb_true_iff in E as [_ E]. by apply bool_decide_eq_true in E.
  - intros Hnone. unfold existsSync at 2. rewrite Hnone.
    rewrite bool_decide_eq_false_2 by (by intros [? ?]).
    by rewrite andb_false_r.
  - intros files' Hdom. rewrite archiveChoice_cases. fold canonical.
    assert (∀ p, existsSync files' p = existsSync files p) as Hex.
    { intros p. unfold existsSync. apply bool_decide_ext.
      by rewrite <- !elem_of_dom, Hdom. }
    by rewrite !Hex.
  - intros Hzip Hsome.
    assert (getArchiveCachePath process (database CONFIG) (version CONFIG)
              (configPlatform CONFIG) None = canonical) as ->.
    { unfold canonical. rewrite canonical_stem, getArchiveCachePath_stem.
      by rewrite Hzip. }
    unfold existsSync. by rewrite bool_decide_eq_true_2.
Qed.

Lemma cache_hit_by_existence_witness :
  archiveChoice exampleProcess damagedCache exampleConfig
  = UseCached "/cache/db/1.0/linux-x64.tar.gz".
Proof.
  apply (proj2 (proj2 (proj2
           (cache_hit_by_existence exampleProcess damagedCache exampleConfig)))).
  - by vm_compute.
  - vm_compute. by eexists.
Defined.

(** C5, as stated, fails: the digest of the installer is known, the
    cached file has another digest, and the file is reused. *)
Lemma damaged_archive_is_reused :
  checksum exampleConfig = "sha256:" +:+ Repair.digestA
  ∧ damagedCache !! "/cache/db/1.0/linux-x64.tar.gz" = Some "damaged"
  ∧ Download.exampleDigest Download.sha256 "damaged" ≠ Repair.digestA
  ∧ archiveChoice exampleProcess damagedCache exampleConfig
    = UseCached "/cache/db/1.0/linux-x64.tar.gz"
  ∧ main Download.goodEnv exampleProcess exampleConfig
         (Download.mkWorld damagedCache [])
    = (Returns "/cache/db/1.0/linux-x64.tar.gz",
       Download.mkWorld damagedCache []).
Proof. repeat split; by vm_compute. Qed.

End CacheFacts.


(** * Properties of the rest of the code *)

(** ** The discrepancy report *)

Section ReportFacts.
Import Js Prep PrepChecks.

Lemma flat_map_nil {A B} (f : A → list B) (xs : list A) :
  flat_map f xs = [] ↔ ∀ x, x ∈ xs → f x = [].
Proof.
  induction xs as [|x xs IH]; simpl.
  - split; [|done]. intros _ x Hx. by apply elem_of_nil in Hx.
  - split.
    + intros [Hx Hxs]%app_eq_nil y [->|Hy]%elem_of_cons; [done|]. by apply IH.
    + intros Hall. rewrite (Hall x) by left. simpl. apply IH.
      intros y Hy. apply Hall. by right.
Qed.

Lemma filter_nil_iff {A} (P : A → Prop) `{∀ x, Decision (P x)} (xs : list A) :
  filter P xs = [] ↔ ∀ x, x ∈ xs → ¬ P x.
Proof.
  induction xs as [|x xs IH].
  - split; [|done]. intros _ x Hx. by apply elem_of_nil in Hx.
  - rewrite filter_cons. destruct (decide (P x)) as [HP|HP].
    + split; [done|]. intros Hall. exfalso. apply (Hall x); [left|done].
    + rewrite IH. split.
      * intros Hall y [->|Hy]%elem_of_cons; [done|]. by apply Hall.
      * intros Hall y Hy. apply Hall. by right.
Qed.

Lemma map_nil_iff {A B} (f : A → B) (xs : list A) : map f xs = [] ↔ xs = [].
Proof. by destruct xs. Qed.

Lemma desiredPass_nil desired actual :
  spec_desiredPass desired actual = []
  ↔ ∀ db entry,
      (db, entry) ∈ databases desired →
      spec_active entry →
      match spec_at (released_databases actual) db with
      | None => spec_enabled (versions entry) = []
      | Some released =>
          ∀ v, v ∈ spec_enabled (versions entry) →
            ∃ release,
              spec_at released v = Some release
              ∧ ∀ p, p ∈ spec_enabled (platforms entry) →
                  p ∈ (released_platforms release).*1
      end.
Proof.
  unfold spec_desiredPass. rewrite flat_map_nil. split.
  - intros Hall db entry Hin Hactive.
    specialize (Hall (db, entry)). simpl in Hall.
    rewrite list_elem_of_filter in Hall. specialize (Hall (conj Hactive Hin)).
    destruct (spec_at (released_databases actual) db) as [released|].
    + rewrite flat_map_nil in Hall. intros v Hv. specialize (Hall v Hv).
      simpl in Hall. destruct (spec_at released v) as [release|]; [|done].
      exists release. split; [done|]. intros p Hp.
      apply fmap_nil_inv in Hall. rewrite filter_nil_iff in Hall.
      destruct (decide (p ∈ (released_platforms release).*1)); [done|].
      by destruct (Hall p Hp).
    + by destruct (spec_enabled (versions entry)).
  - intros Hagree [db entry] [Hactive Hin]%list_elem_of_filter. simpl in *.
    specialize (Hagree db entry Hin Hactive).
    destruct (spec_at (released_databases actual) db) as [released|].
    + apply flat_map_nil. intros v Hv. simpl.
      destruct (Hagree v Hv) as (release & -> & Hps).
      assert (filter (λ p, p ∉ (released_platforms release).*1)
                (spec_enabled (platforms entry)) = []) as ->; [|done].
      apply filter_nil_iff. intros p Hp Hn. by apply Hn, Hps.
    + by rewrite Hagree.
Qed.

Lemma actualPass_nil desired actual :
  spec_actualPass desired actual = []
  ↔ ∀ db released,
      (db, released) ∈ released_databases actual →
      ∃ entry,
        spec_at (databases desired) db = Some entry
        ∧ ∀ v release,
            (v, release) ∈ released →
            spec_at (versions entry) v = Some true
            ∧ ∀ p, p ∈ (released_platforms release).*1 →
                spec_at (platforms entry) p = Some true.
Proof.
  unfold spec_actualPass. rewrite flat_map_nil. split.
  - intros Hall db released Hin. specialize (Hall (db, released) Hin).
    simpl in Hall. destruct (spec_at (databases desired) db) as [entry|]; [|done].
    exists entry. split; [done|]. intros v release Hv.
    rewrite flat_map_nil in Hall. specialize (Hall (v, release) Hv).
    simpl in Hall.
    destruct (decide (spec_at (versions entry) v = Some true)); [|done].
    split; [done|]. intros p Hp.
    apply fmap_nil_inv in Hall. rewrite filter_nil_iff in Hall.
    destruct (decide (spec_at (platforms entry) p = Some true)); [done|].
    by destruct (Hall p Hp).
  - intros Hagree [db released] Hin. simpl.
    destruct (Hagree db released Hin) as (entry & -> & Hvs).
    apply flat_map_nil. intros [v release] Hv.
    destruct (Hvs v release Hv) as [Hen Hps].
    rewrite decide_True by done.
    assert (filter (λ p, spec_at (platforms entry) p ≠ Some true)
              (released_platforms release).*1 = []) as ->; [|done].
    apply filter_nil_iff. intros p Hp Hn. by apply Hn, Hps.
Qed.

(** X1. Where no name read is one that objects inherit, the detector
    finds nothing exactly when the two states agree: every version and
    platform whose flag is [true] in an active database is released, and
    every released database, version and platform has the flag [true] in the
    desired state. *)
Theorem no_discrepancy_iff_agree (desired : DatabasesJson) (actual : ReleasesJson)
    (Hobj : NoDup (keys (databases desired)))
    (Hown : ownNames desired actual = true) :
  findDiscrepancies (Parsed desired) (Parsed actual) = Returns []
  ↔ agree desired actual.
Proof.
  unfold findDiscrepancies. simpl. rewrite diffSnapshots_spec by done.
  unfold agree. rewrite <- desiredPass_nil, <- actualPass_nil.
  rewrite <- desiredPass_findings, <- (releasedPass_findings _ _ Hown). split.
  - intros [= Heq]. apply app_eq_nil in Heq as [-> ->]. done.
  - intros [Hd Hr]. apply fmap_nil_inv in Hd. apply fmap_nil_inv in Hr.
    by rewrite Hd, Hr.
Qed.

Lemma no_discrepancy_iff_agree_witness :
  ¬ agree disabled_desired disabled_actual.
Proof.
  assert (Hnd : NoDup (keys (databases disabled_desired))).
  { simpl. apply NoDup_singleton. }
  intros Hagree.
  apply (no_discrepancy_iff_agree disabled_desired disabled_actual Hnd eq_refl)
    in Hagree.
  vm_compute in Hagree. discriminate.
Defined.








End ReportFacts.

(** ** Missing checksums *)

Section MissingChecksumFacts.
Import Js Prep PrepChecks.

Lemma elem_of_flat_map {A B} (f : A → list B) (xs : list A) (y : B) :
  y ∈ flat_map f xs ↔ ∃ x, x ∈ xs ∧ y ∈ f x.
Proof.
  rewrite list_elem_of_In, in_flat_map. split.
  - intros (x & Hx & Hy). exists x. by rewrite !list_elem_of_In.
  - intros (x & Hx & Hy). exists x. by rewrite <- !list_elem_of_In.
Qed.

Lemma reportable_spec entry :
  reportable entry = true
  ↔ is_Some (defined (url entry))
    ∧ defined (sha256 entry) = None ∧ defined (sha3_256 entry) = None.
Proof.
  unfold reportable.
  rewrite andb_true_iff, negb_true_iff, bool_decide_eq_true, bool_decide_eq_false.
  destruct (defined (sha256 entry)) as [s|].
  - split; [intros [_ Hn]; destruct Hn; by eexists|by intros (_ & ? & _)].
  - rewrite <- eq_None_not_Some. tauto.
Qed.

Lemma findMissingChecksums_flat getEnabledVersions dirs :
  findMissingChecksums getEnabledVersions (Some dirs)
  = flat_map (λ '(database, sourcesFile),
      match sourcesFile with
      | Parsed sources =>
          flat_map (λ '(version, platforms),
            if (0 <? stdpp.base.size (getEnabledVersions database))
               && negb (bool_decide (version ∈ getEnabledVersions database))
            then []
            else flat_map (λ '(platform, entry),
                   if reportable entry then [(database, version, platform)]
                   else []) platforms) (source_versions sources)
      | _ => []
      end) dirs.
Proof.
  unfold findMissingChecksums.
  rewrite (for_of_append (λ '(database, sourcesFile),
      match sourcesFile with
      | Parsed sources =>
          flat_map (λ '(version, platforms),
            if (0 <? stdpp.base.size (getEnabledVersions database))
               && negb (bool_decide (version ∈ getEnabledVersions database))
            then []
            else flat_map (λ '(platform, entry),
                   if reportable entry then [(database, version, platform)]
                   else []) platforms) (source_versions sources)
      | _ => []
      end)); [done|].
  intros [database sourcesFile] acc _.
  destruct sourcesFile as [| |sources]; simpl; try by rewrite app_nil_r.
  apply for_of_append. intros [version platforms] acc' _.
  destruct (_ && _); [by rewrite app_nil_r|].
  apply for_of_append. intros [platform entry] acc'' _.
  fold (reportable entry). destruct (reportable entry); [done|].
  by rewrite app_nil_r.
Qed.

(** X3. The check for missing checksums never raises: a missing
    [builds] directory gives the empty list, and a database whose
    [sources.json] is absent or does not parse contributes nothing.  A
    triple is reported exactly when its [sources.json] parses, the version
    is enabled (or the database has no enabled version at all), the entry
    has a URL and neither a SHA-256 nor a SHA3-256 checksum. *)
Theorem missing_checksum_reported (getEnabledVersions : string → gset string)
    (dirs : list (string * file SourcesJson)) (database version platform : string) :
  findMissingChecksums getEnabledVersions None = []
  ∧ ((database, version, platform)
       ∈ findMissingChecksums getEnabledVersions (Some dirs)
     ↔ ∃ sources platforms entry,
         (database, Parsed sources) ∈ dirs
         ∧ (version, platforms) ∈ source_versions sources
         ∧ (platform, entry) ∈ platforms
         ∧ (stdpp.base.size (getEnabledVersions database) = 0
            ∨ version ∈ getEnabledVersions database)
         ∧ is_Some (defined (url entry))
         ∧ defined (sha256 entry) = None
         ∧ defined (sha3_256 entry) = None).
Proof.
  split; [done|]. rewrite findMissingChecksums_flat, elem_of_flat_map. split.
  - intros ([db sourcesFile] & Hdir & Hin).
    destruct sourcesFile as [| |sources]; try by apply elem_of_nil in Hin.
    apply elem_of_flat_map in Hin as ([v platforms] & Hv & Hin).
    destruct (0 <? _) eqn:Hsize; destruct (bool_decide (v ∈ _)) eqn:Hhas;
      simpl in Hin; try by apply elem_of_nil in Hin.
    all: apply elem_of_flat_map in Hin as ([p entry] & Hp & Hin).
    all: destruct (reportable entry) eqn:Hrep; [|by apply elem_of_nil in Hin].
    all: apply list_elem_of_singleton in Hin; injection Hin as -> -> ->.
    all: apply reportable_spec in Hrep as (Hurl & Hsha & Hsha3).
    all: exists sources, platforms, entry; repeat split; try done.
    + right. by apply bool_decide_eq_true in Hhas.
    + left. apply Nat.ltb_ge in Hsize. lia.
    + left. apply Nat.ltb_ge in Hsize. lia.
  - intros (sources & platforms & entry & Hdir & Hv & Hp & Hen & Hurl & Hsha & Hsha3).
    exists (database, Parsed sources). split; [done|].
    apply elem_of_flat_map. exists (version, platforms). split; [done|].
    assert ((0 <? stdpp.base.size (getEnabledVersions database))
            && negb (bool_decide (version ∈ getEnabledVersions database)) = false)
      as ->.
    { destruct Hen as [->|Hen]; [done|].
      rewrite (bool_decide_eq_true_2 _ Hen). apply andb_false_r. }
    apply elem_of_flat_map. exists (platform, entry). split; [done|].
    rewrite (proj2 (reportable_spec entry)) by done. left.
Qed.

End MissingChecksumFacts.

(** ** Reading manifests *)

Section ParserFacts.
Import Js Checksums Repair ManifestExamples.

(** X4. Whatever the line pattern matches is a digest of 64 lowercase
    hexadecimal digits, then white space, then at most one [*], then a
    non-empty file name without line terminator; the two captures are the
    digest and the file name. *)
Theorem matched_line_shape (line hash filename : string)
    (Hmatch : matchLine line = Some (hash, filename)) :
  ∃ ws st,
    line = hash +:+ ws +:+ st +:+ filename
    ∧ isDigest hash = true
    ∧ Regex.all Regex.space ws = true ∧ ws ≠ ""
    ∧ (st = "" ∨ st = "*")
    ∧ filename ≠ "" ∧ Regex.all Regex.dot filename = true.
Proof. by apply matchLine_sound. Qed.

Lemma matched_line_shape_witness :
  ∃ ws st,
    digestA +:+ " *notes.txt" = digestA +:+ ws +:+ st +:+ "notes.txt"
    ∧ isDigest digestA = true.
Proof.
  destruct (matched_line_shape (digestA +:+ " *notes.txt") digestA "notes.txt")
    as (ws & st & Hline & Hd & _).
  - vm_compute. reflexivity.
  - exists ws, st. by split.
Defined.

Lemma ends_with_tail x f s c :
  x +:+ f = s +:+ String c "" → f ≠ "" → ∃ f', f = f' +:+ String c "".
Proof.
  revert s. induction x as [|a x IH]; intros s Heq Hf.
  - rewrite app_empty_l in Heq. by exists s.
  - destruct s as [|b s].
    + rewrite ?app_String, app_empty_l in Heq. injection Heq as _ Heq.
      destruct x; [|done]. rewrite app_empty_l in Heq. done.
    + rewrite ?app_String in Heq. injection Heq as _ Heq. by eapply IH.
Qed.

(** A line that ends in a carriage return is not matched. *)
Lemma matchLine_cr s : matchLine (s +:+ String "013" "") = None.
Proof.
  destruct (matchLine _) as [[hash filename]|] eqn:Hmatch; [|done].
  apply matchLine_sound in Hmatch as (ws & st & Hline & _ & _ & _ & _ & Hf & Hdot).
  rewrite <- !app_assoc_str in Hline. symmetry in Hline.
  apply ends_with_tail in Hline as [f' ->]; [|done].
  rewrite all_app in Hdot. simpl in Hdot. by rewrite andb_false_r in Hdot.
Qed.

(** X5. A manifest with Windows line endings is read as empty: when
    every line ends in a carriage return (or is empty), [parseChecksums]
    returns no entry at all. *)
Theorem crlf_manifest_reads_empty (content : string)
    (Hlines : ∀ line, line ∈ split "010" content →
                line = "" ∨ ∃ s, line = s +:+ String "013" "") :
  parseChecksums content = ∅.
Proof.
  unfold parseChecksums.
  apply (for_of_invariant (λ m : gmap string string, m = ∅)); [done|].
  intros line acc Hin ->. destruct (Hlines line Hin) as [->|[s ->]].
  - by vm_compute.
  - by rewrite matchLine_cr.
Qed.

Lemma crlf_manifest_reads_empty_witness : parseChecksums crlfManifest = ∅.
Proof.
  apply (crlf_manifest_reads_empty crlfManifest).
  intros line Hin.
  assert (split "010" crlfManifest
          = [(digestA +:+ "  server-linux-x64.tar.gz") +:+ String "013" "";
             (digestB +:+ "  server-win32-x64.zip") +:+ String "013" ""; ""])
    as Hsplit by (vm_compute; reflexivity).
  rewrite Hsplit in Hin.
  apply elem_of_cons in Hin as [->|Hin]; [right; by eexists|].
  apply elem_of_cons in Hin as [->|Hin]; [right; by eexists|].
  apply elem_of_cons in Hin as [->|Hin]; [by left|].
  by apply elem_of_nil in Hin.
Defined.

(** X6. Every entry [parseChecksums] returns comes from a line of the
    content that the pattern matches: its digest is 64 lowercase
    hexadecimal digits, its file name is not empty, holds no line
    terminator and is not [__proto__]. *)
Theorem parsed_entry_origin (content f d : string)
    (Hentry : parseChecksums content !! f = Some d) :
  (∃ line, line ∈ split "010" content ∧ matchLine line = Some (d, f))
  ∧ isDigest d = true ∧ f ≠ "" ∧ Regex.all Regex.dot f = true
  ∧ f ≠ "__proto__".
Proof.
  assert ((∃ line, line ∈ split "010" content ∧ matchLine line = Some (d, f))
          ∧ f ≠ "__proto__") as [(line & Hin & Hmatch) Hproto].
  { revert f d Hentry. unfold parseChecksums.
    apply (for_of_invariant (λ m : gmap string string, ∀ f d,
      m !! f = Some d →
      (∃ line, line ∈ split "010" content ∧ matchLine line = Some (d, f))
      ∧ f ≠ "__proto__")).
    - intros f d. by rewrite lookup_empty.
    - intros line acc Hin Hacc f d.
      destruct (matchLine line) as [[hash filename]|] eqn:Hmatch; [|by apply Hacc].
      unfold setProperty. destruct (String.eqb_spec filename "__proto__") as [->|Hne];
        [by apply Hacc|].
      rewrite lookup_insert. case_decide as Heq; [|by apply Hacc].
      intros [= <-]. subst f. split; [|done]. by exists line. }
  split; [by exists line|].
  apply matchLine_sound in Hmatch as (_ & _ & _ & Hd & _ & _ & _ & Hf & Hdot).
  done.
Qed.

Lemma parsed_entry_origin_witness :
  isDigest digestA = true ∧ "server-linux-x64.tar.gz" ≠ "__proto__".
Proof.
  destruct (parsed_entry_origin
              (digestA +:+ "  server-linux-x64.tar.gz" +:+ String "010" "")
              "server-linux-x64.tar.gz" digestA)
    as (_ & Hd & _ & _ & Hproto).
  - vm_compute. reflexivity.
  - by split.
Defined.

Lemma delete_setProperty k v (m : gmap string string) :
  setProperty k v (delete "__proto__" m) = delete "__proto__" (<[k:=v]> m).
Proof.
  unfold setProperty. destruct (String.eqb_spec k "__proto__") as [->|Hne].
  - by rewrite delete_insert_eq.
  - by rewrite delete_insert_ne.
Qed.

(** X7. The two readers of the repository agree: the object
    [parseChecksums] builds is the [Map] built by the repair script's
    [fetchChecksums] from the same text, without the key [__proto__]. *)
Theorem readers_agree (sha : string → outcome string) (tag content : string) :
  parseChecksums content
  = delete "__proto__" (fetchChecksums (mkRemote (λ _, Some content) sha) tag).
Proof.
  unfold parseChecksums, fetchChecksums. simpl.
  generalize (split "010" content). intros lines.
  assert (∀ accR accM : gmap string string,
    accR = delete "__proto__" accM →
    for_of lines (λ line checksums,
      match matchLine line with
      | Some (hash, filename) => setProperty filename hash checksums
      | None => checksums
      end) accR
    = delete "__proto__" (for_of lines (λ line checksums,
      match matchLine line with
      | Some (hash, filename) => <[filename:=hash]> checksums
      | None => checksums
      end) accM)) as Hgen.
  { induction lines as [|line lines IH]; intros accR accM Hacc; [done|].
    unfold for_of in *. simpl. apply IH.
    destruct (matchLine line) as [[hash filename]|]; [|done].
    rewrite Hacc. apply delete_setProperty. }
  apply Hgen. by rewrite delete_empty.
Qed.

Lemma for_of_app {A S} (xs ys : list A) (body : A → S → S) (s : S) :
  for_of (xs ++ ys) body s = for_of ys body (for_of xs body s).
Proof. unfold for_of. by rewrite fold_left_app. Qed.

(** Reading into a mapping is reading into the empty one, laid over it. *)
Lemma parse_over (lines : list string) (acc : gmap string string) :
  for_of lines (λ line checksums,
    match matchLine line with
    | Some (hash, filename) => setProperty filename hash checksums
    | None => checksums
    end) acc
  = for_of lines (λ line checksums,
      match matchLine line with
      | Some (hash, filename) => setProperty filename hash checksums
      | None => checksums
      end) ∅ ∪ acc.
Proof.
  induction lines as [|line lines IH] using rev_ind.
  - unfold for_of. simpl. by rewrite (left_id_L ∅ (∪)).
  - rewrite !for_of_snoc, IH.
    destruct (matchLine line) as [[hash filename]|]; [|done].
    unfold setProperty. destruct (String.eqb filename "__proto__"); [done|].
    by rewrite insert_union_l.
Qed.

(** X8. Later lines win: the mapping read from a text followed by a
    line feed and a second text is the mapping of the second text, completed
    by the entries of the first for the file names the second lacks. *)
Theorem later_lines_win (c1 c2 : string) :
  parseChecksums (c1 +:+ String "010" c2)
  = parseChecksums c2 ∪ parseChecksums c1.
Proof.
  unfold parseChecksums. rewrite split_app_sep, for_of_app.
  apply parse_over.
Qed.

End ParserFacts.

(** ** Repairing and listing releases *)

Section RepairMoreFacts.
Import Js Checksums Repair RepairListing.

(** X9. What the repair script uploads is what it fetches back: for a
    mapping of digests under readable file names, [fetchChecksums] after
    the upload of its text returns the mapping. *)
Theorem upload_then_fetch (remote : Remote) (tag : string)
    (m : gmap string string)
    (Hm : ∀ f d, m !! f = Some d → isDigest d = true ∧ readableName f = true) :
  fetchChecksums (upload remote tag (manifestContent m)) tag = m.
Proof. by apply fetchChecksums_upload. Qed.

Lemma upload_then_fetch_witness :
  fetchChecksums
    (upload scenarioC_remote "server-1.0.0"
       (manifestContent {[ "__proto__" := digestA ]})) "server-1.0.0"
  = {[ "__proto__" := digestA ]}.
Proof.
  apply (upload_then_fetch scenarioC_remote "server-1.0.0"
           {[ "__proto__" := digestA ]}).
  intros f d Hfd. apply lookup_singleton_Some in Hfd as [<- <-].
  split; vm_compute; reflexivity.
Defined.

(** X10. After a repair that computed the digest of every missing
    binary asset, under readable file names, a second run on the same
    release finds nothing missing and publishes nothing. *)
Theorem second_run_publishes_nothing (remote : Remote) (release : GitHubRelease)
    (updated : gmap string string)
    (Hrepair : repairRelease remote false release = Some updated)
    (Hnames : ∀ f d, updated !! f = Some d →
                isDigest d = true ∧ readableName f = true)
    (Hall : ∀ a, a ∈ binaryAssets release → is_Some (updated !! name a)) :
  published (upload remote (tag_name release) (manifestContent updated))
            false release
  = None.
Proof. unfold published. by erewrite repair_then_complete. Qed.

Lemma second_run_publishes_nothing_witness :
  ∃ updated,
    repairRelease scenarioC_remote false scenarioC_release = Some updated
    ∧ published
        (upload scenarioC_remote "server-1.0.0" (manifestContent updated))
        false scenarioC_release
      = None.
Proof.
  destruct (repairRelease scenarioC_remote false scenarioC_release)
    as [updated|] eqn:Hrepair; [|by vm_compute in Hrepair].
  exists updated. split; [done|].
  pose proof Hrepair as [_ Hupdated]%repairRelease_Some.
  apply (second_run_publishes_nothing scenarioC_remote scenarioC_release
           updated Hrepair).
  - rewrite Hupdated.
    apply (bool_decide_unpack (map_Forall
      (λ (f d : string), isDigest d = true ∧ readableName f = true) _)).
    vm_compute. exact I.
  - rewrite Hupdated. intros a Ha. revert a Ha. apply Forall_forall.
    apply (bool_decide_unpack _). vm_compute. exact I.
Defined.

(** X11. When the digests computed for the assets are 64 lowercase
    hexadecimal digits, so is every digest of every manifest the repair
    publishes: the ones read from the old manifest passed the line pattern. *)
Theorem published_digests_are_digests (remote : Remote) (dryRun : bool)
    (release : GitHubRelease) (updated : gmap string string)
    (Hsha : ∀ url d, remoteSha256 remote url = Returns d → isDigest d = true)
    (Hrepair : repairRelease remote dryRun release = Some updated) :
  ∀ f d, updated !! f = Some d → isDigest d = true.
Proof. by eapply repairRelease_digests. Qed.

Lemma published_digests_are_digests_witness :
  ∃ updated,
    repairRelease scenarioC_remote false scenarioC_release = Some updated
    ∧ ∀ f d, updated !! f = Some d → isDigest d = true.
Proof.
  destruct (repairRelease scenarioC_remote false scenarioC_release)
    as [updated|] eqn:Hrepair; [|by vm_compute in Hrepair].
  exists updated. split; [done|].
  apply (published_digests_are_digests scenarioC_remote false scenarioC_release
           updated); [|done].
  intros url d. unfold scenarioC_remote. simpl.
  destruct (String.eqb url "https://example.org/win"); [|done].
  intros [= <-]. vm_compute. reflexivity.
Defined.

(** X12. A dry run uploads nothing: whatever the releases and their
    manifests, the remote is left as it is. *)
Theorem dry_run_uploads_nothing (remote : Remote) (releaseTag : option string)
    (releases : list GitHubRelease) :
  main remote true releaseTag releases = (remote, []).
Proof.
  unfold main. generalize (match releaseTag with
    | Some t => if truthy t then filter (λ r, tag_name r = t) releases else releases
    | None => releases end). intros rs.
  apply (for_of_invariant
           (λ s : Remote * list (string * string), s = (remote, []))); [done|].
  intros release acc _ ->.
  assert (published remote true release = None) as ->; [|done].
  unfold published, repairRelease. by repeat case_bool_decide.
Qed.

(** X13. A run only touches the releases it was given: every upload
    carries the tag of one of them, the tag of [--release] when there is
    one, and the manifest of every other tag stays as it was. *)
Theorem run_touches_its_releases_only (remote : Remote) (dryRun : bool)
    (releaseTag : option string) (releases : list GitHubRelease) :
  let result := main remote dryRun releaseTag releases in
  (∀ tag content, (tag, content) ∈ result.2 →
     (∃ release, release ∈ releases ∧ tag_name release = tag)
     ∧ ∀ t, releaseTag = Some t → t ≠ "" → tag = t)
  ∧ (∀ tag, (∀ release, release ∈ releases → tag_name release ≠ tag) →
       manifestText result.1 tag = manifestText remote tag)
  ∧ (∀ t tag, releaseTag = Some t → t ≠ "" → tag ≠ t →
       manifestText result.1 tag = manifestText remote tag).
Proof.
  intros result. unfold result, main.
  set (rs := match releaseTag with
    | Some t => if truthy t then filter (λ r, tag_name r = t) releases else releases
    | None => releases end).
  assert (∀ release, release ∈ rs →
            release ∈ releases
            ∧ ∀ t, releaseTag = Some t → t ≠ "" → tag_name release = t) as Hrs.
  { intros release Hin. unfold rs in Hin. destruct releaseTag as [t|].
    - unfold truthy in Hin. destruct (String.eqb_spec t "") as [->|Hne]; simpl in Hin.
      + split; [done|]. by intros t [= <-].
      + apply list_elem_of_filter in Hin as [Ht Hin]. split; [done|].
        by intros t' [= <-].
    - split; [done|]. by intros t. }
  assert (let s := for_of rs (λ release '(remote, uploads),
            match published remote dryRun release with
            | Some content =>
                (upload remote (tag_name release) content,
                 uploads ++ [(tag_name release, content)])
            | None => (remote, uploads)
            end) (remote, []) in
          (∀ tag content, (tag, content) ∈ s.2 →
             ∃ release, release ∈ rs ∧ tag_name release = tag)
          ∧ (∀ tag, (∀ release, release ∈ rs → tag_name release ≠ tag) →
               manifestText s.1 tag = manifestText remote tag)) as [Hups Hman].
  { apply (for_of_invariant (λ s : Remote * list (string * string),
      (∀ tag content, (tag, content) ∈ s.2 →
         ∃ release, release ∈ rs ∧ tag_name release = tag)
      ∧ (∀ tag, (∀ release, release ∈ rs → tag_name release ≠ tag) →
           manifestText s.1 tag = manifestText remote tag))).
    - split; [|done]. intros tag content Hin. by apply elem_of_nil in Hin.
    - intros release [r ups] Hrel [Hups Hman]. simpl in *.
      destruct (published r dryRun release) as [content|]; [|done]. simpl. split.
      + intros tag c [Hin|Hin]%elem_of_app; [by apply (Hups tag c)|].
        apply list_elem_of_singleton in Hin as [= -> ->]. by exists release.
      + intros tag Hother. rewrite <- (Hman tag Hother).
        destruct (String.eqb_spec tag (tag_name release)) as [->|]; [|done].
        by destruct (Hother release Hrel). }
  split; [|split].
  - intros tag content Hin. destruct (Hups tag content Hin) as (release & Hrel & <-).
    destruct (Hrs release Hrel) as [Hin' Ht]. split; [by exists release|done].
  - intros tag Hother. apply Hman. intros release Hrel.
    apply Hother. by apply Hrs.
  - intros t tag Ht Hne Hneq. apply Hman. intros release Hrel Heq.
    destruct (Hrs release Hrel) as [_ Htag]. rewrite (Htag t Ht Hne) in Heq.
    congruence.
Qed.

Lemma run_touches_its_releases_only_witness :
  manifestText
    (main scenarioC_remote false (Some "server-1.0.0") [scenarioC_release]).1
    "other-2.0.0"
  = manifestText scenarioC_remote "other-2.0.0".
Proof.
  apply (proj2 (proj2 (run_touches_its_releases_only scenarioC_remote false
           (Some "server-1.0.0") [scenarioC_release])) "server-1.0.0");
    [reflexivity|discriminate|discriminate].
Defined.

Lemma fetchPages_serve all fuel page acc rest :
  all = acc ++ rest → length acc = perPage * (page - 1) → 1 ≤ page →
  length rest / perPage < fuel →
  fetchPages fuel (serve all) page acc = Some (Returns all).
Proof.
  revert page acc rest.
  induction fuel as [|fuel IH]; intros page acc rest Hall Hacc Hpage Hfuel; [lia|].
  cbn [fetchPages]. cbn [serve ok negb].
  assert (releaseList (serve all page) = take perPage rest) as ->.
  { unfold serve. cbn [releaseList].
    by rewrite Hall, (drop_app_length' acc rest). }
  rewrite length_take.
  assert (perPage = 100) as Hper by done.
  destruct (Nat.eqb_spec (perPage `min` length rest) 0) as [Hzero|Hnz].
  { destruct rest; [|simpl in Hzero; lia]. by rewrite Hall, app_nil_r. }
  destruct (Nat.ltb_spec (perPage `min` length rest) perPage) as [Hshort|Hfull].
  { rewrite take_ge by lia. by rewrite Hall. }
  apply (IH (page + 1) (acc ++ take perPage rest) (drop perPage rest)).
  - by rewrite <- app_assoc, (firstn_skipn perPage rest).
  - rewrite length_app, length_take, Hacc. lia.
  - lia.
  - rewrite length_drop.
    assert (length rest = 1 * perPage + (length rest - perPage)) as Hlen by lia.
    rewrite Hlen, Nat.div_add_l in Hfuel by lia. lia.
Qed.

(** X14. Against a server that holds a list of releases and serves it a
    hundred at a time, [fetchAllReleases] returns the whole list, in order,
    once it is given one request more than the list has full pages. *)
Theorem fetchAllReleases_collects_all (all : list GitHubRelease) (fuel : nat)
    (Hfuel : length all / perPage < fuel) :
  fetchAllReleases fuel (serve all) = Some (Returns all).
Proof. by apply (fetchPages_serve all fuel 1 [] all). Qed.

Lemma fetchAllReleases_collects_all_witness :
  fetchAllReleases 1 (serve [scenarioC_release; complete_release])
  = Some (Returns [scenarioC_release; complete_release]).
Proof.
  apply (fetchAllReleases_collects_all [scenarioC_release; complete_release] 1).
  vm_compute. lia.
Defined.

End RepairMoreFacts.

(** ** More of the download pipeline *)

Section DownloadMoreFacts.
Import Js Download DownloadMore.

(** The call when no stream is opened. *)
Lemma downloadFile_early env options w :
  match fetch env (url options) with
  | Throws e => downloadFile env options w = (Throws e, w)
  | Returns response =>
      if ok response then
        body response = None →
        downloadFile env options w
        = (Throws ("No response body received from " +:+ url options), w)
      else
        downloadFile env options w
        = (Throws ("Failed to download " +:+ url options +:+ ": "
                   +:+ show (status response) +:+ " " +:+ statusText response),
           w)
  end.
Proof.
  unfold downloadFile, bind, lift, mkdir, ret, throw. cbn beta iota.
  destruct (fetch env (url options)) as [response|e]; [|done].
  cbn beta iota. destruct (ok response); [|done]. simpl. by intros ->.
Qed.

(** X15. A request that fails before the stream is opened changes
    nothing: when [fetch] raises, when the status is not ok or when the
    response has no body, the call raises the corresponding error and the
    files, a file already at the destination included, are as before. *)
Theorem failed_request_changes_nothing (env : Env) (options : DownloadOptions)
    (w : World) :
  (∀ e, fetch env (url options) = Throws e →
     downloadFile env options w = (Throws e, w))
  ∧ (∀ response,
       fetch env (url options) = Returns response → ok response = false →
       downloadFile env options w
       = (Throws ("Failed to download " +:+ url options +:+ ": "
                  +:+ show (status response) +:+ " " +:+ statusText response),
          w))
  ∧ (∀ response,
       fetch env (url options) = Returns response → ok response = true →
       body response = None →
       downloadFile env options w
       = (Throws ("No response body received from " +:+ url options), w)).
Proof.
  pose proof (downloadFile_early env options w) as Hearly.
  split; [|split].
  - intros e He. by rewrite He in Hearly.
  - intros response Hr Hok. by rewrite Hr, Hok in Hearly.
  - intros response Hr Hok Hbody. rewrite Hr, Hok in Hearly. by apply Hearly.
Qed.

Lemma failed_request_changes_nothing_witness :
  downloadFile notFoundEnv (exampleOptions None) usedWorld
  = (Throws "Failed to download https://example.org/db.tar.gz: 404 Not Found",
     usedWorld).
Proof.
  apply (proj1 (proj2 (failed_request_changes_nothing notFoundEnv
                         (exampleOptions None) usedWorld))
           (mkResponse false 404 "Not Found" None None)); reflexivity.
Defined.

(** A call leaves every file other than its destination as it was. *)
Lemma downloadFile_frame env options w p :
  p ≠ destination options →
  files (downloadFile env options w).2 !! p = files w !! p.
Proof.
  intros Hother.
  pose proof (downloadFile_early env options w) as Hearly.
  destruct (fetch env (url options)) as [response|e] eqn:Hfetch;
    [|by rewrite Hearly].
  destruct (ok response) eqn:Hok; [|by rewrite Hearly].
  destruct (body response) as [b|] eqn:Hbody; [|by rewrite Hearly].
  pose proof (downloadFile_stream env options w response b Hfetch Hok Hbody)
    as Hrun. cbv zeta in Hrun.
  assert (∀ (m : gmap string string) x,
            m = afterUnlink env (destination options)
                  (<[destination options:=x]> (files w))
            ∨ m = <[destination options:=x]> (files w) →
            m !! p = files w !! p) as Hframe.
  { intros m x [-> | ->].
    - unfold afterUnlink. destruct (unlinkError env).
      + by rewrite lookup_insert_ne.
      + by rewrite lookup_delete_ne, lookup_insert_ne.
    - by rewrite lookup_insert_ne. }
  destruct (failure b).
  { destruct Hrun as [_ Hrun]. destruct (opened env); eapply Hframe; eauto. }
  destruct (streamError env);
    [destruct Hrun as [_ Hrun]; eapply Hframe; eauto|].
  destruct (defined (expectedChecksum options));
    [|destruct Hrun as [_ Hrun]; eapply Hframe; eauto].
  destruct (String.eqb _ _); destruct Hrun as [_ Hrun]; eapply Hframe; eauto.
Qed.

(** X16. The call never touches a file other than its destination,
    however it ends. *)
Theorem other_files_untouched (env : Env) (options : DownloadOptions)
    (w : World) (p : string) (Hother : p ≠ destination options) :
  files (downloadFile env options w).2 !! p = files w !! p.
Proof. by apply downloadFile_frame. Qed.

Lemma other_files_untouched_witness :
  files (downloadFile goodEnv (exampleOptions None) usedWorld).2
    !! "/cache/other.txt"
  = files usedWorld !! "/cache/other.txt".
Proof.
  apply (other_files_untouched goodEnv (exampleOptions None) usedWorld
           "/cache/other.txt").
  discriminate.
Defined.

(** The loop calls the callback once for each chunk. *)
Lemma readAll_progress env options total pending failure hashed downloaded w :
  progress (readAll env options total pending failure hashed downloaded w).2
  = progress w
    ++ (if onProgress options then reports total downloaded pending else []).
Proof.
  revert hashed downloaded w.
  induction pending as [|value pending IH]; intros hashed downloaded w.
  - simpl. destruct failure; simpl; destruct (onProgress options);
      by rewrite app_nil_r.
  - simpl. unfold bind, write, report. simpl. rewrite IH.
    destruct (onProgress options), (opened env); simpl;
      by rewrite <- ?app_assoc.
Qed.

(** X17. Once the stream is opened the progress callback is called
    once for each chunk received, with the bytes received so far and the
    announced total (0 when none is announced), and at no other time:
    neither the end of the stream nor a failed check adds a call. *)
Theorem progress_is_reported_per_chunk (env : Env) (options : DownloadOptions)
    (w : World) (response : Response) (b : Body)
    (Hfetch : fetch env (url options) = Returns response)
    (Hok : ok response = true)
    (Hbody : body response = Some b) :
  progress (downloadFile env options w).2
  = progress w
    ++ (if onProgress options
        then reports (default 0 (contentLength response)) 0 (chunks b)
        else []).
Proof.
  unfold downloadFile, bind, try_catch, lift, mkdir, destroy, finish,
    createWriteStream, unlink, landOpen, throw, ret.
  cbn beta iota. rewrite Hfetch. cbn beta iota. rewrite Hok. cbn [negb].
  cbn beta iota. rewrite Hbody. cbn beta iota.
  set (w1 := if opened env then _ else w).
  assert (progress w1 = progress w) as Hw1
    by (unfold w1; by destruct (opened env)).
  pose proof (readAll_progress env options (default 0 (contentLength response))
                (chunks b) (failure b) "" 0 w1) as Hprog.
  rewrite Hw1 in Hprog.
  destruct (readAll env options (default 0 (contentLength response)) (chunks b)
              (failure b) "" 0 w1) as [[read|e] w2]; simpl in Hprog |- *.
  - destruct (streamError env); simpl.
    + by destruct (opened env), (_ && _).
    + destruct (defined (expectedChecksum options));
        [destruct (negb _)|]; by destruct (opened env).
  - by destruct (_ && _).
Qed.

Lemma progress_is_reported_per_chunk_witness :
  progress (downloadFile goodEnv (exampleOptions None) emptyWorld).2
  = [(7, 13); (13, 13)].
Proof.
  apply (progress_is_reported_per_chunk goodEnv (exampleOptions None) emptyWorld
           (mkResponse true 200 "OK" (Some 13)
              (Some (mkBody ["archive"; " bytes"] None)))
           (mkBody ["archive"; " bytes"] None)); reflexivity.
Defined.

(** X18. Without an expected checksum, and with the empty string in its
    place, nothing is compared: a stream that reaches its end always
    gives a result, with the bytes at the destination, their number as
    size and the digest of the chosen algorithm as checksum. *)
Theorem unchecked_download_succeeds (env : Env) (options : DownloadOptions)
    (w : World) (response : Response) (b : Body)
    (Hfetch : fetch env (url options) = Returns response)
    (Hok : ok response = true)
    (Hbody : body response = Some b)
    (Hend : failure b = None) (Hfinish : streamError env = None)
    (Hnone : expectedChecksum options = None ∨ expectedChecksum options = Some "") :
  let algorithm := default sha256 (checksumAlgorithm options) in
  (downloadFile env options w).1
  = Returns (mkResult (destination options) (String.length (bytesOf b))
               (algorithmName algorithm +:+ ":"
                +:+ digestHex env algorithm (bytesOf b)))
  ∧ files (downloadFile env options w).2 !! destination options
    = Some (bytesOf b).
Proof.
  intros algorithm.
  pose proof (downloadFile_stream env options w response b Hfetch Hok Hbody)
    as Hrun. cbv zeta in Hrun. rewrite Hend, Hfinish in Hrun.
  assert (defined (expectedChecksum options) = None) as Hdef
    by (by destruct Hnone as [-> | ->]).
  rewrite Hdef in Hrun. destruct Hrun as [Hres Hfiles].
  split; [done|]. by rewrite Hfiles, lookup_insert_eq.
Qed.

Lemma unchecked_download_succeeds_witness :
  files (downloadFile goodEnv (exampleOptions (Some "")) usedWorld).2
    !! "/cache/db/1.0/linux-x64.tar.gz"
  = Some "archive bytes".
Proof.
  refine (proj2 (unchecked_download_succeeds goodEnv (exampleOptions (Some ""))
            usedWorld _ _ eq_refl eq_refl eq_refl eq_refl eq_refl _)).
  by right.
Defined.

End DownloadMoreFacts.

(** ** Expected checksums with more than one colon *)

Section ExpectedFacts.
Import Js Download.

(** The call reads the expected checksum through its truthiness and the
    digest it is compared on only. *)
Lemma downloadFile_same_expected env options w e1 e2 :
  defined (Some e1) = Some e1 → defined (Some e2) = Some e2 →
  expectedOf e1 = expectedOf e2 →
  downloadFile env (withExpected options e1) w
  = downloadFile env (withExpected options e2) w.
Proof.
  intros Hd1 Hd2 He.
  unfold downloadFile. cbn [withExpected expectedChecksum url destination
    checksumAlgorithm onProgress]. rewrite Hd1, Hd2. cbn beta iota.
  rewrite He. unfold bind, try_catch, lift, mkdir, ret. cbn beta iota.
  destruct (fetch env (url options)) as [response|]; [|done].
  destruct (negb (ok response)); [done|].
  destruct (body response) as [b|]; [|done].
  destruct (createWriteStream env (destination options) w) as [[[]|] w1];
    [|done].
  by rewrite (readAll_ext env (withExpected options e1)
                (withExpected options e2)).
Qed.

(** X19. Of an expected checksum with several colons only the part
    between the first and the second is compared: what follows a second
    colon changes neither the result nor the files. *)
Theorem text_after_second_colon_is_ignored (env : Env)
    (options : DownloadOptions) (w : World) (algorithm hex rest : string)
    (Halgorithm : noColon algorithm = true) (Hhex : noColon hex = true) :
  expectedOf (algorithm +:+ ":" +:+ hex +:+ ":" +:+ rest) = hex
  ∧ downloadFile env
      (withExpected options (algorithm +:+ ":" +:+ hex +:+ ":" +:+ rest)) w
    = downloadFile env (withExpected options (algorithm +:+ ":" +:+ hex)) w.
Proof.
  assert (expectedOf (algorithm +:+ ":" +:+ hex +:+ ":" +:+ rest) = hex) as He.
  { unfold expectedOf.
    change (algorithm +:+ ":" +:+ hex +:+ ":" +:+ rest)
      with (algorithm +:+ String ":" (hex +:+ String ":" rest)).
    rewrite includes_sep, split_line by done. rewrite split_line by done.
    done. }
  split; [done|].
  apply downloadFile_same_expected.
  - unfold defined. by rewrite truthy_app.
  - unfold defined. by rewrite truthy_app.
  - rewrite He. symmetry. apply expectedOf_carries. by constructor.
Qed.

Lemma text_after_second_colon_is_ignored_witness :
  expectedOf ("sha256" +:+ ":" +:+ "abc" +:+ ":" +:+ "def") = "abc".
Proof.
  apply (proj1 (text_after_second_colon_is_ignored goodEnv (exampleOptions None)
                  emptyWorld "sha256" "abc" "def" eq_refl eq_refl)).
Defined.

End ExpectedFacts.

(** ** The installers and the extractor *)

Section InstallFacts.
Import Js Cache Install Extract.

Lemma zip_not_tar_gz s : endsWith (s +:+ ".zip") ".tar.gz" = false.
Proof.
  unfold endsWith. apply bool_decide_eq_false. intros [y Hy].
  apply strip_suffix_inv in Hy.
  assert (y +:+ ".tar.gz" = (y +:+ ".ta") +:+ "r.gz") as Hs
    by (by rewrite app_assoc_str).
  assert (String.length s = String.length (y +:+ ".ta")) as Hlen.
  { apply (f_equal String.length) in Hy. rewrite !app_length_str in *.
    simpl in *. lia. }
  rewrite Hs in Hy. by apply app_inj_length in Hy as [_ Hy].
Qed.

Lemma zip_not_tgz s : endsWith (s +:+ ".zip") ".tgz" = false.
Proof.
  unfold endsWith. apply bool_decide_eq_false. intros [y Hy].
  apply strip_suffix_inv in Hy.
  assert (String.length s = String.length y) as Hlen.
  { apply (f_equal String.length) in Hy. rewrite !app_length_str in Hy.
    simpl in Hy. lia. }
  by apply app_inj_length in Hy as [_ Hy].
Qed.

Lemma archive_path_stem process files CONFIG :
  archivePathOf (Install.archiveChoice process files CONFIG)
  = (getCacheDir process None +:+ "/" +:+ database CONFIG +:+ "/"
     +:+ version CONFIG +:+ "/" +:+ configPlatform CONFIG)
    +:+ (if endsWith (downloadUrl CONFIG) ".zip" then ".zip" else ".tar.gz").
Proof.
  rewrite archiveChoice_cases, <- canonical_stem. by destruct (_ && _).
Qed.

(** X20. The archive the installer hands to [extractArchive] always has
    a suffix the extractor knows: [extractArchive] runs the zip extractor
    for a source URL ending in [.zip] and the tar extractor otherwise, and
    never raises for an unknown archive type. *)
Theorem installer_archive_is_extractable {R} (process : Process)
    (files : gmap string string) (CONFIG : Config)
    (extractTarGz extractZip : ExtractOptions → outcome R)
    (destination : string) (stripComponents : option nat) :
  let options :=
    mkExtract (archivePathOf (Install.archiveChoice process files CONFIG))
              destination stripComponents in
  getArchiveType (archivePath options)
  = (if endsWith (downloadUrl CONFIG) ".zip" then zip else tar_gz)
  ∧ extractArchive extractTarGz extractZip options
    = (if endsWith (downloadUrl CONFIG) ".zip" then extractZip options
       else extractTarGz options).
Proof.
  intros options.
  assert (getArchiveType (archivePath options)
          = (if endsWith (downloadUrl CONFIG) ".zip" then zip else tar_gz)) as Ht.
  { unfold options. cbn [archivePath]. rewrite archive_path_stem.
    unfold getArchiveType. destruct (endsWith (downloadUrl CONFIG) ".zip").
    - by rewrite zip_not_tar_gz, zip_not_tgz, endsWith_app.
    - by rewrite endsWith_app. }
  split; [done|]. unfold extractArchive. rewrite Ht.
  by destruct (endsWith (downloadUrl CONFIG) ".zip").
Qed.

(** X21. The installer of a source package uses the cached archive
    exactly when a file exists at the path [getArchiveCachePath] gives, and
    otherwise downloads to that very path. *)
Theorem source_installer_cache_rule (process : Process)
    (files : gmap string string) (CONFIG : Config) :
  let tarPath :=
    getArchiveCachePath process (database CONFIG) (version CONFIG)
                        (configPlatform CONFIG) None in
  SourceInstall.archiveChoice process files CONFIG
  = if existsSync files tarPath then UseCached tarPath
    else Fetch tarPath
           (if negb (String.eqb (checksum CONFIG) "sha256:PLACEHOLDER")
            then Some (checksum CONFIG) else None).
Proof.
  intros tarPath. unfold SourceInstall.archiveChoice, getCachedArchive, existsSync.
  fold tarPath.
  destruct (bool_decide (is_Some (files !! tarPath))); [|done].
  unfold tarPath. rewrite getArchiveCachePath_stem. simpl.
  by rewrite truthy_app.
Qed.

(** A call that returns has written its destination. *)
Lemma downloadFile_Returns_file env options w result w' :
  Download.downloadFile env options w = (Returns result, w') →
  is_Some (Download.files w' !! Download.destination options).
Proof.
  intros Hrun.
  pose proof (downloadFile_early env options w) as Hearly.
  destruct (Download.fetch env (Download.url options)) as [response|e] eqn:Hfetch;
    [|by rewrite Hearly in Hrun].
  destruct (Download.ok response) eqn:Hok; [|by rewrite Hearly in Hrun].
  destruct (Download.body response) as [b|] eqn:Hbody;
    [|by rewrite Hearly in Hrun].
  pose proof (downloadFile_stream env options w response b Hfetch Hok Hbody)
    as Hstream. cbv zeta in Hstream. rewrite Hrun in Hstream. simpl in Hstream.
  destruct (Download.failure b); [by destruct Hstream|].
  destruct (Download.streamError env); [by destruct Hstream|].
  destruct (defined (Download.expectedChecksum options)).
  - destruct (String.eqb _ _); destruct Hstream as [Hres Hfiles]; [|done].
    rewrite Hfiles, lookup_insert_eq. by eexists.
  - destruct Hstream as [Hres Hfiles]. rewrite Hfiles, lookup_insert_eq.
    by eexists.
Qed.

(** X22. For a source that is not a [.zip], an installation that got
    its archive, from the cache or by a download, leaves the cache such
    that the next installation takes the archive from it: it returns the
    same path, asks the network nothing and changes no file. *)
Theorem next_install_uses_cache (env env' : Download.Env) (process : Process)
    (CONFIG : Config) (w w' : Download.World) (archive : string)
    (Htar : endsWith (downloadUrl CONFIG) ".zip" = false)
    (Hrun : main env process CONFIG w = (Returns archive, w')) :
  main env' process CONFIG w' = (Returns archive, w').
Proof.
  unfold main in *. rewrite archiveChoice_cases in *.
  set (canonical := spec_canonicalPath (getCacheDir process None)
         (database CONFIG) (version CONFIG) (configPlatform CONFIG)
         (downloadUrl CONFIG)) in *.
  assert (getArchiveCachePath process (database CONFIG) (version CONFIG)
            (configPlatform CONFIG) None = canonical) as Hsame.
  { unfold canonical. rewrite canonical_stem, getArchiveCachePath_stem.
    by rewrite Htar. }
  rewrite Hsame in *. rewrite !andb_diag in *.
  destruct (existsSync (Download.files w) canonical) eqn:Hexists.
  - injection Hrun as <- <-. by rewrite Hexists.
  - unfold Download.bind in Hrun.
    destruct (Download.downloadFile _ _ w) as [[result|e] w1] eqn:Hdown;
      [|done].
    injection Hrun as <- <-.
    apply downloadFile_Returns_file in Hdown. simpl in Hdown.
    unfold existsSync. by rewrite bool_decide_eq_true_2.
Qed.

Lemma next_install_uses_cache_witness :
  ∃ w',
    main Download.goodEnv exampleProcess SourceInstall.placeholderConfig
         Download.emptyWorld
    = (Returns "/cache/redis/7.2.7/linux-arm64.tar.gz", w')
    ∧ main Download.brokenEnv exampleProcess SourceInstall.placeholderConfig w'
      = (Returns "/cache/redis/7.2.7/linux-arm64.tar.gz", w').
Proof.
  destruct (main Download.goodEnv exampleProcess SourceInstall.placeholderConfig
              Download.emptyWorld) as [res w'] eqn:Hrun.
  assert (res = Returns "/cache/redis/7.2.7/linux-arm64.tar.gz") as ->.
  { apply (f_equal fst) in Hrun. vm_compute in Hrun. congruence. }
  exists w'. split; [done|].
  apply (next_install_uses_cache Download.goodEnv Download.brokenEnv
           exampleProcess SourceInstall.placeholderConfig Download.emptyWorld);
    [by vm_compute|done].
Defined.

(** X23. For a [.zip] source the cache is never hit by the installer's
    own archive: the download is stored under [.zip] while
    [getCachedArchive] probes [.tar.gz], so with no such file present the
    next installation asks the server again, and fails when the server
    refuses, whatever the first installation stored. *)
Theorem zip_install_downloads_again (env env' : Download.Env)
    (process : Process) (CONFIG : Config) (w : Download.World)
    (response : Download.Response)
    (Hzip : endsWith (downloadUrl CONFIG) ".zip" = true)
    (Hmiss : Download.files w
               !! getArchiveCachePath process (database CONFIG) (version CONFIG)
                    (configPlatform CONFIG) None = None)
    (Hfetch : Download.fetch env' (downloadUrl CONFIG) = Returns response)
    (Hrefused : Download.ok response = false) :
  let w' := (main env process CONFIG w).2 in
  main env' process CONFIG w'
  = (Throws ("Failed to download " +:+ downloadUrl CONFIG +:+ ": "
             +:+ show (Download.status response) +:+ " "
             +:+ Download.statusText response), w').
Proof.
  set (tarPath := getArchiveCachePath process (database CONFIG)
         (version CONFIG) (configPlatform CONFIG) None) in *.
  set (canonical := spec_canonicalPath (getCacheDir process None)
         (database CONFIG) (version CONFIG) (configPlatform CONFIG)
         (downloadUrl CONFIG)).
  assert (tarPath ≠ canonical) as Hne.
  { unfold tarPath, canonical.
    rewrite canonical_stem, getArchiveCachePath_stem, Hzip. intros Heq.
    pose proof (zip_not_tar_gz (getCacheDir process None +:+ "/"
      +:+ database CONFIG +:+ "/" +:+ version CONFIG +:+ "/"
      +:+ configPlatform CONFIG)) as Hno.
    rewrite <- Heq, endsWith_app in Hno. done. }
  assert (∀ files, files !! tarPath = None →
            ∃ expected, Install.archiveChoice process files CONFIG
                        = Fetch canonical expected) as Hchoice.
  { intros files Hnone. rewrite archiveChoice_cases. fold tarPath canonical.
    unfold existsSync at 1. rewrite Hnone.
    rewrite bool_decide_eq_false_2 by (by intros [? ?]). by eexists. }
  intros w'.
  assert (Download.files w' !! tarPath = None) as Hmiss'.
  { unfold w', main. destruct (Hchoice _ Hmiss) as [expected ->].
    unfold Download.bind.
    pose proof (downloadFile_frame env
      (Download.mkOptions (downloadUrl CONFIG) canonical expected None true)
      w tarPath Hne) as Hframe.
    destruct (Download.downloadFile _ _ w) as [[result|e] w1]; simpl in *;
      by rewrite Hframe. }
  unfold main at 1. destruct (Hchoice _ Hmiss') as [expected ->].
  unfold Download.bind.
  pose proof (downloadFile_early env'
    (Download.mkOptions (downloadUrl CONFIG) canonical expected None true) w')
    as Hearly.
  simpl in Hearly. rewrite Hfetch, Hrefused in Hearly. by rewrite Hearly.
Qed.

Lemma zip_install_downloads_again_witness :
  (main Download.goodEnv exampleProcess SourceInstall.zipConfig
        Download.emptyWorld).1
  = Returns "/cache/mariadb/11.4.5/win32-x64.zip"
  ∧ (main DownloadMore.notFoundEnv exampleProcess SourceInstall.zipConfig
       (main Download.goodEnv exampleProcess SourceInstall.zipConfig
             Download.emptyWorld).2).1
    = Throws "Failed to download https://archive.mariadb.org/mariadb-11.4.5/winx64-packages/mariadb-11.4.5-winx64.zip: 404 Not Found".
Proof.
  split; [by vm_compute|].
  rewrite (zip_install_downloads_again Download.goodEnv
             DownloadMore.notFoundEnv exampleProcess SourceInstall.zipConfig
             Download.emptyWorld
             (Download.mkResponse false 404 "Not Found" None None)
             eq_refl eq_refl eq_refl eq_refl).
  by vm_compute.
Defined.

(** X24. An installer whose checksum is still the placeholder compares
    nothing: when the cache probe misses, whatever bytes the stream
    delivers end up as the archive and the installation goes on. *)
Theorem placeholder_accepts_any_bytes (env : Download.Env) (process : Process)
    (CONFIG : Config) (w : Download.World)
    (response : Download.Response) (b : Download.Body)
    (Hplaceholder : checksum CONFIG = "sha256:PLACEHOLDER")
    (Hmiss : Download.files w
               !! getArchiveCachePath process (database CONFIG) (version CONFIG)
                    (configPlatform CONFIG) None = None)
    (Hfetch : Download.fetch env (downloadUrl CONFIG) = Returns response)
    (Hok : Download.ok response = true)
    (Hbody : Download.body response = Some b)
    (Hend : Download.failure b = None)
    (Hfinish : Download.streamError env = None) :
  let archive :=
    archivePathOf (Install.archiveChoice process (Download.files w) CONFIG) in
  (main env process CONFIG w).1 = Returns archive
  ∧ Download.files (main env process CONFIG w).2 !! archive
    = Some (Download.bytesOf b).
Proof.
  assert (Install.archiveChoice process (Download.files w) CONFIG
          = Fetch (archivePathOf
                     (Install.archiveChoice process (Download.files w) CONFIG))
                  None) as Hchoice.
  { rewrite archiveChoice_cases. unfold existsSync at 1 3. rewrite Hmiss.
    rewrite bool_decide_eq_false_2 by (by intros [? ?]).
    by rewrite Hplaceholder. }
  intros archive. unfold main. rewrite Hchoice. fold archive.
  pose proof (downloadFile_stream env
    (Download.mkOptions (downloadUrl CONFIG) archive None None true) w
    response b Hfetch Hok Hbody) as Hrun.
  cbv zeta in Hrun. rewrite Hend, Hfinish in Hrun. simpl in Hrun.
  destruct Hrun as [Hres Hfiles]. unfold Download.bind.
  destruct (Download.downloadFile _ _ w) as [[result|e] w1]; simpl in *;
    [|done].
  split; [done|]. by rewrite Hfiles, lookup_insert_eq.
Qed.

Lemma placeholder_accepts_any_bytes_witness :
  (main Download.goodEnv exampleProcess SourceInstall.placeholderConfig
        Download.emptyWorld).1
  = Returns "/cache/redis/7.2.7/linux-arm64.tar.gz".
Proof.
  exact (proj1 (placeholder_accepts_any_bytes Download.goodEnv exampleProcess
            SourceInstall.placeholderConfig Download.emptyWorld
            _ _ eq_refl eq_refl eq_refl eq_refl eq_refl eq_refl eq_refl)).
Defined.

End InstallFacts.

(** ** Platforms and package names *)

Section PlatformMoreFacts.
Import Js Platform.

Lemma detectPlatform_inv os arch p :
  detectPlatform os arch = Returns p →
  (os, arch, p) ∈ [("linux", "x64", "linux-x64"); ("linux", "arm64", "linux-arm64");
                   ("darwin", "arm64", "darwin-arm64"); ("win32", "x64", "win32-x64")].
Proof.
  unfold detectPlatform. rewrite !elem_of_cons.
  do 4 (destruct (_ && _) eqn:Hhost;
        [apply andb_true_iff in Hhost as [->%String.eqb_eq ->%String.eqb_eq];
         intros [= <-]; tauto|clear Hhost]).
  done.
Qed.

Lemma detectPlatform_cases os arch p :
  detectPlatform os arch = Returns p ↔
  (os, arch, p) ∈ [("linux", "x64", "linux-x64"); ("linux", "arm64", "linux-arm64");
                   ("darwin", "arm64", "darwin-arm64"); ("win32", "x64", "win32-x64")].
Proof.
  split; [apply detectPlatform_inv|].
  rewrite !elem_of_cons, elem_of_nil.
  intros [[= -> -> ->] | [[= -> -> ->] | [[= -> -> ->] | [[= -> -> ->] | []]]]];
    done.
Qed.

(** X25. The [os] and [cpu] members the generator writes for a platform
    package are the host on which detection gives that platform: detection
    returns [p] on a host exactly when [p] is one of the generator's
    platforms and [getPlatformOsCpu p] is that host. *)
Theorem package_os_cpu_match_detection (os arch p : string) :
  detectPlatform os arch = Returns p
  ↔ p ∈ Generator.PLATFORMS
    ∧ Generator.getPlatformOsCpu p = Generator.mkOsCpu os arch.
Proof.
  rewrite detectPlatform_cases. unfold Generator.PLATFORMS.
  rewrite !elem_of_cons, !elem_of_nil. split.
  - intros [[= -> -> ->] | [[= -> -> ->] | [[= -> -> ->] | [[= -> -> ->] | []]]]];
      split; try done; tauto.
  - intros [[-> | [-> | [-> | [-> | []]]]] [= <- <-]]; tauto.
Qed.

Lemma lookup_for_of_insert (names : list string) (key : string → string)
    (v : string) (m : gmap string string) (x : string) :
  x ∈ names ∨ m !! key x = Some v →
  for_of names (λ name acc, <[key name:=v]> acc) m !! key x = Some v.
Proof.
  unfold for_of. revert m. induction names as [|n names IH]; intros m Hx; simpl.
  - destruct Hx as [Hx|Hx]; [by apply elem_of_nil in Hx|done].
  - apply IH. destruct Hx as [Hx|Hx].
    + apply elem_of_cons in Hx as [->|Hx]; [right; apply lookup_insert_eq|by left].
    + right. destruct (decide (key n = key x)) as [->|Hne].
      * apply lookup_insert_eq.
      * by rewrite lookup_insert_ne.
Qed.

Lemma generated_package_name database majorVersion fullVersion p description :
  Generator.name
    (Generator.generatePlatformPackageJson database majorVersion fullVersion p
       description)
  = "@host-db/" +:+ database +:+ "-" +:+ majorVersion +:+ "-" +:+ p.
Proof.
  unfold Generator.generatePlatformPackageJson.
  by destruct (Generator.getPlatformOsCpu p).
Qed.

(** X26. On a host that detection supports, the package name
    [getPlatformPackageName] gives for the scope [@host-db] is a key of the
    [optionalDependencies] the generator writes into the version package,
    and is the name of the generated platform package whose [os] and [cpu]
    members are this host. *)
Theorem host_package_is_listed (os arch p : string)
    (database majorVersion fullVersion displayName description : string)
    (Hhost : detectPlatform os arch = Returns p) :
  let package :=
    Generator.generatePlatformPackageJson database majorVersion fullVersion p
      description in
  PlatformInfo.getPlatformPackageName os arch "@host-db" database majorVersion
  = Returns (Generator.name package)
  ∧ Generator.optionalDependencies
      (Generator.generateVersionPackageJson database majorVersion fullVersion
         displayName) !! Generator.name package = Some "0.1.0"
  ∧ Generator.packageOs package = [os] ∧ Generator.packageCpu package = [arch].
Proof.
  intros package. unfold PlatformInfo.getPlatformPackageName. rewrite Hhost.
  unfold package. rewrite generated_package_name. split; [done|]. split.
  - unfold Generator.generateVersionPackageJson.
    cbn [Generator.optionalDependencies].
    apply (lookup_for_of_insert Generator.PLATFORMS
             (λ platform, "@host-db/" +:+ database +:+ "-" +:+ majorVersion
                          +:+ "-" +:+ platform)).
    left. apply detectPlatform_inv in Hhost.
    rewrite !elem_of_cons, elem_of_nil in Hhost. unfold Generator.PLATFORMS.
    rewrite !elem_of_cons.
    destruct Hhost as [[= _ _ ->] | [[= _ _ ->] | [[= _ _ ->] | [[= _ _ ->] | []]]]];
      tauto.
  - apply detectPlatform_inv in Hhost.
    rewrite !elem_of_cons, elem_of_nil in Hhost.
    by destruct Hhost
      as [[= -> -> ->] | [[= -> -> ->] | [[= -> -> ->] | [[= -> -> ->] | []]]]].
Qed.

Lemma host_package_is_listed_witness :
  PlatformInfo.getPlatformPackageName "linux" "arm64" "@host-db" "redis" "7.4"
  = Returns "@host-db/redis-7.4-linux-arm64"
  ∧ Generator.optionalDependencies
      (Generator.generateVersionPackageJson "redis" "7.4" "7.4.1" "Redis")
      !! "@host-db/redis-7.4-linux-arm64" = Some "0.1.0".
Proof.
  pose proof (host_package_is_listed "linux" "arm64" "linux-arm64" "redis"
                "7.4" "7.4.1" "Redis" "Redis 7.4 for linux-arm64" eq_refl)
    as (Hname & Hlisted & _).
  split; [exact Hname|exact Hlisted].
Defined.

(** X27. What [getPlatformInfo] reports is consistent with the host: it
    raises exactly when detection does, and otherwise the platform is
    [os-arch], Windows is flagged exactly on [win32], and the executable
    extension is [.exe] there and empty elsewhere. *)
Theorem platform_info_matches_host (os arch : string) :
  match PlatformInfo.getPlatformInfo os arch with
  | Throws e => detectPlatform os arch = Throws e
  | Returns info =>
      detectPlatform os arch = Returns (PlatformInfo.platform info)
      ∧ PlatformInfo.platform info = os +:+ "-" +:+ arch
      ∧ PlatformInfo.os info = os ∧ PlatformInfo.arch info = arch
      ∧ (PlatformInfo.isWindows info = true ↔ os = "win32")
      ∧ PlatformInfo.executableExtension info
        = (if String.eqb os "win32" then ".exe" else "")
  end.
Proof.
  unfold PlatformInfo.getPlatformInfo.
  destruct (detectPlatform os arch) as [p|e] eqn:Hhost; [|done].
  cbn [PlatformInfo.platform PlatformInfo.os PlatformInfo.arch
       PlatformInfo.isWindows PlatformInfo.executableExtension].
  apply detectPlatform_inv in Hhost.
  rewrite !elem_of_cons, elem_of_nil in Hhost.
  by destruct Hhost
    as [[= -> -> ->] | [[= -> -> ->] | [[= -> -> ->] | [[= -> -> ->] | []]]]].
Qed.

(** X28. The table of [getBinaryPaths] agrees with the naming scheme:
    on every host that detection supports, the package it looks up is the
    one [getPlatformPackageName] gives for [@host-db], the database name
    and the major version. *)
Theorem redis_table_matches_naming (os arch p : string)
    (Hhost : detectPlatform os arch = Returns p) :
  ∃ packageName,
    Redis.packageName os arch = Returns (Some packageName)
    ∧ PlatformInfo.getPlatformPackageName os arch "@host-db"
        Redis.DATABASE_NAME Redis.MAJOR_VERSION = Returns packageName.
Proof.
  unfold Redis.packageName, PlatformInfo.getPlatformPackageName.
  rewrite Hhost. apply detectPlatform_inv in Hhost.
  rewrite !elem_of_cons, elem_of_nil in Hhost.
  destruct Hhost
    as [[= -> -> ->] | [[= -> -> ->] | [[= -> -> ->] | [[= -> -> ->] | []]]]];
    eexists; (split; reflexivity).
Qed.

Lemma redis_table_matches_naming_witness :
  ∃ packageName,
    Redis.packageName "darwin" "arm64" = Returns (Some packageName).
Proof.
  destruct (redis_table_matches_naming "darwin" "arm64" "darwin-arm64" eq_refl)
    as (packageName & Hname & _).
  by exists packageName.
Defined.

End PlatformMoreFacts.

(** ** Clearing the cache and the workspace check *)

Section CacheClearFacts.
Import Js Cache CacheClear.












End CacheClearFacts.

Section WorkspaceFacts.
Import Js Cache Workspace.

Lemma search_spec join dirname existsSync todo dir :
  search join dirname existsSync todo dir = true
  ↔ ∃ i, i < todo
       ∧ existsSync (join (Nat.iter i dirname dir) "pnpm-workspace.yaml") = true
       ∧ ∀ j, j < i →
           dirname (Nat.iter j dirname dir) ≠ Nat.iter j dirname dir.
Proof.
  revert dir. induction todo as [|todo IH]; intros dir; simpl.
  - split; [done|]. intros (i & Hi & _). lia.
  - destruct (existsSync (join dir "pnpm-workspace.yaml")) eqn:Hhere.
    { split; [|done]. intros _. exists 0. split; [lia|]. split; [done|].
      intros j Hj. lia. }
    destruct (String.eqb_spec (dirname dir) dir) as [Hroot|Hup].
    + split; [done|]. intros ([|i] & _ & Hfound & Hups).
      * simpl in Hfound. congruence.
      * destruct (Hups 0); [lia|done].
    + rewrite IH. split.
      * intros (i & Hi & Hfound & Hups). exists (S i). split; [lia|].
        rewrite Nat.iter_succ_r. split; [done|].
        intros [|j] Hj; [done|]. rewrite Nat.iter_succ_r. apply Hups. lia.
      * intros ([|i] & Hi & Hfound & Hups).
        { simpl in Hfound. congruence. }
        exists i. split; [lia|]. rewrite Nat.iter_succ_r in Hfound.
        split; [done|]. intros j Hj. specialize (Hups (S j)).
        rewrite Nat.iter_succ_r in Hups. apply Hups. lia.
Qed.

(** X30. The workspace check looks at the directory of the script and
    at most nine directories above it: it answers yes exactly when the
    marker file lies in one of these ten and the walk up to it does not
    stop at a root.  A marker further up is not seen. *)
Theorem workspace_search_is_bounded (join : string → string → string)
    (dirname : string → string) (existsSync : string → bool)
    (__dirname : string) :
  (isWorkspaceContext join dirname existsSync __dirname = true
   ↔ ∃ i, i < 10
        ∧ existsSync (join (Nat.iter i dirname __dirname)
                           "pnpm-workspace.yaml") = true
        ∧ ∀ j, j < i →
            dirname (Nat.iter j dirname __dirname)
            ≠ Nat.iter j dirname __dirname)
  ∧ ((∀ i, i < 10 →
        existsSync (join (Nat.iter i dirname __dirname)
                         "pnpm-workspace.yaml") = false) →
     isWorkspaceContext join dirname existsSync __dirname = false).
Proof.
  split; [apply search_spec|]. intros Hnone.
  destruct (isWorkspaceContext _ _ _ _) eqn:Hfound; [|done].
  apply search_spec in Hfound as (i & Hi & Hfound & _).
  rewrite Hnone in Hfound; [done|lia].
Qed.

Lemma workspace_search_is_bounded_witness :
  Nat.iter 10 posixDirname "/a/b/c/d/e/f/g/h/i/j" = "/"
  ∧ isWorkspaceContext posixJoin posixDirname
      (λ path, String.eqb path "/pnpm-workspace.yaml")
      "/a/b/c/d/e/f/g/h/i/j" = false.
Proof.
  split; [by vm_compute|].
  apply (proj2 (workspace_search_is_bounded posixJoin posixDirname
                  (λ path, String.eqb path "/pnpm-workspace.yaml")
                  "/a/b/c/d/e/f/g/h/i/j")).
  intros i Hi.
  do 10 (destruct i as [|i]; [by vm_compute|]). lia.
Defined.

End WorkspaceFacts.
